(** * A shallow embedding of the single-decision engine

    The development follows the Python sources module by module:

    - [core/types.py], [adapters/base.py]   the enumerations and the event record
    - [core/decision.py]                    [DecisionMachine]
    - [core/stats.py]                       [DwellTracker], [EngineStats]
    - [core/time_alignment.py]              [TimeAligner]
    - [orderbook/orderbook.py]              [OrderBook]
    - [orderbook/replayer.py]               [OrderBookReplayer]
    - [core/sanitization.py]                [Sanitizer]
    - [core/data_trust.py]                  [DataTrustPolicy]
    - [core/hypothesis.py]                  [HypothesisPolicy]
    - [core/engine.py]                      the per-event pipeline of [ingest]

    Conventions.  Python integers are [Z].  Python floats are read as the
    rational numbers they denote ([Qc], canonical fractions, so that equal
    numbers are equal keys of a dictionary); NaN and the infinities are not
    represented and rounding of float arithmetic is not modelled.  A method
    that mutates [self] becomes a function from the old object to the new
    one; a method that can raise returns a [result]. *)

From Stdlib Require Import ZArith QArith Qcanon Qround Lia.
From stdpp Require Import base option list sorting functions gmap strings pretty.

Local Open Scope Z_scope.

(** ** Exceptions *)

Inductive exn : Type :=
  | UnboundLocalError (name : string)
  | KeyError (key : string)
  | IndexError
  | TypeError
  | ZeroDivisionError.

Inductive result (A : Type) : Type :=
  | Return (a : A)
  | Raise (e : exn).
Arguments Return {A} a.
Arguments Raise {A} e.

Global Instance result_ret : MRet result := λ A a, Return a.
Global Instance result_bind : MBind result := λ A B k m,
  match m with
  | Return a => k a
  | Raise e => Raise e
  end.

(** ** [core/types.py] and [adapters/base.py]: the enumerations *)

Inductive SanitizationState := ACCEPT | REPAIR | QUARANTINE.
Inductive DataTrustState := TRUSTED | DEGRADED | UNTRUSTED.
Inductive HypothesisState := VALID | WEAKENING | INVALID.
Inductive DecisionState := ALLOWED | RESTRICTED | HALTED.
Inductive Stream := TRADES | ORDERBOOK | LIQUIDATIONS | TICKER.

Global Instance SanitizationState_eq_dec : EqDecision SanitizationState.
Proof. solve_decision. Defined.
Global Instance DataTrustState_eq_dec : EqDecision DataTrustState.
Proof. solve_decision. Defined.
Global Instance HypothesisState_eq_dec : EqDecision HypothesisState.
Proof. solve_decision. Defined.
Global Instance DecisionState_eq_dec : EqDecision DecisionState.
Proof. solve_decision. Defined.
Global Instance Stream_eq_dec : EqDecision Stream.
Proof. solve_decision. Defined.

(** The [.value] of each member (the enumerations derive from [str]). *)
Definition san_value (s : SanitizationState) : string :=
  match s with ACCEPT => "ACCEPT" | REPAIR => "REPAIR" | QUARANTINE => "QUARANTINE" end.
Definition trust_value (s : DataTrustState) : string :=
  match s with TRUSTED => "TRUSTED" | DEGRADED => "DEGRADED" | UNTRUSTED => "UNTRUSTED" end.
Definition hypo_value (s : HypothesisState) : string :=
  match s with VALID => "VALID" | WEAKENING => "WEAKENING" | INVALID => "INVALID" end.
Definition decision_value (s : DecisionState) : string :=
  match s with ALLOWED => "ALLOWED" | RESTRICTED => "RESTRICTED" | HALTED => "HALTED" end.
Definition stream_value (s : Stream) : string :=
  match s with
  | TRADES => "trades" | ORDERBOOK => "orderbook"
  | LIQUIDATIONS => "liquidations" | TICKER => "ticker"
  end.

(** [list(Stream)], in declaration order. *)
Definition all_streams : list Stream := [TRADES; ORDERBOOK; LIQUIDATIONS; TICKER].

(** [EngineState], with the defaults of the dataclass. *)
Record EngineState := mkEngineState {
  es_sanitization : SanitizationState;
  es_data_trust : DataTrustState;
  es_hypothesis : HypothesisState;
  es_decision : DecisionState;
}.

Definition EngineState_init : EngineState :=
  mkEngineState QUARANTINE DEGRADED WEAKENING RESTRICTED.

(** ** Payload values and events

    The values an adapter stores in [Event.data]: [None], booleans, numbers
    (an [int] and a [float] of the same value are the same number) and
    strings. *)
Inductive pyval :=
  | VNone
  | VBool (b : bool)
  | VNum (q : Qc)
  | VStr (s : string).

Global Instance pyval_eq_dec : EqDecision pyval.
Proof. solve_decision. Defined.

(** [Event], a frozen dataclass.  [event_ts] is declared [int], but the
    aligner tests it against [None], so it is optional here. *)
Record Event := mkEvent {
  stream : Stream;
  exchange : option string;
  symbol : option string;
  event_ts : option Z;
  ingest_ts : Z;
  event_id : option string;
  data : gmap string pyval;
}.

(** ** [core/decision.py] *)

Module DecisionMachine.

(** [compute]: the RESTRICTED test comes first and returns; the HALTED
    test is reached only when it did not fire. *)
Definition compute (data_trust : DataTrustState) (hypothesis : HypothesisState)
  : DecisionState :=
  if bool_decide (data_trust = DEGRADED) || bool_decide (hypothesis = WEAKENING)
  then RESTRICTED
  else if bool_decide (data_trust = UNTRUSTED) || bool_decide (hypothesis = INVALID)
  then HALTED
  else ALLOWED.

(** The table of the specification, section 4.7, read with HALTED
    overriding RESTRICTED. *)
Definition table (data_trust : DataTrustState) (hypothesis : HypothesisState)
  : DecisionState :=
  match data_trust, hypothesis with
  | UNTRUSTED, _ => HALTED
  | _, INVALID => HALTED
  | DEGRADED, _ => RESTRICTED
  | TRUSTED, WEAKENING => RESTRICTED
  | TRUSTED, VALID => ALLOWED
  end.

End DecisionMachine.

(** ** [core/stats.py] *)

Module DwellTracker.

Record t := mk {
  current : string;
  enter_us : Z;
  total_us : gmap string Z;
  entries : gmap string Z;
}.

(** [DwellTracker(label, now_us)]: both dictionaries start empty. *)
Definition new (label : string) (now_us : Z) : t := mk label now_us ∅ ∅.

(** The two dictionary updates shared by [switch] and [close]. *)
Definition flush (d : t) (now_us : Z) : gmap string Z * gmap string Z :=
  let dt := Z.max 0 (now_us - enter_us d) in
  (<[current d := default 0 (total_us d !! current d) + dt]> (total_us d),
   <[current d := default 0 (entries d !! current d) + 1]> (entries d)).

Definition switch (d : t) (new_label : string) (now_us : Z) : t :=
  if bool_decide (new_label = current d) then d
  else let '(tot, ent) := flush d now_us in mk new_label now_us tot ent.

Definition close (d : t) (now_us : Z) : t :=
  let '(tot, ent) := flush d now_us in mk (current d) (enter_us d) tot ent.

(** The comprehension of [snapshot]: one entry per key of [total_us]. *)
Definition avg_us (d : t) : gmap string Z :=
  map_imap (λ state total, Some (total `div` Z.max 1 (default 0 (entries d !! state))))
           (total_us d).

(** [snapshot]: a dictionary with the two literal keys of the source. *)
Definition snapshot (d : t) : gmap string (gmap string Z) :=
  <["avg_ts" := avg_us d]> (<["total_ts" := total_us d]> ∅).

End DwellTracker.

(** The dictionary returned by [EngineStats.finalize]; the fields are its
    top-level keys, the nested dictionaries are maps. *)
Module Summary.

Record t := mk {
  total_events : Z;
  quarantine_events : Z;
  repair_events : Z;
  events_by_state : gmap string (gmap string Z);
  dwell : gmap string (gmap string (gmap string Z));
}.

End Summary.

Module EngineStats.

Record t := mk {
  total_events : Z;
  quarantine_events : Z;
  repair_events : Z;
  trusted_events : Z;
  degraded_events : Z;
  untrusted_events : Z;
  allowed_events : Z;
  restricted_events : Z;
  halted_events : Z;
  valid_hypo_events : Z;
  weakening_hypo_events : Z;
  invalid_hypo_events : Z;
  san_dwell : option DwellTracker.t;
  trust_dwell : option DwellTracker.t;
  hypo_dwell : option DwellTracker.t;
  decision_dwell : option DwellTracker.t;
}.

(** [EngineStats()]: every counter 0, every tracker [None]. *)
Definition new : t := mk 0 0 0 0 0 0 0 0 0 0 0 0 None None None None.

(** [on_event]: one increment of the total, then the four [match]
    statements (ACCEPT has no counter). *)
Definition on_event (s : t) (san : SanitizationState) (trust : DataTrustState)
    (hypo : HypothesisState) (decision : DecisionState) : t :=
  mk (total_events s + 1)
     (match san with QUARANTINE => quarantine_events s + 1 | _ => quarantine_events s end)
     (match san with REPAIR => repair_events s + 1 | _ => repair_events s end)
     (match trust with TRUSTED => trusted_events s + 1 | _ => trusted_events s end)
     (match trust with DEGRADED => degraded_events s + 1 | _ => degraded_events s end)
     (match trust with UNTRUSTED => untrusted_events s + 1 | _ => untrusted_events s end)
     (match decision with ALLOWED => allowed_events s + 1 | _ => allowed_events s end)
     (match decision with RESTRICTED => restricted_events s + 1 | _ => restricted_events s end)
     (match decision with HALTED => halted_events s + 1 | _ => halted_events s end)
     (match hypo with VALID => valid_hypo_events s + 1 | _ => valid_hypo_events s end)
     (match hypo with WEAKENING => weakening_hypo_events s + 1 | _ => weakening_hypo_events s end)
     (match hypo with INVALID => invalid_hypo_events s + 1 | _ => invalid_hypo_events s end)
     (san_dwell s) (trust_dwell s) (hypo_dwell s) (decision_dwell s).

Definition set_dwell (s : t) (sd td hd dd : option DwellTracker.t) : t :=
  mk (total_events s) (quarantine_events s) (repair_events s)
     (trusted_events s) (degraded_events s) (untrusted_events s)
     (allowed_events s) (restricted_events s) (halted_events s)
     (valid_hypo_events s) (weakening_hypo_events s) (invalid_hypo_events s)
     sd td hd dd.

Definition init_dwell (s : t) (now_us : Z) (san : SanitizationState)
    (trust : DataTrustState) (hypo : HypothesisState) (decision : DecisionState) : t :=
  set_dwell s
    (Some (DwellTracker.new (san_value san) now_us))
    (Some (DwellTracker.new (trust_value trust) now_us))
    (Some (DwellTracker.new (hypo_value hypo) now_us))
    (Some (DwellTracker.new (decision_value decision) now_us)).

(** [if self.x_dwell: self.x_dwell.switch(...)]: a dataclass instance is
    truthy, so the test is the test for [None]. *)
Definition switch_san (s : t) (now_us : Z) (san : SanitizationState) : t :=
  set_dwell s ((λ d, DwellTracker.switch d (san_value san) now_us) <$> san_dwell s)
    (trust_dwell s) (hypo_dwell s) (decision_dwell s).

Definition switch_trust (s : t) (now_us : Z) (trust : DataTrustState) : t :=
  set_dwell s (san_dwell s)
    ((λ d, DwellTracker.switch d (trust_value trust) now_us) <$> trust_dwell s)
    (hypo_dwell s) (decision_dwell s).

Definition switch_hypo (s : t) (now_us : Z) (hypo : HypothesisState) : t :=
  set_dwell s (san_dwell s) (trust_dwell s)
    ((λ d, DwellTracker.switch d (hypo_value hypo) now_us) <$> hypo_dwell s)
    (decision_dwell s).

Definition switch_decision (s : t) (now_us : Z) (decision : DecisionState) : t :=
  set_dwell s (san_dwell s) (trust_dwell s) (hypo_dwell s)
    ((λ d, DwellTracker.switch d (decision_value decision) now_us) <$> decision_dwell s).

(** The first half of [finalize]: three [close] calls.  The tracker of
    the sanitization axis is not among them. *)
Definition finalize_close (s : t) (now_us : Z) : t :=
  set_dwell s (san_dwell s)
    ((λ d, DwellTracker.close d now_us) <$> trust_dwell s)
    ((λ d, DwellTracker.close d now_us) <$> hypo_dwell s)
    ((λ d, DwellTracker.close d now_us) <$> decision_dwell s).

(** [x.snapshot() if x else {}]. *)
Definition dwell_stats (d : option DwellTracker.t) : gmap string (gmap string Z) :=
  from_option DwellTracker.snapshot ∅ d.

(** The second half of [finalize]: the returned dictionary. *)
Definition summary (s : t) : Summary.t :=
  Summary.mk (total_events s) (quarantine_events s) (repair_events s)
    (<["decision" :=
         <["HALTED" := halted_events s]> (<["RESTRICTED" := restricted_events s]>
           (<["ALLOWED" := allowed_events s]> ∅))]>
     (<["hypothesis" :=
         <["INVALID" := invalid_hypo_events s]> (<["WEAKENING" := weakening_hypo_events s]>
           (<["VALID" := valid_hypo_events s]> ∅))]>
     (<["data_trust" :=
         <["UNTRUSTED" := untrusted_events s]> (<["DEGRADED" := degraded_events s]>
           (<["TRUSTED" := trusted_events s]> ∅))]> ∅)))
    (<["decision" := dwell_stats (decision_dwell s)]>
     (<["hypothesis" := dwell_stats (hypo_dwell s)]>
     (<["data_trust" := dwell_stats (trust_dwell s)]>
     (<["sanitization" := dwell_stats (san_dwell s)]> ∅)))).

(** [finalize] mutates the trackers and returns the summary. *)
Definition finalize (s : t) (now_us : Z) : t * Summary.t :=
  let s' := finalize_close s now_us in (s', summary s').

End EngineStats.

(** ** [core/time_alignment.py] *)

Record TimeAlignmentStats := mkTimeAlignmentStats {
  pushed : Z;
  emitted : Z;
  late : Z;
  forced_flush : bool;
  buffer_len : Z;
}.

(** The part of the configuration the aligner reads. *)
Record TimeAlignerCfg := mkTimeAlignerCfg {
  allowed_lateness_ms : Z;
  max_buffer_ms : Z;
}.

Module TimeAligner.

(** A heap entry [(event_ts, tie, ev)]. *)
Definition entry : Type := Z * Z * Event.
Definition entry_ts (x : entry) : Z := x.1.1.
Definition entry_tie (x : entry) : Z := x.1.2.
Definition entry_ev (x : entry) : Event := x.2.

(** Tuple comparison on the first two components; [tie] is fresh for every
    push, so the comparison never reaches the event. *)
Definition entry_lt (x y : entry) : bool :=
  (entry_ts x <? entry_ts y)
  || ((entry_ts x =? entry_ts y) && (entry_tie x <? entry_tie y)).

(** [heapq] is the standard library's binary heap.  The aligner observes it
    only through [heap[0]], [heappop] and [len], all of which are determined
    by the multiset of entries when the keys are pairwise distinct; the heap
    is therefore kept as the list of its entries in increasing key order:
    [heap[0]] is the head and [heappop] removes it. *)
Fixpoint heappush (heap : list entry) (x : entry) : list entry :=
  match heap with
  | [] => [x]
  | y :: heap' => if entry_lt x y then x :: y :: heap' else y :: heappush heap' x
  end.

Record t := mk {
  allowed_lateness_us : Z;
  max_buffer_us : Z;
  _last_event_ts : option Z;
  _heap : list entry;
  _tie : Z;
}.

Definition new (cfg : TimeAlignerCfg) : t :=
  mk (allowed_lateness_ms cfg * 1000) (max_buffer_ms cfg * 1000) None [] 0.

Definition _compute_watermark (a : t) : option Z :=
  match _last_event_ts a with
  | None => None
  | Some l => Some (l - allowed_lateness_us a)
  end.

(** [while self._heap and self._heap[0][0] <= watermark: heappop]. *)
Fixpoint pop_ready (watermark : Z) (heap : list entry) : list Event * list entry :=
  match heap with
  | [] => ([], [])
  | x :: heap' =>
      if entry_ts x <=? watermark
      then let '(out, rest) := pop_ready watermark heap' in (entry_ev x :: out, rest)
      else ([], heap)
  end.

Definition align (a : t) (ev : Event) : t * (list Event * TimeAlignmentStats) :=
  match event_ts ev with
  | None =>
      (a, ([ev], mkTimeAlignmentStats 1 1 0 false (Z.of_nat (length (_heap a)))))
  | Some ts =>
      let last :=
        match _last_event_ts a with
        | None => ts
        | Some l => if l <? ts then ts else l
        end in
      let a1 := mk (allowed_lateness_us a) (max_buffer_us a) (Some last) (_heap a) (_tie a) in
      let is_late : Z :=
        match _compute_watermark a1 with
        | Some prev_watermark => if ts <? prev_watermark then 1 else 0
        | None => 0
        end in
      let heap := heappush (_heap a1) (ts, _tie a1, ev) in
      let a2 := mk (allowed_lateness_us a) (max_buffer_us a) (Some last) heap (_tie a1 + 1) in
      match _compute_watermark a2 with
      | None => (a2, ([], mkTimeAlignmentStats 1 0 is_late false (Z.of_nat (length heap))))
      | Some watermark =>
          let '(watermark, forced) :=
            match heap with
            | x :: _ =>
                if max_buffer_us a <? watermark - entry_ts x
                then (entry_ts x + max_buffer_us a, true)
                else (watermark, false)
            | [] => (watermark, false)
            end in
          let '(aligned_evs, rest) := pop_ready watermark heap in
          (mk (allowed_lateness_us a) (max_buffer_us a) (Some last) rest (_tie a1 + 1),
           (aligned_evs,
            mkTimeAlignmentStats 1 (Z.of_nat (length aligned_evs)) is_late forced
              (Z.of_nat (length rest))))
      end
  end.

(** A sequence of [align] calls on one aligner: the final object and what
    each call returned, in call order. *)
Fixpoint run (a : t) (evs : list Event) : t * list (list Event * TimeAlignmentStats) :=
  match evs with
  | [] => (a, [])
  | ev :: evs' =>
      let '(a', r) := align a ev in
      let '(a'', rs) := run a' evs' in
      (a'', r :: rs)
  end.

(** The events handed on by a run, in emission order, and the timestamps
    of those that have one. *)
Definition emitted_events (rs : list (list Event * TimeAlignmentStats)) : list Event :=
  concat (fst <$> rs).
Definition emitted_ts (rs : list (list Event * TimeAlignmentStats)) : list Z :=
  omap event_ts (emitted_events rs).

End TimeAligner.

(** ** [orderbook/orderbook.py] *)

Record BookTop := mkBookTop {
  best_bid : option Qc;
  best_ask : option Qc;
  mid : option Qc;
  spread : option Qc;
}.

(** [max] and [min] of two numbers. *)
Definition Qc_max (x y : Qc) : Qc := if decide (x ≤ y)%Qc then y else x.
Definition Qc_min (x y : Qc) : Qc := if decide (x ≤ y)%Qc then x else y.

(** The keys of a ladder, and [max(levels.keys())] / [min(levels.keys())]
    for a non-empty one. *)
Definition keys (levels : gmap Qc Qc) : list Qc := (map_to_list levels).*1.

Definition fold1 (f : Qc → Qc → Qc) (l : list Qc) : option Qc :=
  match l with
  | [] => None
  | x :: l' => Some (foldl f x l')
  end.

Definition _best_from_levels (levels : gmap Qc Qc) (side : string) : option (Qc * Qc) :=
  if bool_decide (levels = ∅) then None
  else
    px ← (if bool_decide (side = "bid") then fold1 Qc_max (keys levels)
          else fold1 Qc_min (keys levels));
    amount ← levels !! px;
    Some (px, amount).

Module OrderBook.

Record t := mk {
  depth_limit : Z;
  bids : gmap Qc Qc;
  asks : gmap Qc Qc;
  last_update_us : option Z;
  last_event_ts : option Z;
}.

Definition new (depth_limit : Z) : t := mk depth_limit ∅ ∅ None None.

(** [for px in keys: levels.pop(px, None)]. *)
Definition pop_all (levels : gmap Qc Qc) (pxs : list Qc) : gmap Qc Qc :=
  foldl (λ m px, delete px m) levels pxs.

(** [sorted(levels.keys())] and [sorted(levels.keys(), reverse=True)]. *)
Definition sorted_keys (levels : gmap Qc Qc) : list Qc :=
  merge_sort Qcle (keys levels).
Definition sorted_keys_reverse (levels : gmap Qc Qc) : list Qc :=
  merge_sort (flip Qcle) (keys levels).

(** One arm of [_trim]: when the ladder is longer than [depth_limit], the
    first [len - depth_limit] keys of the sorted key list are popped. *)
Definition trim_side (depth_limit : Z) (sorted : gmap Qc Qc → list Qc)
    (levels : gmap Qc Qc) : gmap Qc Qc :=
  if depth_limit <? Z.of_nat (size levels)
  then pop_all levels (take (Z.to_nat (Z.of_nat (size levels) - depth_limit)) (sorted levels))
  else levels.

Definition _trim (b : t) : t :=
  if depth_limit b <=? 0 then b
  else mk (depth_limit b)
          (trim_side (depth_limit b) sorted_keys (bids b))
          (trim_side (depth_limit b) sorted_keys_reverse (asks b))
          (last_update_us b) (last_event_ts b).

(** The common tail of [apply_snapshot] and [apply_delta]. *)
Definition stamp (b : t) (now_us : Z) (event_ts : option Z) : t :=
  mk (depth_limit b) (bids b) (asks b) (Some now_us)
     (match event_ts with Some ts => Some ts | None => last_event_ts b end).

Definition apply_snapshot (b : t) (side : string) (price amount : Qc) (now_us : Z)
    (event_ts : option Z) : t :=
  let b1 :=
    if bool_decide (side = "bid")
    then mk (depth_limit b) (<[price := amount]> (bids b)) (asks b)
            (last_update_us b) (last_event_ts b)
    else mk (depth_limit b) (bids b) (<[price := amount]> (asks b))
            (last_update_us b) (last_event_ts b) in
  stamp (_trim b1) now_us event_ts.

Definition apply_delta (b : t) (side : string) (price amount : Qc) (now_us : Z)
    (event_ts : option Z) : t :=
  let write (book : gmap Qc Qc) : gmap Qc Qc :=
    if decide (amount ≤ 0)%Qc then delete price book else <[price := amount]> book in
  let b1 :=
    if bool_decide (side = "bid")
    then mk (depth_limit b) (write (bids b)) (asks b) (last_update_us b) (last_event_ts b)
    else mk (depth_limit b) (bids b) (write (asks b)) (last_update_us b) (last_event_ts b) in
  stamp (_trim b1) now_us event_ts.

Definition clear (b : t) : t :=
  mk (depth_limit b) ∅ ∅ (last_update_us b) (last_event_ts b).

Definition top (b : t) : BookTop :=
  let best_bid := fst <$> _best_from_levels (bids b) "bid" in
  let best_ask := fst <$> _best_from_levels (asks b) "ask" in
  match best_bid, best_ask with
  | Some bid, Some ask =>
      mkBookTop best_bid best_ask (Some ((bid + ask) / Q2Qc 2)%Qc) (Some (ask - bid)%Qc)
  | _, _ => mkBookTop best_bid best_ask None None
  end.

(** The calls a client can make on a book, and their effect. *)
Inductive call :=
  | ApplySnapshot (side : string) (price amount : Qc) (now_us : Z) (event_ts : option Z)
  | ApplyDelta (side : string) (price amount : Qc) (now_us : Z) (event_ts : option Z)
  | Clear.

Definition exec (b : t) (c : call) : t :=
  match c with
  | ApplySnapshot side price amount now_us event_ts =>
      apply_snapshot b side price amount now_us event_ts
  | ApplyDelta side price amount now_us event_ts =>
      apply_delta b side price amount now_us event_ts
  | Clear => clear b
  end.

Definition run (b : t) (cs : list call) : t := foldl exec b cs.

End OrderBook.

(** ** Dictionary payloads *)

(** [data[key]]: raises [KeyError] when the key is absent. *)
Definition getitem (data : gmap string pyval) (key : string) : result pyval :=
  match data !! key with
  | Some v => Return v
  | None => Raise (KeyError key)
  end.

(** [data.get(key)]: [None] when the key is absent. *)
Definition dict_get (data : gmap string pyval) (key : string) : pyval :=
  default VNone (data !! key).

Definition is_none (v : pyval) : bool :=
  match v with VNone => true | _ => false end.

(** [isinstance(v, (int, float))]; [bool] is a subclass of [int]. *)
Definition is_number (v : pyval) : bool :=
  match v with VNum _ | VBool _ => true | _ => false end.

(** The number a value stands for in arithmetic, [TypeError] otherwise. *)
Definition as_num (v : pyval) : result Qc :=
  match v with
  | VNum q => Return q
  | VBool b => Return (if b then Q2Qc 1 else Q2Qc 0)
  | _ => Raise TypeError
  end.

(** Truth value of a payload value, as used by [if is_snapshot:]. *)
Definition truthy (v : pyval) : bool :=
  match v with
  | VNone => false
  | VBool b => b
  | VNum q => negb (bool_decide (q = Q2Qc 0))
  | VStr s => negb (bool_decide (s = ""))
  end.

(** ** [orderbook/replayer.py] *)

Module OrderBookReplayer.

Record t := mk {
  orderbook : OrderBook.t;
  _snapshot_active : bool;
}.

Definition new (depth_limit : Z) : t := mk (OrderBook.new depth_limit) false.

Definition on_event (r : t) (ev : Event) (now_us : Z) : result t :=
  if negb (bool_decide (stream ev = ORDERBOOK)) then Return r
  else
    is_snapshot ← getitem (data ev) "is_snapshot";
    side ← getitem (data ev) "side";
    price ← getitem (data ev) "price";
    amount ← getitem (data ev) "amount";
    match side with
    | VStr side =>
        if negb (bool_decide (side = "bid") || bool_decide (side = "ask")) then Return r
        else if negb (is_number price) || negb (is_number amount) then Return r
        else
          price ← as_num price;
          amount ← as_num amount;
          if truthy is_snapshot then
            let book := if _snapshot_active r then orderbook r
                        else OrderBook.clear (orderbook r) in
            Return (mk (OrderBook.apply_snapshot book side price amount now_us (event_ts ev))
                       true)
          else
            Return (mk (OrderBook.apply_delta (orderbook r) side price amount now_us
                          (event_ts ev))
                       false)
    | _ => Return r
    end.

Definition snapshot (r : t) : BookTop := OrderBook.top (orderbook r).

End OrderBookReplayer.

(** ** [core/sanitization.py] *)

(** Reading a local variable of a function body: a name that the body
    assigns somewhere is local, and reading it before the assignment has
    run raises [UnboundLocalError]. *)
Definition load_local {A} (name : string) (binding : option A) : result A :=
  match binding with
  | Some a => Return a
  | None => Raise (UnboundLocalError name)
  end.

(** [sep.join(parts)]. *)
Fixpoint join (sep : string) (parts : list string) : string :=
  match parts with
  | [] => ""
  | [p] => p
  | p :: parts' => p +:+ sep +:+ join sep parts'
  end.

Module Sanitizer.

Record t := mk {
  _exchange : string;
  _symbol : string;
  _last_funding_timestamp : pyval;
  _last_funding_rate : pyval;
  _last_predicted_funding_rate : pyval;
  _last_open_interest : pyval;
  _last_last_price : pyval;
  _last_index_price : pyval;
  _last_mark_price : pyval;
}.

Definition new (exchange symbol : string) : t :=
  mk exchange symbol VNone VNone VNone VNone VNone VNone VNone.

Definition required : list string :=
  ["funding_timestamp"; "funding_rate"; "open_interest";
   "last_price"; "index_price"; "mark_price"].

(** [if merged.get(key) is not None: self._last_key = merged[key]]. *)
Definition remember (merged : gmap string pyval) (key : string) (cached : pyval) : pyval :=
  if is_none (dict_get merged key) then cached else dict_get merged key.

(** The seven cache updates of the TICKER branch. *)
Definition update_cache (s : t) (merged : gmap string pyval) : t :=
  mk (_exchange s) (_symbol s)
     (remember merged "funding_timestamp" (_last_funding_timestamp s))
     (remember merged "funding_rate" (_last_funding_rate s))
     (remember merged "predicted_funding_rate" (_last_predicted_funding_rate s))
     (remember merged "open_interest" (_last_open_interest s))
     (remember merged "last_price" (_last_last_price s))
     (remember merged "index_price" (_last_index_price s))
     (remember merged "mark_price" (_last_mark_price s)).

(** The local function [fill]; the pair is [(merged, used_cache)]. *)
Definition fill (st : gmap string pyval * bool) (key : string) (cached : pyval)
  : gmap string pyval * bool :=
  if is_none (dict_get st.1 key) && negb (is_none cached)
  then (<[key := cached]> st.1, true)
  else st.

Definition fill_all (s : t) (merged : gmap string pyval) : gmap string pyval * bool :=
  let st := (merged, false) in
  let st := fill st "funding_timestamp" (_last_funding_timestamp s) in
  let st := fill st "funding_rate" (_last_funding_rate s) in
  let st := fill st "predicted_funding_rate" (_last_predicted_funding_rate s) in
  let st := fill st "open_interest" (_last_open_interest s) in
  let st := fill st "last_price" (_last_last_price s) in
  let st := fill st "index_price" (_last_index_price s) in
  fill st "mark_price" (_last_mark_price s).

(** What a stream's branch of the [match] leaves behind: either an early
    QUARANTINE with its reason, or the updated locals. *)
Inductive branch :=
  | Quarantined (reason : string)
  | Continue (status : SanitizationState) (data : gmap string pyval) (reasons : list string).

Definition missing3 (data : gmap string pyval) (k1 k2 k3 : string) : bool :=
  is_none (dict_get data k1) || is_none (dict_get data k2) || is_none (dict_get data k3).

(** The [match ev.stream] statement.  [Stream] has four members, so the
    wildcard case ([unknown_stream]) has no counterpart. *)
Definition stream_rules (s : t) (ev : Event) (status : SanitizationState)
    (reasons : list string) : t * branch :=
  match stream ev with
  | TRADES =>
      if missing3 (data ev) "price" "amount" "side"
      then (s, Quarantined "trade_missing_fields")
      else (s, Continue status (data ev) reasons)
  | LIQUIDATIONS =>
      if missing3 (data ev) "price" "amount" "side"
      then (s, Quarantined "liq_missing_fields")
      else (s, Continue status (data ev) reasons)
  | ORDERBOOK =>
      if bool_decide (is_Some (data ev !! "is_snapshot"))
         && is_none (dict_get (data ev) "is_snapshot")
      then (s, Quarantined "orderbook_invalid_is_snapshot")
      else if missing3 (data ev) "side" "price" "amount"
      then (s, Quarantined "orderbook_missing_fields")
      else (s, Continue status (data ev) reasons)
  | TICKER =>
      let merged := data ev in
      let complete_in_payload :=
        forallb (λ k, negb (is_none (dict_get merged k))) required in
      let s' := update_cache s merged in
      let '(merged, used_cache) := fill_all s' merged in
      let missing := filter (λ k, is_none (dict_get merged k) = true) required in
      if negb (bool_decide (missing = []))
      then (s', Quarantined ("ticker_missing_fields:" +:+ join "," missing))
      else if complete_in_payload && negb used_cache
      then (s', Continue status (data ev) reasons)
      else (s', Continue REPAIR merged (reasons ++ ["repair_ticker_merge_cache"]))
  end.

(** The statements after the exchange test: the symbol test, the stream
    rules and the construction of the result. *)
Definition sanitize_from_symbol (s : t) (ev : Event) (exchange : option string)
    (status : SanitizationState) (reasons : list string)
  : t * (SanitizationState * Event * string) :=
  let after_symbol : option (option string * SanitizationState * list string) :=
    match symbol ev with
    | None =>
        if negb (bool_decide (_symbol s = ""))
        then Some (Some (_symbol s), REPAIR, reasons ++ ["repair_symbol_default"])
        else Some (None, status, reasons)
    | Some sym =>
        if negb (bool_decide (sym = _symbol s)) then None
        else Some (Some sym, status, reasons)
    end in
  match after_symbol with
  | None => (s, (QUARANTINE, ev, "missing_symbol"))
  | Some (symbol, status, reasons) =>
      match stream_rules s ev status reasons with
      | (s', Quarantined why) => (s', (QUARANTINE, ev, why))
      | (s', Continue status data reasons) =>
          let reason := join "|" reasons in
          if bool_decide (status = REPAIR)
          then (s', (status,
                     mkEvent (stream ev) exchange symbol (event_ts ev) (ingest_ts ev)
                             (event_id ev) data,
                     reason))
          else (s', (status, ev, reason))
      end
  end.

(** [sanitize].  The name [reason] is assigned on the line that joins the
    reasons, so it is a local of the body; the branch for a null exchange
    reads it ([reason.append]) long before that line. *)
Definition sanitize (s : t) (ev : Event) : result (t * (SanitizationState * Event * string)) :=
  let reason : option string := None in
  match exchange ev with
  | None =>
      _ ← load_local "reason" reason;
      Return (sanitize_from_symbol s ev (Some (_exchange s)) REPAIR [])
  | Some exch =>
      if negb (bool_decide (exch = _exchange s))
      then Return (s, (QUARANTINE, ev, "missing_exchange"))
      else Return (sanitize_from_symbol s ev (Some exch) ACCEPT [])
  end.

End Sanitizer.

(** ** Numbers in reason strings *)

(** A number read from the configuration: its value, and the text that
    [str()] gives for it inside an f-string. *)
Record num := mkNum {
  num_val : Qc;
  num_str : string;
}.

(** [abs(x)]. *)
Definition Qc_abs (x : Qc) : Qc := if decide (x < 0)%Qc then (- x)%Qc else x.

(** [x / y] on numbers. *)
Definition py_div (x y : Qc) : result Qc :=
  if bool_decide (y = Qc_of_Z 0) then Raise ZeroDivisionError else Return (x / y)%Qc.

(** Rounding to the nearest integer, ties to the even one. *)
Definition round_half_even (x : Qc) : Z :=
  let f := Qfloor x in
  let r := (x - Qc_of_Z f)%Qc in
  if decide (r < Q2Qc (1 # 2))%Qc then f
  else if decide (Q2Qc (1 # 2) < r)%Qc then f + 1
  else if Z.even f then f else f + 1.

(** [width] decimal digits of [n], zero-padded on the left. *)
Fixpoint digits (width : nat) (n : Z) : string :=
  match width with
  | O => ""
  | S w => digits w (n `div` 10) +:+ pretty (n `mod` 10)
  end.

(** The format specification [.{d}f] applied to a number. *)
Definition format_fixed (d : nat) (x : Qc) : string :=
  let scaled := round_half_even (Qc_abs x * Qc_of_Z (10 ^ Z.of_nat d))%Qc in
  (if decide (x < 0)%Qc then "-" else "")
  +:+ pretty (scaled `div` 10 ^ Z.of_nat d)
  +:+ (match d with O => "" | _ => "." +:+ digits d (scaled `mod` 10 ^ Z.of_nat d) end).

(** ** [core/data_trust.py] *)

Record DataTrustCfg := mkDataTrustCfg {
  cfg_window_events : Z;
  cfg_quarantine_untrusted_rate : num;
  cfg_late_degraded_rate : num;
  cfg_late_untrusted_rate : num;
  cfg_forced_flush_degraded_rate : num;
  cfg_forced_flush_untrusted_rate : num;
  cfg_buffer_len_degraded : num;
  cfg_buffer_len_untrusted : num;
  cfg_spread_explode_bps : num;
  cfg_fat_finger_untrusted_bps : num;
  cfg_fat_finger_degraded_bps : num;
  cfg_trade_jump_degraded_bps : num;
}.

Module DataTrustPolicy.

(** The dictionaries keyed by [Stream] that [__init__] fills for every
    member are total functions; the two that start empty and are never
    written ([_last_event_id], [_last_event_ts]) are partial. *)
Record t := mk {
  cfg : DataTrustCfg;
  _last_event_id : Stream → option pyval;
  _last_event_ts : Stream → option (option Z);
  _align_window : Stream → list (Z * Z * Z * Z);
  _san_quarantine_window : Stream → list Z;
  _align_emitted_sum : Stream → Z;
  _align_late_sum : Stream → Z;
  _align_forced_sum : Stream → Z;
  _last_buffer_len : Stream → Z;
  _san_quarantine_sum : Stream → Z;
  _last_trade_price : pyval;
  _state_by_stream : Stream → DataTrustState;
  _reason_by_stream : Stream → string;
}.

Definition new (cfg : DataTrustCfg) : t :=
  mk cfg (λ _, None) (λ _, None) (λ _, []) (λ _, []) (λ _, 0) (λ _, 0) (λ _, 0) (λ _, 0)
     (λ _, 0) VNone (λ _, TRUSTED) (λ _, "").

(** [_trim_align]: [popleft] on an empty deque raises [IndexError]. *)
Fixpoint _trim_align (window_events : Z) (w : list (Z * Z * Z * Z)) (sums : Z * Z * Z)
  : result (list (Z * Z * Z * Z) * (Z * Z * Z)) :=
  if window_events <? Z.of_nat (length w) then
    match w with
    | [] => Raise IndexError
    | (emitted, late, forced, _) :: w' =>
        let '(es, ls, fs) := sums in
        _trim_align window_events w' (es - emitted, ls - late, fs - forced)
    end
  else Return (w, sums).

Fixpoint _trim_san (window_events : Z) (w : list Z) (sum : Z) : result (list Z * Z) :=
  if window_events <? Z.of_nat (length w) then
    match w with
    | [] => Raise IndexError
    | is_q :: w' => _trim_san window_events w' (sum - is_q)
    end
  else Return (w, sum).

Definition on_batch (p : t) (stream : Stream) (stats : TimeAlignmentStats) : result t :=
  let emitted := emitted stats in
  let late := late stats in
  let forced : Z := if forced_flush stats then 1 else 0 in
  let buffer_len := buffer_len stats in
  '(w, (es, ls, fs)) ←
    _trim_align (cfg_window_events (cfg p))
      (_align_window p stream ++ [(emitted, late, forced, buffer_len)])
      (_align_emitted_sum p stream + emitted,
       _align_late_sum p stream + late,
       _align_forced_sum p stream + forced);
  Return (mk (cfg p) (_last_event_id p) (_last_event_ts p)
             (<[stream := w]> (_align_window p)) (_san_quarantine_window p)
             (<[stream := es]> (_align_emitted_sum p))
             (<[stream := ls]> (_align_late_sum p))
             (<[stream := fs]> (_align_forced_sum p))
             (<[stream := buffer_len]> (_last_buffer_len p))
             (_san_quarantine_sum p) (_last_trade_price p)
             (_state_by_stream p) (_reason_by_stream p)).

(** [if c: reasons.append(text)]. *)
Definition append_if (c : bool) (text : string) (reasons : list string) : list string :=
  if c then reasons ++ [text] else reasons.

(** The tests of [_eval_stream] that depend on the windows only; the pair
    is [(untrusted_reasons, degraded_reasons)]. *)
Definition eval_windows (p : t) (stream : Stream) (sanitization : SanitizationState)
  : list string * list string :=
  let c := cfg p in
  let untrusted_reasons : list string := [] in
  let degraded_reasons : list string := [] in
  let last_ts := mjoin (_last_event_ts p stream) in
  let last_id := _last_event_id p stream in
  let degraded_reasons :=
    match last_ts with
    | Some l =>
        if bool_decide (is_Some (_last_event_ts p stream))
        then let cur_ts := l in append_if (cur_ts <? l) "out_of_order_ts" degraded_reasons
        else degraded_reasons
    | None => degraded_reasons
    end in
  let degraded_reasons :=
    match _last_event_id p stream with
    | Some _ =>
        append_if (negb (is_none (default VNone last_id))
                   && bool_decide (last_id = _last_event_id p stream))
          "duplicate_event" degraded_reasons
    | None => degraded_reasons
    end in
  let san_total := Z.of_nat (length (_san_quarantine_window p stream)) in
  let q_rate :=
    if san_total =? 0 then Qc_of_Z 0
    else (Qc_of_Z (_san_quarantine_sum p stream) / Qc_of_Z san_total)%Qc in
  let emitted := Z.max 1 (_align_emitted_sum p stream) in
  let late_rate := (Qc_of_Z (_align_late_sum p stream) / Qc_of_Z emitted)%Qc in
  let forced_rate := (Qc_of_Z (_align_forced_sum p stream) / Qc_of_Z emitted)%Qc in
  let buf := _last_buffer_len p stream in
  let ge (x : Qc) (n : num) : bool := bool_decide (num_val n ≤ x)%Qc in
  let untrusted_reasons :=
    append_if (ge q_rate (cfg_quarantine_untrusted_rate c))
      ("q_rate=" +:+ format_fixed 4 q_rate +:+ ">="
       +:+ num_str (cfg_quarantine_untrusted_rate c)) untrusted_reasons in
  let untrusted_reasons :=
    append_if (ge late_rate (cfg_late_untrusted_rate c))
      ("late_rate=" +:+ format_fixed 4 late_rate +:+ ">="
       +:+ num_str (cfg_late_untrusted_rate c)) untrusted_reasons in
  let untrusted_reasons :=
    append_if (ge forced_rate (cfg_forced_flush_untrusted_rate c))
      ("forced_rate=" +:+ format_fixed 4 forced_rate +:+ ">="
       +:+ num_str (cfg_forced_flush_untrusted_rate c)) untrusted_reasons in
  let untrusted_reasons :=
    append_if (ge (Qc_of_Z buf) (cfg_buffer_len_untrusted c))
      ("buffer_len=" +:+ pretty buf +:+ ">="
       +:+ num_str (cfg_buffer_len_untrusted c)) untrusted_reasons in
  let degraded_reasons :=
    append_if (bool_decide (sanitization = QUARANTINE)) "quarantine" degraded_reasons in
  let degraded_reasons :=
    append_if (ge late_rate (cfg_late_degraded_rate c))
      ("late_rate=" +:+ format_fixed 4 late_rate +:+ ">="
       +:+ num_str (cfg_late_degraded_rate c)) degraded_reasons in
  let degraded_reasons :=
    append_if (ge forced_rate (cfg_forced_flush_degraded_rate c))
      ("forced_rate=" +:+ format_fixed 4 forced_rate +:+ ">="
       +:+ num_str (cfg_forced_flush_degraded_rate c)) degraded_reasons in
  let degraded_reasons :=
    append_if (ge (Qc_of_Z buf) (cfg_buffer_len_degraded c))
      ("buffer_len=" +:+ pretty buf +:+ ">="
       +:+ num_str (cfg_buffer_len_degraded c)) degraded_reasons in
  (untrusted_reasons, degraded_reasons).

(** The block [if stream == Stream.ORDERBOOK]. *)
Definition eval_orderbook (p : t) (top : BookTop) (reasons : list string * list string)
  : list string * list string :=
  let '(untrusted_reasons, degraded_reasons) := reasons in
  match best_bid top, best_ask top with
  | Some bid, Some ask =>
      let untrusted_reasons :=
        append_if (bool_decide (ask ≤ bid)%Qc) "crossed_market" untrusted_reasons in
      let mid := ((bid + ask) / Qc_of_Z 2)%Qc in
      if decide (Qc_of_Z 0 < mid)%Qc then
        let spread_bps := ((ask - bid) / mid * Qc_of_Z 10000)%Qc in
        (untrusted_reasons,
         append_if (bool_decide (num_val (cfg_spread_explode_bps (cfg p)) < spread_bps)%Qc)
           ("spread_explode_bps=" +:+ format_fixed 1 spread_bps) degraded_reasons)
      else (untrusted_reasons, degraded_reasons)
  | _, _ => (untrusted_reasons, degraded_reasons)
  end.

(** The block [if stream == Stream.TRADES]; it also returns the new
    [_last_trade_price]. *)
Definition eval_trades (p : t) (top : BookTop) (ev : Event)
    (reasons : list string * list string)
  : result (pyval * (list string * list string)) :=
  let c := cfg p in
  let '(untrusted_reasons, degraded_reasons) := reasons in
  let price := dict_get (data ev) "price" in
  if is_none price then Return (_last_trade_price p, reasons)
  else
    '(untrusted_reasons, degraded_reasons) ←
      match best_bid top, best_ask top with
      | Some bid, Some ask =>
          px ← as_num price;
          let mid := default (Qc_of_Z 0) (mid top) in
          ratio ← py_div (Qc_abs (px - mid)) mid;
          let diff_bps := (ratio * Qc_of_Z 10000)%Qc in
          if bool_decide (num_val (cfg_fat_finger_untrusted_bps c) ≤ diff_bps)%Qc
          then Return (untrusted_reasons ++ ["fat_finger_mid_bps=" +:+ format_fixed 1 diff_bps],
                       degraded_reasons)
          else if bool_decide (num_val (cfg_fat_finger_degraded_bps c) ≤ diff_bps)%Qc
          then Return (untrusted_reasons,
                       degraded_reasons ++ ["fat_finger_mid_bps=" +:+ format_fixed 1 diff_bps])
          else Return (untrusted_reasons, degraded_reasons)
      | _, _ => Return (untrusted_reasons, degraded_reasons)
      end;
    degraded_reasons ←
      (if is_none (_last_trade_price p) then Return degraded_reasons
       else
         last ← as_num (_last_trade_price p);
         if decide (Qc_of_Z 0 < last)%Qc then
           px ← as_num price;
           ratio ← py_div (Qc_abs (px - last)) last;
           let jump_bps := (ratio * Qc_of_Z 10000)%Qc in
           Return (append_if
                     (bool_decide (num_val (cfg_trade_jump_degraded_bps c) ≤ jump_bps)%Qc)
                     ("trade_jump_bps=" +:+ format_fixed 1 jump_bps) degraded_reasons)
         else Return degraded_reasons);
    Return (price, (untrusted_reasons, degraded_reasons)).

(** [_eval_stream].  The policy holds a reference to the engine's replayer;
    the replayer as it is at the time of the call is an argument here. *)
Definition _eval_stream (p : t) (lob : OrderBookReplayer.t) (stream : Stream)
    (sanitization : SanitizationState) (ev : Event)
  : result (pyval * (DataTrustState * string)) :=
  let reasons := eval_windows p stream sanitization in
  let reasons :=
    if bool_decide (stream = ORDERBOOK)
    then eval_orderbook p (OrderBookReplayer.snapshot lob) reasons
    else reasons in
  '(last_trade_price, (untrusted_reasons, degraded_reasons)) ←
    (if bool_decide (stream = TRADES)
     then eval_trades p (OrderBookReplayer.snapshot lob) ev reasons
     else Return (_last_trade_price p, reasons));
  if negb (bool_decide (untrusted_reasons = []))
  then Return (last_trade_price, (UNTRUSTED, join " | " untrusted_reasons))
  else if negb (bool_decide (degraded_reasons = []))
  then Return (last_trade_price, (DEGRADED, join " | " degraded_reasons))
  else Return (last_trade_price, (TRUSTED, "")).

(** The generator [f"{s.value}:{r}" for s, r in xs if r]. *)
Definition labelled (xs : list (Stream * string)) : list string :=
  (λ sr : Stream * string, stream_value sr.1 +:+ ":" +:+ sr.2)
    <$> filter (λ sr : Stream * string, sr.2 ≠ "") xs.

Definition _reduce_global (p : t) : DataTrustState * string :=
  let items := (λ s, (s, _reason_by_stream p s)) <$> all_streams in
  let untrusted :=
    filter (λ sr : Stream * string, _state_by_stream p sr.1 = UNTRUSTED) items in
  let degraded :=
    filter (λ sr : Stream * string, _state_by_stream p sr.1 = DEGRADED) items in
  if negb (bool_decide (untrusted = [])) then
    let reason := join ", " (labelled untrusted) in
    (UNTRUSTED, if bool_decide (reason = "") then "untrusted" else reason)
  else if negb (bool_decide (degraded = [])) then
    let reason := join ", " (labelled degraded) in
    (DEGRADED, if bool_decide (reason = "") then "degraded" else reason)
  else (TRUSTED, "").

Definition on_event (p : t) (lob : OrderBookReplayer.t) (stream : Stream)
    (sanitization : SanitizationState) (ev : Event)
  : result (t * (DataTrustState * string)) :=
  let is_q : Z := if bool_decide (sanitization = QUARANTINE) then 1 else 0 in
  '(w, qsum) ←
    _trim_san (cfg_window_events (cfg p))
      (_san_quarantine_window p stream ++ [is_q]) (_san_quarantine_sum p stream + is_q);
  let p1 :=
    mk (cfg p) (_last_event_id p) (_last_event_ts p) (_align_window p)
       (<[stream := w]> (_san_quarantine_window p))
       (_align_emitted_sum p) (_align_late_sum p) (_align_forced_sum p)
       (_last_buffer_len p) (<[stream := qsum]> (_san_quarantine_sum p))
       (_last_trade_price p) (_state_by_stream p) (_reason_by_stream p) in
  '(last_trade_price, (st, reason)) ← _eval_stream p1 lob stream sanitization ev;
  let p2 :=
    mk (cfg p1) (_last_event_id p1) (_last_event_ts p1) (_align_window p1)
       (_san_quarantine_window p1)
       (_align_emitted_sum p1) (_align_late_sum p1) (_align_forced_sum p1)
       (_last_buffer_len p1) (_san_quarantine_sum p1)
       last_trade_price
       (<[stream := st]> (_state_by_stream p1)) (<[stream := reason]> (_reason_by_stream p1)) in
  Return (p2, _reduce_global p2).

End DataTrustPolicy.

(** ** [core/hypothesis.py] *)

Record HypothesisCfg := mkHypothesisCfg {
  cfg_weak_price_diverge_bps : Qc;
  cfg_invalid_price_diverge_bps : Qc;
  cfg_stable_min_duration_ms : Z;
}.

Record _ConsensusResult := mkConsensusResult {
  ok : bool;
  worst_bps : option Qc;
  worst_pair : option string;
  sources : Z;
}.

Module HypothesisPolicy.

Record t := mk {
  weak_price_diverge_bps : Qc;
  invalid_price_diverge_bps : Qc;
  stable_min_duration_us : Z;
  _stable_since_us : option Z;
  state : HypothesisState;
  last_mark : pyval;
  last_index : pyval;
  last_last : pyval;
}.

Definition new (cfg : HypothesisCfg) : t :=
  mk (cfg_weak_price_diverge_bps cfg) (cfg_invalid_price_diverge_bps cfg)
     (cfg_stable_min_duration_ms cfg * 1000) None INVALID VNone VNone VNone.

(** [if v is not None: prices[key] = v], on a dictionary whose keys are
    written at most once each, kept in insertion order. *)
Definition put_if_set (key : string) (v : pyval) (prices : list (string * pyval))
  : list (string * pyval) :=
  if is_none v then prices else prices ++ [(key, v)].

(** [_collect_prices]; [p] is the policy after the TICKER updates and
    [top] is the replayer's [snapshot()] at the time of the call. *)
Definition _collect_prices (p : t) (top : BookTop) (ev : Event)
  : result (list (string * pyval)) :=
  let prices : list (string * pyval) := [] in
  let prices :=
    match best_bid top, best_ask top with
    | Some _, Some _ => prices ++ [("lob_mid", from_option VNum VNone (mid top))]
    | _, _ => prices
    end in
  let prices := put_if_set "mark" (last_mark p) prices in
  let prices := put_if_set "index" (last_index p) prices in
  let prices := put_if_set "last" (last_last p) prices in
  if bool_decide (stream ev = TRADES) || bool_decide (stream ev = LIQUIDATIONS) then
    price ← getitem (data ev) "price";
    Return (put_if_set (stream_value (stream ev)) price prices)
  else Return prices.

(** [isinstance(v, (int, float)) and v > 0], with the number. *)
Definition positive_number (v : pyval) : option Qc :=
  match as_num v with
  | Return q => if decide (Qc_of_Z 0 < q)%Qc then Some q else None
  | Raise _ => None
  end.

(** The admitted witnesses, in dictionary order. *)
Definition admitted (prices : list (string * pyval)) : list (string * Qc) :=
  omap (λ kv : string * pyval, q ← positive_number kv.2; Some (kv.1, q)) prices.

(** One iteration of the inner loop body of [_consensus]. *)
Definition score (i j : string * Qc) (acc : Qc * option string) : Qc * option string :=
  let bps := (Qc_abs (i.2 - j.2) / Qc_abs j.2 * Qc_of_Z 10000)%Qc in
  if decide (acc.1 < bps)%Qc then (bps, Some (i.1 +:+ "~" +:+ j.1)) else acc.

(** The two nested [for] loops over [i < j]. *)
Fixpoint pairs_loop (keys : list (string * Qc)) (acc : Qc * option string)
  : Qc * option string :=
  match keys with
  | [] => acc
  | i :: rest => pairs_loop rest (foldl (λ a j, score i j a) acc rest)
  end.

Definition _consensus (prices : list (string * pyval)) : _ConsensusResult :=
  let keys := admitted prices in
  let n := Z.of_nat (length keys) in
  if n <? Z.of_nat (length all_streams) then mkConsensusResult false None None n
  else
    let '(worst, worst_pair) := pairs_loop keys ((- Qc_of_Z 1)%Qc, None) in
    mkConsensusResult true (Some worst) worst_pair n.

(** The first [match] of [verify]: the TICKER updates and the prefix. *)
Definition on_stream (p : t) (ev : Event) : result (t * string) :=
  match stream ev with
  | TICKER =>
      mark_price ← getitem (data ev) "mark_price";
      index_price ← getitem (data ev) "index_price";
      last_price ← getitem (data ev) "last_price";
      Return (mk (weak_price_diverge_bps p) (invalid_price_diverge_bps p)
                 (stable_min_duration_us p) (_stable_since_us p) (state p)
                 (if is_none mark_price then last_mark p else mark_price)
                 (if is_none index_price then last_index p else index_price)
                 (if is_none last_price then last_last p else last_price),
              "tickers")
  | ORDERBOOK => Return (p, "orderbook")
  | LIQUIDATIONS => Return (p, "liquidations")
  | TRADES => Return (p, "trade")
  end.

Definition set_state (p : t) (since : option Z) (st : HypothesisState) : t :=
  mk (weak_price_diverge_bps p) (invalid_price_diverge_bps p) (stable_min_duration_us p)
     since st (last_mark p) (last_index p) (last_last p).

(** [str(x)] of an optional string inside an f-string. *)
Definition str_opt (x : option string) : string := default "None" x.

(** The state machine of [verify], after the consensus. *)
Definition decide_state (p : t) (trigger_prefix : string) (consensus : _ConsensusResult)
    (now_us : Z) : t * (HypothesisState * string) :=
  if negb (ok consensus)
  then (p, (state p,
            trigger_prefix +:+ ":no_change:insufficient_sources=" +:+ pretty (sources consensus)))
  else
    let worst := default (Qc_of_Z 0) (worst_bps consensus) in
    let described :=
      trigger_prefix +:+ ":worst_bps=" +:+ format_fixed 1 worst
      +:+ " pair=" +:+ str_opt (worst_pair consensus)
      +:+ " sources=" +:+ pretty (sources consensus) in
    if bool_decide (invalid_price_diverge_bps p ≤ worst)%Qc
    then (set_state p None INVALID, (INVALID, described))
    else if bool_decide (weak_price_diverge_bps p ≤ worst)%Qc
    then (set_state p None WEAKENING, (WEAKENING, described))
    else
      let since := default now_us (_stable_since_us p) in
      let stable_duration := now_us - since in
      if stable_duration <? stable_min_duration_us p
      then (set_state p (Some since) (state p),
            (state p,
             trigger_prefix +:+ ":stabilizing elapsed_us=" +:+ pretty stable_duration
             +:+ " required_us=" +:+ pretty (stable_min_duration_us p)))
      else (set_state p (Some since) VALID,
            (VALID, trigger_prefix +:+ ":stable_us=" +:+ pretty stable_duration)).

(** [verify].  As for the trust policy, the replayer the policy refers to
    is passed in as it is at the time of the call. *)
Definition verify (p : t) (lob : OrderBookReplayer.t) (ev : Event) (now_us : Z)
  : result (t * (HypothesisState * string)) :=
  '(p1, trigger_prefix) ← on_stream p ev;
  prices ← _collect_prices p1 (OrderBookReplayer.snapshot lob) ev;
  Return (decide_state p1 trigger_prefix (_consensus prices) now_us).

End HypothesisPolicy.

(** ** [core/engine.py] *)

Record EngineCfg := mkEngineCfg {
  cfg_trades_stall_threshold_ms : Z;
  cfg_orderbook_stall_threshold_ms : Z;
  cfg_liquidations_stall_threshold_ms : Z;
  cfg_ticker_stall_threshold_ms : Z;
  cfg_depth_snapshot_limit : Z;
  cfg_time_alignment : TimeAlignerCfg;
  cfg_exchange : string;
  cfg_symbol : string;
  cfg_data_trust : DataTrustCfg;
  cfg_hypothesis : HypothesisCfg;
}.

(** The records handed to the writer. *)
Record StateTransitionRecord := mkStateTransitionRecord {
  st_ts : Z;
  st_data_trust : string;
  st_hypothesis : string;
  st_decision : string;
  st_trigger : string;
}.

Record DecisionRecord := mkDecisionRecord {
  dr_ts : Z;
  dr_action : string;
  dr_reason : option string;
  dr_duration_ms : Z;
}.

(** What the writer has been given so far, oldest first. *)
Record Writer := mkWriter {
  state_transitions : list StateTransitionRecord;
  decisions : list DecisionRecord;
  written_summary : option Summary.t;
}.

Module SingleDecisionEngine.

(** The engine and everything it owns.  [decision_last_ts] and
    [decision_last_reason] are the two attributes of its [DecisionMachine]. *)
Record t := mk {
  writer : Writer;
  state : EngineState;
  last_ingest_ts_by_stream : Stream → option Z;
  trades_stall_threshold_us : Z;
  orderbook_stall_threshold_us : Z;
  liquidations_stall_threshold_us : Z;
  ticker_stall_threshold_us : Z;
  lob_replayer : OrderBookReplayer.t;
  aligner : TimeAligner.t;
  sanitizer : Sanitizer.t;
  data_trust : DataTrustPolicy.t;
  hypothesis : HypothesisPolicy.t;
  decision_last_ts : option Z;
  decision_last_reason : option string;
  stats : EngineStats.t;
}.

Definition with_state (e : t) (st : EngineState) (stats : EngineStats.t) : t :=
  mk (writer e) st (last_ingest_ts_by_stream e)
     (trades_stall_threshold_us e) (orderbook_stall_threshold_us e)
     (liquidations_stall_threshold_us e) (ticker_stall_threshold_us e)
     (lob_replayer e) (aligner e) (sanitizer e) (data_trust e) (hypothesis e)
     (decision_last_ts e) (decision_last_reason e) stats.

Definition with_writer (e : t) (w : Writer) : t :=
  mk w (state e) (last_ingest_ts_by_stream e)
     (trades_stall_threshold_us e) (orderbook_stall_threshold_us e)
     (liquidations_stall_threshold_us e) (ticker_stall_threshold_us e)
     (lob_replayer e) (aligner e) (sanitizer e) (data_trust e) (hypothesis e)
     (decision_last_ts e) (decision_last_reason e) (stats e).

Definition _emit_state_transition (e : t) (now_ts : Z) (trigger : string) : t :=
  let rec :=
    mkStateTransitionRecord now_ts
      (trust_value (es_data_trust (state e)))
      (hypo_value (es_hypothesis (state e)))
      (decision_value (es_decision (state e)))
      trigger in
  with_writer e
    (mkWriter (state_transitions (writer e) ++ [rec]) (decisions (writer e))
              (written_summary (writer e))).

Definition _emit_decision (e : t) (now_ts : Z) (prev_decision_ts : option Z)
    (prev_decision : DecisionState) (prev_reason : option string) : t :=
  let duration_ms :=
    match prev_decision_ts with
    | Some ts => (now_ts - ts) `div` 1000
    | None => 0
    end in
  let rec := mkDecisionRecord now_ts (decision_value prev_decision) prev_reason duration_ms in
  with_writer e
    (mkWriter (state_transitions (writer e)) (decisions (writer e) ++ [rec])
              (written_summary (writer e))).

(** [__init__]; the two readings of the clock are arguments. *)
Definition new (cfg : EngineCfg) (now0 now1 : Z) : t :=
  let st := EngineState_init in
  let e :=
    mk (mkWriter [] [] None) st (λ _, None)
       (cfg_trades_stall_threshold_ms cfg * 1000)
       (cfg_orderbook_stall_threshold_ms cfg * 1000)
       (cfg_liquidations_stall_threshold_ms cfg * 1000)
       (cfg_ticker_stall_threshold_ms cfg * 1000)
       (OrderBookReplayer.new (cfg_depth_snapshot_limit cfg))
       (TimeAligner.new (cfg_time_alignment cfg))
       (Sanitizer.new (cfg_exchange cfg) (cfg_symbol cfg))
       (DataTrustPolicy.new (cfg_data_trust cfg))
       (HypothesisPolicy.new (cfg_hypothesis cfg))
       None None
       (EngineStats.init_dwell EngineStats.new now0
          (es_sanitization st) (es_data_trust st) (es_hypothesis st) (es_decision st)) in
  _emit_state_transition e now1 "engine_init".

Definition _set_sanitization (e : t) (st : SanitizationState) (now_ts : Z) : t :=
  if bool_decide (st = es_sanitization (state e)) then e
  else with_state e
         (mkEngineState st (es_data_trust (state e)) (es_hypothesis (state e))
                        (es_decision (state e)))
         (EngineStats.switch_san (stats e) now_ts st).

Definition _set_data_trust (e : t) (st : DataTrustState) (now_ts : Z) : t :=
  if bool_decide (st = es_data_trust (state e)) then e
  else with_state e
         (mkEngineState (es_sanitization (state e)) st (es_hypothesis (state e))
                        (es_decision (state e)))
         (EngineStats.switch_trust (stats e) now_ts st).

Definition _set_hypothesis (e : t) (st : HypothesisState) (now_ts : Z) : t :=
  if bool_decide (st = es_hypothesis (state e)) then e
  else with_state e
         (mkEngineState (es_sanitization (state e)) (es_data_trust (state e)) st
                        (es_decision (state e)))
         (EngineStats.switch_hypo (stats e) now_ts st).

Definition _set_decision (e : t) (now_ts : Z) (trigger : string) : t * DecisionState :=
  let prev_decision := es_decision (state e) in
  let prev_decision_ts := decision_last_ts e in
  let prev_reason := decision_last_reason e in
  let decision :=
    DecisionMachine.compute (es_data_trust (state e)) (es_hypothesis (state e)) in
  let e1 :=
    if negb (bool_decide (decision = prev_decision))
       || negb (bool_decide (Some trigger = prev_reason))
    then
      let e' :=
        mk (writer e)
           (mkEngineState (es_sanitization (state e)) (es_data_trust (state e))
                          (es_hypothesis (state e)) decision)
           (last_ingest_ts_by_stream e)
           (trades_stall_threshold_us e) (orderbook_stall_threshold_us e)
           (liquidations_stall_threshold_us e) (ticker_stall_threshold_us e)
           (lob_replayer e) (aligner e) (sanitizer e) (data_trust e) (hypothesis e)
           (Some now_ts) (Some trigger)
           (EngineStats.switch_decision (stats e) now_ts decision) in
      _emit_decision e' now_ts prev_decision_ts prev_decision prev_reason
    else e in
  (_emit_state_transition e1 now_ts trigger, decision).

(** The trigger text of [ingest]: the non-empty parts, joined. *)
Definition compose_trigger (hypothesis_trigger data_trust_trigger sanitization_trigger : string)
  : string :=
  let part (label text : string) : string :=
    if bool_decide (text = "") then "" else label +:+ text in
  join " | "
    (filter (λ p : string, p ≠ "")
       [part "hypothesis:" hypothesis_trigger;
        part "data_trust:" data_trust_trigger;
        part "sanitization:" sanitization_trigger]).

(** The body of the [for aligned_ev in aligned_evs] loop of [ingest]. *)
Definition process (e : t) (now_ts : Z) (aligned_ev : Event) : result t :=
  '(san, (sanitization, fixed_ev, sanitization_trigger)) ←
    Sanitizer.sanitize (sanitizer e) aligned_ev;
  let e := _set_sanitization e sanitization now_ts in
  lob ←
    (if bool_decide (stream aligned_ev = ORDERBOOK)
        && negb (bool_decide (sanitization = QUARANTINE))
     then OrderBookReplayer.on_event (lob_replayer e) aligned_ev now_ts
     else Return (lob_replayer e));
  '(dt, (data_trust, data_trust_trigger)) ←
    DataTrustPolicy.on_event (data_trust e) lob (stream fixed_ev) sanitization aligned_ev;
  let e := _set_data_trust e data_trust now_ts in
  '(hp, (hypothesis, hypothesis_trigger)) ←
    HypothesisPolicy.verify (hypothesis e) lob fixed_ev now_ts;
  let e := _set_hypothesis e hypothesis now_ts in
  let e :=
    mk (writer e) (state e) (last_ingest_ts_by_stream e)
       (trades_stall_threshold_us e) (orderbook_stall_threshold_us e)
       (liquidations_stall_threshold_us e) (ticker_stall_threshold_us e)
       lob (aligner e) san dt hp
       (decision_last_ts e) (decision_last_reason e) (stats e) in
  let trigger := compose_trigger hypothesis_trigger data_trust_trigger sanitization_trigger in
  let '(e, decision) := _set_decision e now_ts trigger in
  Return (with_state e (state e)
            (EngineStats.on_event (stats e) sanitization data_trust hypothesis decision)).

Fixpoint process_all (e : t) (now_ts : Z) (aligned_evs : list Event) : result t :=
  match aligned_evs with
  | [] => Return e
  | aligned_ev :: rest => e' ← process e now_ts aligned_ev; process_all e' now_ts rest
  end.

(** [ingest]; the reading of the clock is an argument.  An exception
    leaves the call, and what the objects look like afterwards is not
    recorded. *)
Definition ingest (e : t) (now_ts : Z) (ev : Event) : result t :=
  let '(al, (aligned_evs, align_stats)) := TimeAligner.align (aligner e) ev in
  dt ← DataTrustPolicy.on_batch (data_trust e) (stream ev) align_stats;
  let e :=
    mk (writer e) (state e) (<[stream ev := Some now_ts]> (last_ingest_ts_by_stream e))
       (trades_stall_threshold_us e) (orderbook_stall_threshold_us e)
       (liquidations_stall_threshold_us e) (ticker_stall_threshold_us e)
       (lob_replayer e) al (sanitizer e) dt (hypothesis e)
       (decision_last_ts e) (decision_last_reason e) (stats e) in
  process_all e now_ts aligned_evs.

(** A sequence of [ingest] calls, each with its reading of the clock. *)
Fixpoint ingest_all (e : t) (calls : list (Z * Event)) : result t :=
  match calls with
  | [] => Return e
  | (now_ts, ev) :: rest => e' ← ingest e now_ts ev; ingest_all e' rest
  end.

Definition stall_threshold_us (e : t) (s : Stream) : Z :=
  match s with
  | TRADES => trades_stall_threshold_us e
  | ORDERBOOK => orderbook_stall_threshold_us e
  | LIQUIDATIONS => liquidations_stall_threshold_us e
  | TICKER => ticker_stall_threshold_us e
  end.

Definition tick (e : t) (now_ts : Z) : t :=
  let stalled_streams :=
    filter (λ s, match last_ingest_ts_by_stream e s with
                 | Some ingest_ts => stall_threshold_us e s <? now_ts - ingest_ts
                 | None => false
                 end = true) all_streams in
  if bool_decide (stalled_streams = []) then e
  else
    let sanitization := es_sanitization (state e) in
    let e := _set_data_trust e DEGRADED now_ts in
    let e := _set_hypothesis e WEAKENING now_ts in
    let trigger := "stall:" +:+ join "," (stream_value <$> stalled_streams) in
    let '(e, decision) := _set_decision e now_ts trigger in
    with_state e (state e)
      (EngineStats.on_event (stats e) sanitization DEGRADED WEAKENING decision).

Definition shutdown (e : t) (now_ts : Z) : t :=
  let e := _emit_decision e now_ts (decision_last_ts e) (es_decision (state e))
             (decision_last_reason e) in
  let '(stats, summary) := EngineStats.finalize (stats e) now_ts in
  let e := with_state e (state e) stats in
  with_writer e
    (mkWriter (state_transitions (writer e)) (decisions (writer e)) (Some summary)).

End SingleDecisionEngine.

(** ** Runs of calls, and the properties stated about them *)

(** [needle in haystack] on strings. *)
Definition contains (needle haystack : string) : Prop :=
  ∃ before after, haystack = before +:+ needle +:+ after.

(** Non-decreasing, pairwise: whatever comes later is not smaller. *)
Definition nondecreasing (l : list Z) : Prop := StronglySorted Z.le l.

Module AlignerRun.

(** C3 in these terms: the timestamps of what a run of [align] calls on a
    fresh aligner hands on are non-decreasing. *)
Definition emits_in_order (cfg : TimeAlignerCfg) (evs : list Event) : Prop :=
  nondecreasing (TimeAligner.emitted_ts (TimeAligner.run (TimeAligner.new cfg) evs).2).

(** No call of the run flagged its event as late. *)
Definition no_late (rs : list (list Event * TimeAlignmentStats)) : Prop :=
  Forall (λ r : list Event * TimeAlignmentStats, late r.2 = 0) rs.

(** The heap as the aligner keeps it: entries in timestamp order, each
    under the timestamp of its event. *)
Definition heap_ok (heap : list TimeAligner.entry) : Prop :=
  StronglySorted (λ x y, TimeAligner.entry_ts x ≤ TimeAligner.entry_ts y) heap
  ∧ Forall (λ x, event_ts (TimeAligner.entry_ev x) = Some (TimeAligner.entry_ts x)) heap.

(** What holds between an aligner and the timestamps [out] it has emitted
    so far, as long as nothing was late: they are in order, below every
    buffered entry, and below the watermark. *)
Definition in_step (a : TimeAligner.t) (out : list Z) : Prop :=
  heap_ok (TimeAligner._heap a)
  ∧ nondecreasing out
  ∧ (∀ x y, x ∈ out → y ∈ TimeAligner._heap a → x ≤ TimeAligner.entry_ts y)
  ∧ (∀ x, x ∈ out →
       ∃ l, TimeAligner._last_event_ts a = Some l
            ∧ x ≤ l - TimeAligner.allowed_lateness_us a).

(** What a run hands on, in emission order, each event with the number of
    the call that emitted it; calls are numbered from [n]. *)
Fixpoint tag_from (n : nat) (rs : list (list Event * TimeAlignmentStats))
  : list (nat * Event) :=
  match rs with
  | [] => []
  | r :: rs' => ((λ e, (n, e)) <$> r.1) ++ tag_from (S n) rs'
  end.
Definition emitted_by_call (rs : list (list Event * TimeAlignmentStats))
  : list (nat * Event) := tag_from 0 rs.

(** Call [j] of the run pushed [ev] and flagged it as late. *)
Definition pushed_late (evs : list Event) (rs : list (list Event * TimeAlignmentStats))
    (j : nat) (ev : Event) : Prop :=
  evs !! j = Some ev ∧ ∃ r, rs !! j = Some r ∧ late r.2 = 1.

(** Only late arrivals are out of order: when [e1] is emitted before [e2]
    and [e2] has the smaller timestamp, [e2] was pushed after the call that
    emitted [e1] (and by the call that emits it at the latest), and that
    call flagged it as late. *)
Definition late_arrivals_only (evs : list Event)
    (rs : list (list Event * TimeAlignmentStats)) : Prop :=
  ∀ (p q k m : nat) e1 e2 t1 t2,
    (p < q)%nat →
    emitted_by_call rs !! p = Some (k, e1) →
    emitted_by_call rs !! q = Some (m, e2) →
    event_ts e1 = Some t1 → event_ts e2 = Some t2 → t2 < t1 →
    ∃ j, (k < j ≤ m)%nat ∧ pushed_late evs rs j e2.

(** An event that its call does not flag as late is not older than
    anything emitted by the calls before. *)
Definition on_time_is_in_order (evs : list Event)
    (rs : list (list Event * TimeAlignmentStats)) : Prop :=
  ∀ (j k : nat) ev t r e1 t1,
    evs !! j = Some ev → event_ts ev = Some t → rs !! j = Some r → late r.2 = 0 →
    (k, e1) ∈ emitted_by_call rs → (k < j)%nat → event_ts e1 = Some t1 →
    t1 ≤ t.

(** What holds between an aligner, the events pushed so far and what the
    calls returned, in every run. *)
Definition history_ok (a : TimeAligner.t) (evs : list Event)
    (rs : list (list Event * TimeAlignmentStats)) : Prop :=
  heap_ok (TimeAligner._heap a)
  ∧ length rs = length evs
  ∧ (∀ k e, (k, e) ∈ emitted_by_call rs → (k < length rs)%nat)
  ∧ (∀ k e t, (k, e) ∈ emitted_by_call rs → event_ts e = Some t →
       ∃ l, TimeAligner._last_event_ts a = Some l
            ∧ t ≤ l - TimeAligner.allowed_lateness_us a)
  ∧ (∀ k e t y, (k, e) ∈ emitted_by_call rs → event_ts e = Some t →
       y ∈ TimeAligner._heap a → TimeAligner.entry_ts y < t →
       ∃ j, (k < j)%nat ∧ pushed_late evs rs j (TimeAligner.entry_ev y))
  ∧ late_arrivals_only evs rs
  ∧ on_time_is_in_order evs rs.

(** An event of the TRADES stream with nothing but a timestamp. *)
Definition at_ts (ts : Z) : Event := mkEvent TRADES None None (Some ts) ts None ∅.

End AlignerRun.

Module BookRun.





(** A short session on a book of depth 2, and one snapshot row with
    amount 0 on a book of depth 1. *)
Definition session : list OrderBook.call :=
  [OrderBook.ApplySnapshot "bid" (Qc_of_Z 100) (Qc_of_Z 1) 1 None;
   OrderBook.ApplySnapshot "bid" (Qc_of_Z 101) (Qc_of_Z 1) 2 None;
   OrderBook.ApplySnapshot "bid" (Qc_of_Z 102) (Q2Qc (1 # 2)) 3 None;
   OrderBook.ApplyDelta "ask" (Qc_of_Z 103) (Qc_of_Z 2) 4 (Some 4);
   OrderBook.ApplyDelta "bid" (Qc_of_Z 101) (Qc_of_Z 0) 5 (Some 5)].


End BookRun.

Module HypothesisRun.

(** One call of [verify]: the replayer as it is then, the event, and the
    reading of the clock. *)
Record call := mkCall {
  call_lob : OrderBookReplayer.t;
  call_ev : Event;
  call_now_us : Z;
}.

(** The policy after the call.  [verify] can only raise [KeyError], from a
    payload lookup that comes before any assignment to the policy, so a call
    that raises leaves the policy as it was. *)
Definition step (p : HypothesisPolicy.t) (c : call) : HypothesisPolicy.t :=
  match HypothesisPolicy.verify p (call_lob c) (call_ev c) (call_now_us c) with
  | Return (p', _) => p'
  | Raise _ => p
  end.

Definition run (p : HypothesisPolicy.t) (cs : list call) : HypothesisPolicy.t :=
  foldl step p cs.

(** The calls of a run, each with the policy it was made on. *)
Fixpoint trace (p : HypothesisPolicy.t) (cs : list call)
  : list (HypothesisPolicy.t * call) :=
  match cs with
  | [] => []
  | c :: cs' => (p, c) :: trace (step p c) cs'
  end.

(** The [worst_bps] that the consensus of a call arrives at, when the call
    gets that far and has enough witnesses. *)
Definition worst_seen (p : HypothesisPolicy.t) (c : call) : option Qc :=
  match HypothesisPolicy.on_stream p (call_ev c) with
  | Return (p1, _) =>
      match HypothesisPolicy._collect_prices p1
              (OrderBookReplayer.snapshot (call_lob c)) (call_ev c) with
      | Return prices =>
          let consensus := HypothesisPolicy._consensus prices in
          if ok consensus then Some (default (Qc_of_Z 0) (worst_bps consensus)) else None
      | Raise _ => None
      end
  | Raise _ => None
  end.

(** A call during which no consensus evaluation reached the weak
    threshold. *)
Definition steady (pc : HypothesisPolicy.t * call) : Prop :=
  match worst_seen pc.1 pc.2 with
  | Some worst => (worst < HypothesisPolicy.weak_price_diverge_bps pc.1)%Qc
  | None => True
  end.

(** A stable window of the run [tr] that ends with its last call: a
    suffix of [tr], beginning with a call at time [since], all of whose
    calls are steady. *)
Definition stable_window (tr : list (HypothesisPolicy.t * call)) (since : Z) : Prop :=
  ∃ earlier first rest,
    tr = earlier ++ first :: rest
    ∧ call_now_us first.2 = since
    ∧ Forall steady (first :: rest).

(** Scenario S5: a book with bid and ask at 100, and tickers whose mark,
    index and last price all equal [price]. *)
Definition flat_book : OrderBookReplayer.t :=
  OrderBookReplayer.mk
    (OrderBook.mk 10 {[Qc_of_Z 100 := Qc_of_Z 1]} {[Qc_of_Z 100 := Qc_of_Z 1]} None None)
    false.

Definition ticker_at (price : Qc) (now_us : Z) : call :=
  mkCall flat_book
    (mkEvent TICKER (Some "binance-futures") (Some "btcusdt") (Some now_us) now_us None
       (list_to_map [("mark_price", VNum price); ("index_price", VNum price);
                     ("last_price", VNum price)]))
    now_us.

Definition s5_cfg : HypothesisCfg := mkHypothesisCfg (Qc_of_Z 10) (Qc_of_Z 50) 1000.

(** 20 bps apart at time 0, then 5 bps apart at 500 ms and at 1600 ms. *)
Definition s5_before : list call :=
  [ticker_at (Q2Qc (1002 # 10)) 0; ticker_at (Q2Qc (10005 # 100)) 500000].
Definition s5_last : call := ticker_at (Q2Qc (10005 # 100)) 1600000.

End HypothesisRun.

Module EngineRun.

(** The entry points of the engine while it runs. *)
Inductive call :=
  | Ingest (now_ts : Z) (ev : Event)
  | Tick (now_ts : Z).

Definition exec (e : SingleDecisionEngine.t) (c : call) : result SingleDecisionEngine.t :=
  match c with
  | Ingest now_ts ev => SingleDecisionEngine.ingest e now_ts ev
  | Tick now_ts => Return (SingleDecisionEngine.tick e now_ts)
  end.

(** A run ends with the first call that raises. *)
Fixpoint run (e : SingleDecisionEngine.t) (cs : list call) : result SingleDecisionEngine.t :=
  match cs with
  | [] => Return e
  | c :: cs' => e' ← exec e c; run e' cs'
  end.

(** Best bid not below best ask. *)
Definition crossed (top : BookTop) : Prop :=
  ∃ bid ask, best_bid top = Some bid ∧ best_ask top = Some ask ∧ (ask ≤ bid)%Qc.

(** The trust policy holds the verdict UNTRUSTED for [crossed_market] on
    the ORDERBOOK stream. *)
Definition crossed_verdict (p : DataTrustPolicy.t) : Prop :=
  DataTrustPolicy._state_by_stream p ORDERBOOK = UNTRUSTED
  ∧ contains "crossed_market" (DataTrustPolicy._reason_by_stream p ORDERBOOK).

(** Whenever the engine's book is crossed, the verdict has been taken. *)
Definition verdict_taken (e : SingleDecisionEngine.t) : Prop :=
  crossed (OrderBookReplayer.snapshot (SingleDecisionEngine.lob_replayer e)) →
  crossed_verdict (SingleDecisionEngine.data_trust e).

End EngineRun.

Module Scenario.

(** Configuration of scenario S1: 100 ms of lateness, 1000 ms of buffer. *)
Definition s1_cfg : TimeAlignerCfg := mkTimeAlignerCfg 100 1000.

(** A bare event of a stream with a timestamp and a payload. *)
Definition event (s : Stream) (ts : Z) (payload : list (string * pyval)) : Event :=
  mkEvent s (Some "binance-futures") (Some "btcusdt") (Some ts) ts None
          (list_to_map payload).

(** S1 as the specification words it: the first two calls emit nothing,
    the third emits the events of 900 000 and 1 000 000, and the event of
    1 200 000 stays in the buffer. *)
Definition s1_as_specified (e1 e2 e3 : Event) : Prop :=
  let '(a, rs) := TimeAligner.run (TimeAligner.new s1_cfg) [e1; e2; e3] in
  fst <$> rs = [[]; []; [e2; e1]]
  ∧ TimeAligner.entry_ev <$> TimeAligner._heap a = [e3].

(** A number of the configuration, written as a fraction. *)
Definition frac (n : Z) (d : positive) (text : string) : num := mkNum (Q2Qc (n # d)) text.

(** A configuration in the style of [base.yaml]: no lateness allowance, so
    that in-order events leave the aligner at once. *)
Definition data_trust_cfg : DataTrustCfg :=
  mkDataTrustCfg 100 (frac 1 2 "0.5") (frac 1 10 "0.1") (frac 1 2 "0.5")
    (frac 1 10 "0.1") (frac 1 2 "0.5") (frac 100 1 "100") (frac 1000 1 "1000")
    (frac 50 1 "50") (frac 500 1 "500") (frac 100 1 "100") (frac 100 1 "100").

Definition hypothesis_cfg : HypothesisCfg :=
  mkHypothesisCfg (Qc_of_Z 10) (Qc_of_Z 50) 1000.

Definition engine_cfg : EngineCfg :=
  mkEngineCfg 1000 1000 1000 1000 100 (mkTimeAlignerCfg 0 1000)
    "binance-futures" "btcusdt" data_trust_cfg hypothesis_cfg.

(** The engine constructed at time 0. *)
Definition engine : SingleDecisionEngine.t := SingleDecisionEngine.new engine_cfg 0 0.

(** An ORDERBOOK event that carries [side], [price] and [amount] but has
    no key [is_snapshot]. *)
Definition lacks_is_snapshot (ev : Event) : Prop :=
  stream ev = ORDERBOOK
  ∧ data ev !! "is_snapshot" = None
  ∧ dict_get (data ev) "side" ≠ VNone
  ∧ dict_get (data ev) "price" ≠ VNone
  ∧ dict_get (data ev) "amount" ≠ VNone.

(** The first part of C10 as it is worded: no such event is quarantined. *)
Definition never_quarantined_without_is_snapshot : Prop :=
  ∀ (s : Sanitizer.t) (ev : Event),
    lacks_is_snapshot ev →
    ∀ s' ev' reason, Sanitizer.sanitize s ev ≠ Return (s', (QUARANTINE, ev', reason)).

(** Order-book rows without [is_snapshot]; the second comes from another
    exchange, the third has a null exchange. *)
Definition bare_row : Event :=
  event ORDERBOOK 1 [("side", VStr "bid"); ("price", VNum (Qc_of_Z 100));
                     ("amount", VNum (Qc_of_Z 1))].
Definition foreign_row : Event :=
  mkEvent ORDERBOOK (Some "okx") (Some "btcusdt") (Some 1) 1 None (data bare_row).
Definition anonymous_row : Event :=
  mkEvent ORDERBOOK None (Some "btcusdt") (Some 1) 1 None (data bare_row).

(** Scenario S3 inside a running engine: a ticker with mark, index and
    last price at 99.5, two snapshot rows that leave best bid 100 above
    best ask 99, then a trade at 99.6. *)
Definition ticker_995 : Event :=
  event TICKER 1
    [("funding_timestamp", VNum (Qc_of_Z 1)); ("funding_rate", VNum (Q2Qc (1 # 10000)));
     ("predicted_funding_rate", VNum (Q2Qc (1 # 10000)));
     ("open_interest", VNum (Qc_of_Z 10)); ("last_price", VNum (Q2Qc (995 # 10)));
     ("index_price", VNum (Q2Qc (995 # 10))); ("mark_price", VNum (Q2Qc (995 # 10)))].
Definition bid_100 : Event :=
  event ORDERBOOK 2 [("is_snapshot", VBool true); ("side", VStr "bid");
                     ("price", VNum (Qc_of_Z 100)); ("amount", VNum (Qc_of_Z 1))].
Definition ask_99 : Event :=
  event ORDERBOOK 3 [("is_snapshot", VBool true); ("side", VStr "ask");
                     ("price", VNum (Qc_of_Z 99)); ("amount", VNum (Qc_of_Z 1))].
Definition trade_996 : Event :=
  event TRADES 4 [("side", VStr "buy"); ("price", VNum (Q2Qc (996 # 10)));
                  ("amount", VNum (Qc_of_Z 1))].

(** Best bid and best ask of the engine's book, as fractions. *)
Definition top_of_book (e : SingleDecisionEngine.t) : option Q * option Q :=
  let top := OrderBookReplayer.snapshot (SingleDecisionEngine.lob_replayer e) in
  (this <$> best_bid top, this <$> best_ask top).

(** What an engine shows after a call of [ingest]: the book top, what the
    trust policy's global reduction gives (the value [on_event] returned
    last), the engine state, and the last trigger written. *)
Definition observe (r : result SingleDecisionEngine.t)
  : option ((option Q * option Q) * (DataTrustState * string) * EngineState * option string) :=
  match r with
  | Return e =>
      Some (top_of_book e,
            DataTrustPolicy._reduce_global (SingleDecisionEngine.data_trust e),
            SingleDecisionEngine.state e,
            st_trigger <$> last (state_transitions (SingleDecisionEngine.writer e)))
  | Raise _ => None
  end.

End Scenario.

Module StatsRun.

(** The methods of [EngineStats] that the engine calls while it runs. *)
Inductive call :=
  | OnEvent (san : SanitizationState) (trust : DataTrustState) (hypo : HypothesisState)
            (decision : DecisionState)
  | InitDwell (now_us : Z) (san : SanitizationState) (trust : DataTrustState)
              (hypo : HypothesisState) (decision : DecisionState)
  | SwitchSan (now_us : Z) (san : SanitizationState)
  | SwitchTrust (now_us : Z) (trust : DataTrustState)
  | SwitchHypo (now_us : Z) (hypo : HypothesisState)
  | SwitchDecision (now_us : Z) (decision : DecisionState).

Definition exec (s : EngineStats.t) (c : call) : EngineStats.t :=
  match c with
  | OnEvent san trust hypo decision => EngineStats.on_event s san trust hypo decision
  | InitDwell now_us san trust hypo decision =>
      EngineStats.init_dwell s now_us san trust hypo decision
  | SwitchSan now_us san => EngineStats.switch_san s now_us san
  | SwitchTrust now_us trust => EngineStats.switch_trust s now_us trust
  | SwitchHypo now_us hypo => EngineStats.switch_hypo s now_us hypo
  | SwitchDecision now_us decision => EngineStats.switch_decision s now_us decision
  end.

Definition run (cs : list call) : EngineStats.t := foldl exec EngineStats.new cs.

(** The snapshot of a tracker in the words of the specification, section
    4.8: keys [total_us] and [avg_us], the average being total over
    entries. *)
Definition spec_snapshot (d : DwellTracker.t) : gmap string (gmap string Z) :=
  <["avg_us" :=
      map_imap (λ label total,
                  Some (total `div` default 0 (DwellTracker.entries d !! label)))
               (DwellTracker.total_us d)]>
    (<["total_us" := DwellTracker.total_us d]> ∅).

(** [finalize] in the words of the specification: all four trackers are
    closed, and each axis of [dwell] holds the specified snapshot of its
    closed tracker. *)
Definition spec_finalize (s : EngineStats.t) (now_us : Z)
  : EngineStats.t * gmap string (gmap string (gmap string Z)) :=
  let closed (d : option DwellTracker.t) := (λ d, DwellTracker.close d now_us) <$> d in
  let s' :=
    EngineStats.set_dwell s (closed (EngineStats.san_dwell s))
      (closed (EngineStats.trust_dwell s)) (closed (EngineStats.hypo_dwell s))
      (closed (EngineStats.decision_dwell s)) in
  let entry (d : option DwellTracker.t) := from_option spec_snapshot ∅ d in
  (s',
   <["decision" := entry (EngineStats.decision_dwell s')]>
   (<["hypothesis" := entry (EngineStats.hypo_dwell s')]>
   (<["data_trust" := entry (EngineStats.trust_dwell s')]>
   (<["sanitization" := entry (EngineStats.san_dwell s')]> ∅)))).

(** C8 in these terms: [finalize] leaves the trackers and fills [dwell]
    as specified. *)
Definition finalize_as_specified (s : EngineStats.t) (now_us : Z) : Prop :=
  ((EngineStats.finalize s now_us).1, Summary.dwell (EngineStats.finalize s now_us).2)
  = spec_finalize s now_us.

(** The statistics of an engine right after its construction at time 0. *)
Definition stats_at_start : EngineStats.t :=
  EngineStats.init_dwell EngineStats.new 0 QUARANTINE DEGRADED WEAKENING RESTRICTED.

(** The counters add up: every event was counted under one decision. *)
Definition counted (s : EngineStats.t) : Prop :=
  EngineStats.total_events s
  = EngineStats.allowed_events s + EngineStats.restricted_events s
    + EngineStats.halted_events s.

End StatsRun.


(** ** Further runs and predicates *)

Module DwellRun.

(** The calls made on a tracker. *)
Inductive call :=
  | Switch (new_label : string) (now_us : Z)
  | Close (now_us : Z).

Definition exec (d : DwellTracker.t) (c : call) : DwellTracker.t :=
  match c with
  | Switch new_label now_us => DwellTracker.switch d new_label now_us
  | Close now_us => DwellTracker.close d now_us
  end.

Definition run (d : DwellTracker.t) (cs : list call) : DwellTracker.t := foldl exec d cs.

(** The two dictionaries go together: the same labels, at least one entry
    and a non-negative total for each. *)
Definition well_formed (d : DwellTracker.t) : Prop :=
  dom (DwellTracker.total_us d) = dom (DwellTracker.entries d)
  ∧ map_Forall (λ _ n, 1 ≤ n) (DwellTracker.entries d)
  ∧ map_Forall (λ _ total, 0 ≤ total) (DwellTracker.total_us d).

(** [sum(total_us.values())]. *)
Definition sum_values (m : gmap string Z) : Z := map_fold (λ _ v acc, v + acc) 0 m.

(** A sequence of [switch] calls. *)
Definition switches (steps : list (string * Z)) : list call :=
  (λ s : string * Z, Switch s.1 s.2) <$> steps.

End DwellRun.

Module StatsMore.

(** The counters by trust and by hypothesis each count every event once,
    and repairs and quarantines are events among them. *)
Definition balanced (s : EngineStats.t) : Prop :=
  EngineStats.total_events s
  = EngineStats.trusted_events s + EngineStats.degraded_events s
    + EngineStats.untrusted_events s
  ∧ EngineStats.total_events s
    = EngineStats.valid_hypo_events s + EngineStats.weakening_hypo_events s
      + EngineStats.invalid_hypo_events s
  ∧ 0 ≤ EngineStats.quarantine_events s
  ∧ 0 ≤ EngineStats.repair_events s
  ∧ EngineStats.quarantine_events s + EngineStats.repair_events s
    ≤ EngineStats.total_events s.

(** [summary["events_by_state"][axis][label]]. *)
Definition by_state (summary : Summary.t) (axis label : string) : option Z :=
  Summary.events_by_state summary !! axis ≫= (.!! label).

End StatsMore.

Module AlignerMore.

(** The aligners that runs of [align] calls on a new aligner arrive at. *)
Definition reachable (a : TimeAligner.t) : Prop :=
  ∃ cfg evs, a = (TimeAligner.run (TimeAligner.new cfg) evs).1.

(** The events in the buffer. *)
Definition buffered (a : TimeAligner.t) : list Event :=
  TimeAligner.entry_ev <$> TimeAligner._heap a.

End AlignerMore.

Module BookMore.

(** The prices of a ladder. *)
Definition has_level (levels : gmap Qc Qc) (px : Qc) : Prop := is_Some (levels !! px).

(** The levels of [before] that are no longer in [after]. *)
Definition dropped (before after : gmap Qc Qc) (px : Qc) : Prop :=
  has_level before px ∧ ¬ has_level after px.

(** The ladder that a write with [side] goes to: anything but ["bid"] is
    taken for the ask side. *)
Definition ladder (b : OrderBook.t) (side : string) : gmap Qc Qc :=
  if bool_decide (side = "bid") then OrderBook.bids b else OrderBook.asks b.

(** [px] is at least as good as every level of the ladder of [side]. *)
Definition improves (b : OrderBook.t) (side : string) (px : Qc) : Prop :=
  ∀ q, has_level (ladder b side) q →
       if bool_decide (side = "bid") then (q ≤ px)%Qc else (px ≤ q)%Qc.

(** The best price [top()] reports for the ladder of [side]. *)
Definition best (b : OrderBook.t) (side : string) : option Qc :=
  if bool_decide (side = "bid") then best_bid (OrderBook.top b)
  else best_ask (OrderBook.top b).

(** A book of depth 1 that holds two levels a side. *)
Definition deep_book : OrderBook.t :=
  OrderBook.mk 1 {[Qc_of_Z 100 := Qc_of_Z 1; Qc_of_Z 101 := Qc_of_Z 2]}
               {[Qc_of_Z 102 := Qc_of_Z 1; Qc_of_Z 103 := Qc_of_Z 2]} None None.

End BookMore.

Module ReplayerMore.




End ReplayerMore.

Module SanitizerMore.

(** The seven fields of the carry-forward cache, in the order of the
    [fill] calls. *)
Definition cached_fields : list string :=
  ["funding_timestamp"; "funding_rate"; "predicted_funding_rate"; "open_interest";
   "last_price"; "index_price"; "mark_price"].

(** The cache attribute that belongs to a field. *)
Definition cache_get (s : Sanitizer.t) (key : string) : pyval :=
  if bool_decide (key = "funding_timestamp") then Sanitizer._last_funding_timestamp s
  else if bool_decide (key = "funding_rate") then Sanitizer._last_funding_rate s
  else if bool_decide (key = "predicted_funding_rate")
       then Sanitizer._last_predicted_funding_rate s
  else if bool_decide (key = "open_interest") then Sanitizer._last_open_interest s
  else if bool_decide (key = "last_price") then Sanitizer._last_last_price s
  else if bool_decide (key = "index_price") then Sanitizer._last_index_price s
  else if bool_decide (key = "mark_price") then Sanitizer._last_mark_price s
  else VNone.

(** A sanitizer that has seen the full ticker of the scenario, a later
    ticker that carries a mark price only, and that ticker completed from
    the cache. *)
Definition warm : Sanitizer.t :=
  Sanitizer.update_cache (Sanitizer.new "binance-futures" "btcusdt")
    (data Scenario.ticker_995).
Definition thin_ticker : Event :=
  Scenario.event TICKER 2 [("mark_price", VNum (Qc_of_Z 100))].
Definition thin_ticker_repaired : Event :=
  mkEvent TICKER (Some "binance-futures") (Some "btcusdt") (Some 2) 2 None
    (Sanitizer.fill_all (Sanitizer.update_cache warm (data thin_ticker))
       (data thin_ticker)).1.

End SanitizerMore.

Module TrustMore.

(** [sum(...)] of a list of integers. *)
Definition total (l : list Z) : Z := foldr Z.add 0 l.

(** The calls made on the trust policy; the replayer that an [on_event]
    call finds is part of the call. *)
Inductive call :=
  | OnBatch (stream : Stream) (stats : TimeAlignmentStats)
  | OnEvent (lob : OrderBookReplayer.t) (stream : Stream)
            (sanitization : SanitizationState) (ev : Event).

Definition exec (p : DataTrustPolicy.t) (c : call) : result DataTrustPolicy.t :=
  match c with
  | OnBatch stream stats => DataTrustPolicy.on_batch p stream stats
  | OnEvent lob stream sanitization ev =>
      '(p', _) ← DataTrustPolicy.on_event p lob stream sanitization ev;
      Return p'
  end.

(** A run ends with the first call that raises. *)
Fixpoint run (p : DataTrustPolicy.t) (cs : list call) : result DataTrustPolicy.t :=
  match cs with
  | [] => Return p
  | c :: cs' => p' ← exec p c; run p' cs'
  end.

(** The rolling windows of a stream hold at most [window_events] items, and
    the running sums are the sums over what the windows hold. *)
Definition windows_ok (p : DataTrustPolicy.t) : Prop :=
  ∀ s,
    Z.of_nat (length (DataTrustPolicy._align_window p s))
      ≤ cfg_window_events (DataTrustPolicy.cfg p)
    ∧ Z.of_nat (length (DataTrustPolicy._san_quarantine_window p s))
      ≤ cfg_window_events (DataTrustPolicy.cfg p)
    ∧ DataTrustPolicy._align_emitted_sum p s
      = total ((λ x : Z * Z * Z * Z, x.1.1.1) <$> DataTrustPolicy._align_window p s)
    ∧ DataTrustPolicy._align_late_sum p s
      = total ((λ x : Z * Z * Z * Z, x.1.1.2) <$> DataTrustPolicy._align_window p s)
    ∧ DataTrustPolicy._align_forced_sum p s
      = total ((λ x : Z * Z * Z * Z, x.1.2) <$> DataTrustPolicy._align_window p s)
    ∧ DataTrustPolicy._san_quarantine_sum p s
      = total (DataTrustPolicy._san_quarantine_window p s)
    ∧ Forall (λ q, 0 ≤ q ≤ 1) (DataTrustPolicy._san_quarantine_window p s).

(** The configuration of the scenario with another [window_events]. *)
Definition with_window (c : DataTrustCfg) (window_events : Z) : DataTrustCfg :=
  mkDataTrustCfg window_events (cfg_quarantine_untrusted_rate c) (cfg_late_degraded_rate c)
    (cfg_late_untrusted_rate c) (cfg_forced_flush_degraded_rate c)
    (cfg_forced_flush_untrusted_rate c) (cfg_buffer_len_degraded c)
    (cfg_buffer_len_untrusted c) (cfg_spread_explode_bps c)
    (cfg_fat_finger_untrusted_bps c) (cfg_fat_finger_degraded_bps c)
    (cfg_trade_jump_degraded_bps c).

(** Three batches and two events on one stream, for a window of one. *)
Definition sample_calls : list call :=
  [OnBatch ORDERBOOK (mkTimeAlignmentStats 1 1 0 false 0);
   OnEvent (OrderBookReplayer.new 2) ORDERBOOK QUARANTINE Scenario.bare_row;
   OnBatch ORDERBOOK (mkTimeAlignmentStats 1 2 1 true 3);
   OnEvent (OrderBookReplayer.new 2) ORDERBOOK ACCEPT Scenario.bid_100;
   OnBatch ORDERBOOK (mkTimeAlignmentStats 1 1 0 false 0)].

End TrustMore.

Module EngineMore.

(** The engine's decision is the one [compute] gives for its trust and
    hypothesis states. *)
Definition consistent (st : EngineState) : Prop :=
  es_decision st = DecisionMachine.compute (es_data_trust st) (es_hypothesis st).

(** A record of [state_transitions.jsonl] whose decision is the one
    [compute] gives for the trust and hypothesis states it shows. *)
Definition follows_table (rec : StateTransitionRecord) : Prop :=
  ∃ data_trust hypothesis,
    st_data_trust rec = trust_value data_trust
    ∧ st_hypothesis rec = hypo_value hypothesis
    ∧ st_decision rec = decision_value (DecisionMachine.compute data_trust hypothesis).

(** The record shows the state. *)
Definition shows (rec : StateTransitionRecord) (st : EngineState) : Prop :=
  st_data_trust rec = trust_value (es_data_trust st)
  ∧ st_hypothesis rec = hypo_value (es_hypothesis st)
  ∧ st_decision rec = decision_value (es_decision st).

(** The number of records with [label] in a column. *)
Definition tally (column : StateTransitionRecord → string) (label : string)
    (recs : list StateTransitionRecord) : Z :=
  Z.of_nat (length (filter (λ rec, column rec = label) recs)).

(** The counters by trust, hypothesis and decision are the tallies of the
    records. *)
Definition ledger (s : EngineStats.t) (recs : list StateTransitionRecord) : Prop :=
  EngineStats.total_events s = Z.of_nat (length recs)
  ∧ EngineStats.trusted_events s = tally st_data_trust "TRUSTED" recs
  ∧ EngineStats.degraded_events s = tally st_data_trust "DEGRADED" recs
  ∧ EngineStats.untrusted_events s = tally st_data_trust "UNTRUSTED" recs
  ∧ EngineStats.valid_hypo_events s = tally st_hypothesis "VALID" recs
  ∧ EngineStats.weakening_hypo_events s = tally st_hypothesis "WEAKENING" recs
  ∧ EngineStats.invalid_hypo_events s = tally st_hypothesis "INVALID" recs
  ∧ EngineStats.allowed_events s = tally st_decision "ALLOWED" recs
  ∧ EngineStats.restricted_events s = tally st_decision "RESTRICTED" recs
  ∧ EngineStats.halted_events s = tally st_decision "HALTED" recs.

(** The twelve counters of the statistics. *)
Definition counters (s : EngineStats.t) : list Z :=
  [EngineStats.total_events s; EngineStats.quarantine_events s; EngineStats.repair_events s;
   EngineStats.trusted_events s; EngineStats.degraded_events s;
   EngineStats.untrusted_events s; EngineStats.allowed_events s;
   EngineStats.restricted_events s; EngineStats.halted_events s;
   EngineStats.valid_hypo_events s; EngineStats.weakening_hypo_events s;
   EngineStats.invalid_hypo_events s].

(** One turn of the engine at [now_ts]: the states are set, the decision
    is computed from them, one record that shows them is written, and the
    event is counted under them. *)
Definition logged (e e' : SingleDecisionEngine.t) (now_ts : Z) : Prop :=
  ∃ sanitization trigger,
    let st := SingleDecisionEngine.state e' in
    consistent st
    ∧ state_transitions (SingleDecisionEngine.writer e')
      = state_transitions (SingleDecisionEngine.writer e)
        ++ [mkStateTransitionRecord now_ts (trust_value (es_data_trust st))
              (hypo_value (es_hypothesis st)) (decision_value (es_decision st)) trigger]
    ∧ counters (SingleDecisionEngine.stats e')
      = counters (EngineStats.on_event (SingleDecisionEngine.stats e) sanitization
                    (es_data_trust st) (es_hypothesis st) (es_decision st)).

(** What every run of the engine keeps. *)
Definition kept (e : SingleDecisionEngine.t) : Prop :=
  consistent (SingleDecisionEngine.state e)
  ∧ Forall follows_table (state_transitions (SingleDecisionEngine.writer e))
  ∧ ∃ first rest,
      state_transitions (SingleDecisionEngine.writer e) = first :: rest
      ∧ st_trigger first = "engine_init"
      ∧ (∀ rec, last (first :: rest) = Some rec → shows rec (SingleDecisionEngine.state e))
      ∧ ledger (SingleDecisionEngine.stats e) rest.

(** A ticker, two rows that cross the book, a trade, and a tick long after. *)
Definition sample_run : list EngineRun.call :=
  [EngineRun.Ingest 10 Scenario.ticker_995; EngineRun.Ingest 20 Scenario.bid_100;
   EngineRun.Ingest 30 Scenario.ask_99; EngineRun.Ingest 40 Scenario.trade_996;
   EngineRun.Tick 5000000].

End EngineMore.

Module PipelineMore.

(** The keys that [verify] reads with [data[...]]: the three prices of a
    ticker, the price of a trade or a liquidation. *)
Definition read_by_verify (s : Stream) : list string :=
  match s with
  | TICKER => ["mark_price"; "index_price"; "last_price"]
  | TRADES | LIQUIDATIONS => ["price"]
  | ORDERBOOK => []
  end.

(** The payload has every key that [verify] reads. *)
Definition verifiable (ev : Event) : Prop :=
  Forall (λ key, is_Some (data ev !! key)) (read_by_verify (stream ev)).

(** A ticker that carries nothing, as the first event of a stream. *)
Definition empty_ticker : Event := Scenario.event TICKER 5 [].

End PipelineMore.

Module ConsensusMore.

(** [abs(price_i - price_j) / abs(price_j) * 10_000.0]. *)
Definition bps (i j : string * Qc) : Qc :=
  (Qc_abs (i.2 - j.2) / Qc_abs j.2 * Qc_of_Z 10000)%Qc.

(** The pairs [(keys[i], keys[j])] with [i < j], in the order of the two
    loops. *)
Fixpoint ordered_pairs {A} (l : list A) : list (A * A) :=
  match l with
  | [] => []
  | x :: rest => ((λ y, (x, y)) <$> rest) ++ ordered_pairs rest
  end.

(** A value that [_consensus] admits as a source: a number above zero. *)
Definition usable (v : pyval) : Prop := is_Some (HypothesisPolicy.positive_number v).

(** A policy that has seen a ticker at 100, and the prices it collects
    on an ORDERBOOK event over the flat book. *)
Definition settled : HypothesisPolicy.t :=
  HypothesisPolicy.mk (Qc_of_Z 10) (Qc_of_Z 50) 1000 None INVALID
    (VNum (Qc_of_Z 100)) (VNum (Qc_of_Z 100)) (VNum (Qc_of_Z 100)).
Definition settled_prices : list (string * pyval) :=
  [("lob_mid",
    from_option VNum VNone (mid (OrderBookReplayer.snapshot HypothesisRun.flat_book)));
   ("mark", VNum (Qc_of_Z 100)); ("index", VNum (Qc_of_Z 100));
   ("last", VNum (Qc_of_Z 100))].

End ConsensusMore.
(** * Properties *)

(** ** The decision machine *)

Lemma compute_table_elsewhere data_trust hypothesis :
  (data_trust, hypothesis) ≠ (UNTRUSTED, WEAKENING) →
  (data_trust, hypothesis) ≠ (DEGRADED, INVALID) →
  DecisionMachine.compute data_trust hypothesis = DecisionMachine.table data_trust hypothesis.
Proof. destruct data_trust, hypothesis; intros H1 H2; try reflexivity; congruence. Qed.

(** C1.  [compute] differs from the specified table exactly at the two
    pairs where HALTED has to override RESTRICTED: for UNTRUSTED with
    WEAKENING and for DEGRADED with INVALID it returns RESTRICTED, where
    the table says HALTED.  With untrusted data a weakening hypothesis thus
    gives a milder decision than a valid one. *)
Theorem compute_misses_halted_override :
  DecisionMachine.compute UNTRUSTED WEAKENING = RESTRICTED
  ∧ DecisionMachine.table UNTRUSTED WEAKENING = HALTED
  ∧ DecisionMachine.compute DEGRADED INVALID = RESTRICTED
  ∧ DecisionMachine.table DEGRADED INVALID = HALTED
  ∧ DecisionMachine.compute UNTRUSTED VALID = HALTED
  ∧ ∀ data_trust hypothesis,
      DecisionMachine.compute data_trust hypothesis
        ≠ DecisionMachine.table data_trust hypothesis
      ↔ (data_trust, hypothesis) = (UNTRUSTED, WEAKENING)
        ∨ (data_trust, hypothesis) = (DEGRADED, INVALID).
Proof.
  repeat split; try reflexivity.
  - intros Hne.
    destruct data_trust, hypothesis; auto; exfalso; apply Hne; reflexivity.
  - intros [[= -> ->] | [= -> ->]]; discriminate.
Qed.

(** ** Engine statistics *)

Section stats.

Implicit Types (s : EngineStats.t) (d : DwellTracker.t).

Lemma counted_new : StatsRun.counted EngineStats.new.
Proof. reflexivity. Qed.

Lemma counted_exec s c : StatsRun.counted s → StatsRun.counted (StatsRun.exec s c).
Proof.
  unfold StatsRun.counted. intros H.
  destruct c as [san trust hypo decision| | | | | ]; simpl; try exact H.
  destruct decision; lia.
Qed.

Lemma counted_run cs : StatsRun.counted (StatsRun.run cs).
Proof.
  unfold StatsRun.run. generalize counted_new. generalize EngineStats.new.
  induction cs as [|c cs IH]; intros s Hs; simpl; [exact Hs|].
  apply IH, counted_exec, Hs.
Qed.

(** C9.  After any sequence of calls on a fresh [EngineStats], the
    finalized summary reports under [events_by_state.decision] exactly the
    three counters ALLOWED, RESTRICTED and HALTED, and [total_events] is
    their sum. *)
Theorem total_events_is_sum_of_decision_counters (cs : list StatsRun.call) (now_us : Z) :
  let summary := (EngineStats.finalize (StatsRun.run cs) now_us).2 in
  ∃ (by_decision : gmap string Z) (allowed restricted halted : Z),
    Summary.events_by_state summary !! "decision" = Some by_decision
    ∧ by_decision !! "ALLOWED" = Some allowed
    ∧ by_decision !! "RESTRICTED" = Some restricted
    ∧ by_decision !! "HALTED" = Some halted
    ∧ dom by_decision = {["ALLOWED"; "RESTRICTED"; "HALTED"]}
    ∧ Summary.total_events summary = allowed + restricted + halted.
Proof.
  simpl. eexists _, _, _, _. split; [apply lookup_insert_eq|].
  split; [by simplify_map_eq|]. split; [by simplify_map_eq|].
  split; [by simplify_map_eq|]. split.
  - rewrite !dom_insert_L, dom_empty_L. set_solver.
  - apply (counted_run cs).
Qed.

Lemma avg_us_lookup d label :
  DwellTracker.avg_us d !! label
  = (λ total, total `div` Z.max 1 (default 0 (DwellTracker.entries d !! label)))
      <$> DwellTracker.total_us d !! label.
Proof.
  unfold DwellTracker.avg_us. rewrite map_lookup_imap.
  by destruct (DwellTracker.total_us d !! label).
Qed.

Lemma snapshot_shape d :
  DwellTracker.snapshot d !! "total_ts" = Some (DwellTracker.total_us d)
  ∧ DwellTracker.snapshot d !! "avg_ts" = Some (DwellTracker.avg_us d)
  ∧ dom (DwellTracker.snapshot d) = {["total_ts"; "avg_ts"]}.
Proof.
  unfold DwellTracker.snapshot. split; [by simplify_map_eq|].
  split; [by simplify_map_eq|].
  rewrite !dom_insert_L, dom_empty_L. set_solver.
Qed.

(** What [finalize] does: it closes the trackers of the data_trust,
    hypothesis and decision axes, and the [dwell] entry of each of the four
    axes is the snapshot of that axis' tracker as [finalize] leaves it (the
    empty dictionary when there is none): a dictionary with the two keys
    [total_ts] and [avg_ts], the first holding the accumulated microseconds
    per label, the second the floor of total over [max(1, entries)] for
    every label that has a total. *)
Lemma finalize_closes_and_snapshots s (now_us : Z) :
  let s' := (EngineStats.finalize s now_us).1 in
  let summary := (EngineStats.finalize s now_us).2 in
  let closed o := (λ d, DwellTracker.close d now_us) <$> o in
  (EngineStats.trust_dwell s' = closed (EngineStats.trust_dwell s)
   ∧ EngineStats.hypo_dwell s' = closed (EngineStats.hypo_dwell s)
   ∧ EngineStats.decision_dwell s' = closed (EngineStats.decision_dwell s))
  ∧ (Summary.dwell summary !! "sanitization"
       = Some (from_option DwellTracker.snapshot ∅ (EngineStats.san_dwell s'))
     ∧ Summary.dwell summary !! "data_trust"
       = Some (from_option DwellTracker.snapshot ∅ (EngineStats.trust_dwell s'))
     ∧ Summary.dwell summary !! "hypothesis"
       = Some (from_option DwellTracker.snapshot ∅ (EngineStats.hypo_dwell s'))
     ∧ Summary.dwell summary !! "decision"
       = Some (from_option DwellTracker.snapshot ∅ (EngineStats.decision_dwell s')))
  ∧ ∀ d,
      DwellTracker.snapshot d !! "total_ts" = Some (DwellTracker.total_us d)
      ∧ DwellTracker.snapshot d !! "avg_ts" = Some (DwellTracker.avg_us d)
      ∧ dom (DwellTracker.snapshot d) = {["total_ts"; "avg_ts"]}
      ∧ ∀ label,
          DwellTracker.avg_us d !! label
          = (λ total, total `div` Z.max 1 (default 0 (DwellTracker.entries d !! label)))
              <$> DwellTracker.total_us d !! label.
Proof.
  simpl. split; [done|]. split.
  - unfold EngineStats.summary, EngineStats.dwell_stats; simpl.
    repeat split; by simplify_map_eq.
  - intros d. destruct (snapshot_shape d) as (H1 & H2 & H3).
    repeat split; try done. apply avg_us_lookup.
Qed.

(** What separates the code from the specified [finalize], on the
    statistics of a fresh engine finalized at time 10: the sanitization
    tracker is not closed (its 10 microseconds under QUARANTINE are in no
    total), and the snapshots have no key [total_us]. *)
Lemma finalize_differences :
  (DwellTracker.total_us
     <$> EngineStats.san_dwell (EngineStats.finalize StatsRun.stats_at_start 10).1)
  = Some ∅
  ∧ (DwellTracker.total_us
       <$> EngineStats.san_dwell (StatsRun.spec_finalize StatsRun.stats_at_start 10).1)
    = Some {["QUARANTINE" := 10]}
  ∧ (Summary.dwell (EngineStats.finalize StatsRun.stats_at_start 10).2 !! "decision"
       ≫= (.!! "total_us")) = None
  ∧ ((StatsRun.spec_finalize StatsRun.stats_at_start 10).2 !! "decision"
       ≫= (.!! "total_us"))
    = Some {["RESTRICTED" := 10]}.
Proof. repeat split. Qed.

(** A tracker is never its own closed version: [close] counts one more
    entry for the current label. *)
Lemma close_changes d (now_us : Z) : DwellTracker.close d now_us ≠ d.
Proof.
  unfold DwellTracker.close, DwellTracker.flush. intros H.
  apply (f_equal (λ d', DwellTracker.entries d' !! DwellTracker.current d)) in H.
  simpl in H. rewrite lookup_insert_eq in H.
  destruct (DwellTracker.entries d !! DwellTracker.current d) as [n|]; simpl in H;
    [injection H as H; lia|discriminate].
Qed.

(** C8: [finalize] does not close the tracker of the sanitization axis.
    It calls [close] on the trackers of the data_trust, hypothesis and
    decision axes and on no other; an engine's sanitization tracker is
    therefore left as it was, which is not its closed version, and the
    [dwell] entry for sanitization in the summary is the snapshot of the
    tracker that was not closed: the time spent in the last sanitization
    state is in no total. *)
Theorem finalize_skips_sanitization_tracker s (now_us : Z) d :
  EngineStats.san_dwell s = Some d →
  let s' := (EngineStats.finalize s now_us).1 in
  let summary := (EngineStats.finalize s now_us).2 in
  let closed o := (λ d, DwellTracker.close d now_us) <$> o in
  (EngineStats.trust_dwell s' = closed (EngineStats.trust_dwell s)
   ∧ EngineStats.hypo_dwell s' = closed (EngineStats.hypo_dwell s)
   ∧ EngineStats.decision_dwell s' = closed (EngineStats.decision_dwell s))
  ∧ EngineStats.san_dwell s' = Some d
  ∧ EngineStats.san_dwell s' ≠ closed (EngineStats.san_dwell s)
  ∧ Summary.dwell summary !! "sanitization" = Some (DwellTracker.snapshot d).
Proof.
  intros Hsan. simpl. split; [done|]. split; [done|]. split.
  - rewrite Hsan. simpl. intros [= H]. by apply (close_changes d now_us).
  - unfold EngineStats.summary, EngineStats.dwell_stats. simpl. rewrite Hsan.
    by simplify_map_eq.
Qed.

Lemma finalize_skips_sanitization_tracker_witness :
  let s := StatsRun.stats_at_start in
  let d := DwellTracker.new "QUARANTINE" 0 in
  (DwellTracker.total_us <$> EngineStats.san_dwell (EngineStats.finalize s 10).1) = Some ∅
  ∧ (DwellTracker.total_us <$> ((λ d, DwellTracker.close d 10) <$> EngineStats.san_dwell s))
    = Some {["QUARANTINE" := 10]}
  ∧ EngineStats.san_dwell (EngineStats.finalize s 10).1 = Some d
  ∧ EngineStats.san_dwell (EngineStats.finalize s 10).1
    ≠ (λ d, DwellTracker.close d 10) <$> EngineStats.san_dwell s
  ∧ Summary.dwell (EngineStats.finalize s 10).2 !! "sanitization"
    = Some (DwellTracker.snapshot d).
Proof.
  split; [reflexivity|]. split; [reflexivity|].
  exact (proj2 (finalize_skips_sanitization_tracker StatsRun.stats_at_start 10
                  (DwellTracker.new "QUARANTINE" 0) eq_refl)).
Defined.

(** [finalize] as the specification words it fails on the statistics of a
    fresh engine finalized at time 10. *)
Lemma finalize_not_as_specified :
  ¬ StatsRun.finalize_as_specified StatsRun.stats_at_start 10.
Proof.
  unfold StatsRun.finalize_as_specified. intros H.
  apply (f_equal (λ r, EngineStats.san_dwell r.1
                       ≫= λ d, DwellTracker.total_us d !! "QUARANTINE")) in H.
  discriminate H.
Qed.

End stats.

(** ** The time aligner: scenario S1 *)

(** What the three calls of S1 return and leave behind. *)
Lemma s1_trace (e1 e2 e3 : Event) :
  event_ts e1 = Some 1000000 →
  event_ts e2 = Some 900000 →
  event_ts e3 = Some 1200000 →
  TimeAligner.run (TimeAligner.new Scenario.s1_cfg) [e1; e2; e3]
  = (TimeAligner.mk 100000 1000000 (Some 1200000) [(1200000, 2, e3)] 3,
     [([], mkTimeAlignmentStats 1 0 0 false 1);
      ([e2], mkTimeAlignmentStats 1 1 0 false 1);
      ([e1], mkTimeAlignmentStats 1 1 0 false 1)]).
Proof.
  intros H1 H2 H3. unfold TimeAligner.run, TimeAligner.align.
  rewrite H1; simpl. rewrite H2; simpl. rewrite H3; simpl. done.
Qed.

(** C6, as the code has it.  With 100 ms of lateness, pushing events of
    1 000 000, 900 000 and 1 200 000 into a fresh aligner: the first call
    emits nothing, the second emits the event of 900 000 (it is not below
    the watermark 900 000), the third emits the event of 1 000 000 under
    the watermark 1 100 000; the event of 1 200 000 stays in the buffer.
    After the third push both earlier events have been emitted, 900 000
    first. *)
Theorem s1_emissions (e1 e2 e3 : Event) :
  event_ts e1 = Some 1000000 →
  event_ts e2 = Some 900000 →
  event_ts e3 = Some 1200000 →
  let '(a, rs) := TimeAligner.run (TimeAligner.new Scenario.s1_cfg) [e1; e2; e3] in
  fst <$> rs = [[]; [e2]; [e1]]
  ∧ TimeAligner.emitted_events rs = [e2; e1]
  ∧ TimeAligner._compute_watermark a = Some 1100000
  ∧ TimeAligner.entry_ev <$> TimeAligner._heap a = [e3].
Proof. intros H1 H2 H3. by rewrite (s1_trace e1 e2 e3 H1 H2 H3). Qed.

Lemma s1_emissions_witness :
  let e1 := Scenario.event TRADES 1000000 [] in
  let e2 := Scenario.event TRADES 900000 [] in
  let e3 := Scenario.event TRADES 1200000 [] in
  let '(a, rs) := TimeAligner.run (TimeAligner.new Scenario.s1_cfg) [e1; e2; e3] in
  fst <$> rs = [[]; [e2]; [e1]]
  ∧ TimeAligner.emitted_events rs = [e2; e1]
  ∧ TimeAligner._compute_watermark a = Some 1100000
  ∧ TimeAligner.entry_ev <$> TimeAligner._heap a = [e3].
Proof.
  exact (s1_emissions (Scenario.event TRADES 1000000 [])
           (Scenario.event TRADES 900000 []) (Scenario.event TRADES 1200000 [])
           eq_refl eq_refl eq_refl).
Defined.

(** C6, as the specification words it, fails: the second call already
    emits the event of 900 000. *)
Lemma s1_not_as_specified :
  ¬ Scenario.s1_as_specified (Scenario.event TRADES 1000000 [])
      (Scenario.event TRADES 900000 []) (Scenario.event TRADES 1200000 []).
Proof.
  unfold Scenario.s1_as_specified.
  rewrite (s1_trace (Scenario.event TRADES 1000000 []) (Scenario.event TRADES 900000 [])
             (Scenario.event TRADES 1200000 []) eq_refl eq_refl eq_refl).
  intros [H _]. discriminate H.
Qed.

(** ** The sanitizer *)

Lemma sanitize_null_exchange_raises_aux (s : Sanitizer.t) (ev : Event) :
  exchange ev = None →
  Sanitizer.sanitize s ev = Raise (UnboundLocalError "reason").
Proof. intros H. unfold Sanitizer.sanitize. by rewrite H. Qed.

(** C2.  Whatever else an event holds, when its exchange is null
    [sanitize] does not return: the repair branch reads the local [reason]
    before it is bound and raises [UnboundLocalError].  No REPAIR result and
    no repaired event come out. *)
Theorem sanitize_null_exchange_raises (s : Sanitizer.t) (ev : Event) :
  exchange ev = None →
  Sanitizer.sanitize s ev = Raise (UnboundLocalError "reason").
Proof. intros H. unfold Sanitizer.sanitize, load_local. rewrite H. reflexivity. Qed.

Lemma sanitize_null_exchange_raises_witness :
  exchange Scenario.anonymous_row = None
  ∧ Sanitizer.sanitize (Sanitizer.new "binance-futures" "btcusdt") Scenario.anonymous_row
    = Raise (UnboundLocalError "reason").
Proof.
  split; [reflexivity|].
  apply (sanitize_null_exchange_raises (Sanitizer.new "binance-futures" "btcusdt")
           Scenario.anonymous_row).
  reflexivity.
Defined.

(** In the engine the exception leaves [process], and with it [ingest]:
    nothing downstream sees the event. *)
Lemma process_null_exchange_raises (e : SingleDecisionEngine.t) (now_ts : Z) (ev : Event) :
  exchange ev = None →
  SingleDecisionEngine.process e now_ts ev = Raise (UnboundLocalError "reason").
Proof.
  intros H. unfold SingleDecisionEngine.process.
  by rewrite (sanitize_null_exchange_raises_aux _ _ H).
Qed.

(** The sibling repair, of a null symbol, appends to [reasons] and works. *)
Lemma sanitize_null_symbol_repairs (s : Sanitizer.t) (ev : Event) :
  exchange ev = Some (Sanitizer._exchange s) →
  symbol ev = None →
  Sanitizer._symbol s ≠ "" →
  stream ev = TRADES →
  Sanitizer.missing3 (data ev) "price" "amount" "side" = false →
  Sanitizer.sanitize s ev
  = Return (s, (REPAIR,
                mkEvent TRADES (exchange ev) (Some (Sanitizer._symbol s)) (event_ts ev)
                        (ingest_ts ev) (event_id ev) (data ev),
                "repair_symbol_default")).
Proof.
  intros He Hs Hsym Hst Hm. unfold Sanitizer.sanitize, Sanitizer.sanitize_from_symbol.
  rewrite He, Hs. rewrite bool_decide_true by done. simpl.
  rewrite (bool_decide_false _ Hsym). simpl.
  unfold Sanitizer.stream_rules. rewrite Hst, Hm. reflexivity.
Qed.

(** The ORDERBOOK rules let a row without [is_snapshot] pass. *)
Lemma stream_rules_without_is_snapshot s ev status reasons :
  Scenario.lacks_is_snapshot ev →
  Sanitizer.stream_rules s ev status reasons
  = (s, Sanitizer.Continue status (data ev) reasons).
Proof.
  intros (Hst & Hkey & Hside & Hprice & Hamount). unfold Sanitizer.stream_rules.
  rewrite Hst, Hkey. rewrite bool_decide_false by (by intros [? ?]). simpl.
  unfold Sanitizer.missing3.
  destruct (dict_get (data ev) "side"), (dict_get (data ev) "price"),
    (dict_get (data ev) "amount"); done.
Qed.

Lemma sanitize_without_is_snapshot s ev :
  Scenario.lacks_is_snapshot ev →
  exchange ev = Some (Sanitizer._exchange s) →
  symbol ev = None ∨ symbol ev = Some (Sanitizer._symbol s) →
  ∃ status ev' reason,
    Sanitizer.sanitize s ev = Return (s, (status, ev', reason))
    ∧ (status = ACCEPT ∨ status = REPAIR).
Proof.
  intros Hev He Hs. unfold Sanitizer.sanitize, Sanitizer.sanitize_from_symbol.
  rewrite He. rewrite bool_decide_true by done. simpl.
  destruct Hs as [-> | ->].
  - destruct (bool_decide (Sanitizer._symbol s = "")); simpl;
      rewrite stream_rules_without_is_snapshot by done; simpl; eauto 10.
  - rewrite bool_decide_true by done. simpl.
    rewrite stream_rules_without_is_snapshot by done. simpl. eauto 10.
Qed.

Lemma on_event_without_is_snapshot r ev now_us :
  stream ev = ORDERBOOK →
  data ev !! "is_snapshot" = None →
  OrderBookReplayer.on_event r ev now_us = Raise (KeyError "is_snapshot").
Proof.
  intros Hst Hkey. unfold OrderBookReplayer.on_event, getitem.
  rewrite Hst, Hkey. reflexivity.
Qed.

(** C10, as the code has it.  An ORDERBOOK event with non-null [side],
    [price] and [amount] and no key [is_snapshot], whose exchange is the
    configured one and whose symbol is null or the configured one, is
    accepted or repaired by the sanitizer, never quarantined; the replayer
    raises [KeyError] on the lookup of [is_snapshot] for it (for any
    ORDERBOOK event without that key, in fact); and in the engine's
    pipeline the event gets past the sanitizer and the exception leaves
    [process]. *)
Theorem orderbook_without_is_snapshot_raises
    (e : SingleDecisionEngine.t) (r : OrderBookReplayer.t) (ev : Event) (now_us : Z) :
  Scenario.lacks_is_snapshot ev →
  exchange ev = Some (Sanitizer._exchange (SingleDecisionEngine.sanitizer e)) →
  symbol ev = None ∨ symbol ev = Some (Sanitizer._symbol (SingleDecisionEngine.sanitizer e)) →
  (∃ status ev' reason,
     Sanitizer.sanitize (SingleDecisionEngine.sanitizer e) ev
     = Return (SingleDecisionEngine.sanitizer e, (status, ev', reason))
     ∧ status ≠ QUARANTINE)
  ∧ OrderBookReplayer.on_event r ev now_us = Raise (KeyError "is_snapshot")
  ∧ SingleDecisionEngine.process e now_us ev = Raise (KeyError "is_snapshot").
Proof.
  intros Hev He Hs.
  destruct (sanitize_without_is_snapshot _ _ Hev He Hs) as (status & ev' & reason & Hsan & Hst).
  destruct Hev as (Hstream & Hkey & Hrest).
  split; [|split].
  - exists status, ev', reason. split; [done|]. by destruct Hst as [-> | ->].
  - by apply on_event_without_is_snapshot.
  - unfold SingleDecisionEngine.process. rewrite Hsan. simpl.
    rewrite Hstream. rewrite bool_decide_true by done.
    rewrite bool_decide_false by (by destruct Hst as [-> | ->]). simpl.
    replace (SingleDecisionEngine.lob_replayer
               (SingleDecisionEngine._set_sanitization e status now_us))
      with (SingleDecisionEngine.lob_replayer e)
      by (unfold SingleDecisionEngine._set_sanitization; by case_bool_decide).
    by rewrite on_event_without_is_snapshot.
Qed.

Lemma orderbook_without_is_snapshot_raises_witness :
  Scenario.lacks_is_snapshot Scenario.bare_row
  ∧ (∃ status ev' reason,
       Sanitizer.sanitize (SingleDecisionEngine.sanitizer Scenario.engine) Scenario.bare_row
       = Return (SingleDecisionEngine.sanitizer Scenario.engine, (status, ev', reason))
       ∧ status ≠ QUARANTINE)
  ∧ OrderBookReplayer.on_event (OrderBookReplayer.new 100) Scenario.bare_row 5
    = Raise (KeyError "is_snapshot")
  ∧ SingleDecisionEngine.process Scenario.engine 5 Scenario.bare_row
    = Raise (KeyError "is_snapshot").
Proof.
  assert (Hrow : Scenario.lacks_is_snapshot Scenario.bare_row).
  { repeat split; try reflexivity; intros H; vm_compute in H; discriminate H. }
  split; [exact Hrow|].
  apply (orderbook_without_is_snapshot_raises Scenario.engine (OrderBookReplayer.new 100)
           Scenario.bare_row 5 Hrow).
  - reflexivity.
  - right. reflexivity.
Defined.

(** The first part of C10, as it is worded, fails: a row of another
    exchange is quarantined with [missing_exchange], is_snapshot or not. *)
Lemma foreign_row_is_quarantined :
  ¬ Scenario.never_quarantined_without_is_snapshot.
Proof.
  intros H.
  apply (H (Sanitizer.new "binance-futures" "btcusdt") Scenario.foreign_row)
    with (s' := Sanitizer.new "binance-futures" "btcusdt") (ev' := Scenario.foreign_row)
         (reason := "missing_exchange").
  - repeat split; try reflexivity; intros H'; vm_compute in H'; discriminate H'.
  - reflexivity.
Qed.

(** ** Crossed market *)

Section crossed.

Import DataTrustPolicy.
Implicit Types (p : DataTrustPolicy.t) (lob : OrderBookReplayer.t).

Lemma append_nil_r (s : string) : s +:+ "" = s.
Proof.
  induction s as [|a s IH]; [done|].
  change (String a (s +:+ "") = String a s). by rewrite IH.
Qed.

Lemma append_assoc (s1 s2 s3 : string) : (s1 +:+ s2) +:+ s3 = s1 +:+ s2 +:+ s3.
Proof.
  induction s1 as [|a s1 IH]; [done|].
  change (String a ((s1 +:+ s2) +:+ s3) = String a (s1 +:+ s2 +:+ s3)). by rewrite IH.
Qed.

Lemma contains_refl needle : contains needle needle.
Proof. exists "", "". change (needle = needle +:+ ""). by rewrite append_nil_r. Qed.

Lemma contains_app_l needle s1 s2 : contains needle s1 → contains needle (s1 +:+ s2).
Proof.
  intros (before & after & ->). exists before, (after +:+ s2).
  by rewrite !append_assoc.
Qed.

Lemma contains_app_r needle s1 s2 : contains needle s2 → contains needle (s1 +:+ s2).
Proof.
  intros (before & after & ->). exists (s1 +:+ before), after.
  by rewrite !append_assoc.
Qed.

Lemma contains_nonempty needle s : needle ≠ "" → contains needle s → s ≠ "".
Proof.
  intros Hne (before & after & ->). destruct before; simpl; [|done].
  destruct needle; simpl; done.
Qed.

Lemma contains_join needle sep (parts : list string) part :
  part ∈ parts → contains needle part → contains needle (join sep parts).
Proof.
  intros Hin Hc. induction parts as [|q parts IH]; [by apply elem_of_nil in Hin|].
  apply elem_of_cons in Hin as [<- | Hin].
  - destruct parts; simpl; [done|]. by apply contains_app_l.
  - specialize (IH Hin). destruct parts as [|q' parts]; [by apply elem_of_nil in Hin|].
    change (join sep (q :: q' :: parts)) with (q +:+ sep +:+ join sep (q' :: parts)).
    by apply contains_app_r, contains_app_r.
Qed.

(** On an ORDERBOOK event, a book whose best bid is not below its best ask
    gives the stream the verdict UNTRUSTED for [crossed_market]. *)
Lemma eval_stream_crossed p lob sanitization ev bid ask :
  best_bid (OrderBookReplayer.snapshot lob) = Some bid →
  best_ask (OrderBookReplayer.snapshot lob) = Some ask →
  (ask ≤ bid)%Qc →
  ∃ reason,
    _eval_stream p lob ORDERBOOK sanitization ev
    = Return (_last_trade_price p, (UNTRUSTED, reason))
    ∧ contains "crossed_market" reason.
Proof.
  intros Hbid Hask Hcross. unfold _eval_stream.
  rewrite (bool_decide_true (ORDERBOOK = ORDERBOOK)) by done.
  rewrite (bool_decide_false (ORDERBOOK = TRADES)) by done.
  destruct (eval_windows p ORDERBOOK sanitization) as [untrusted degraded].
  unfold eval_orderbook. rewrite Hbid, Hask.
  rewrite (bool_decide_true (ask ≤ bid)%Qc) by done.
  unfold append_if at 1.
  assert (Hne : bool_decide (untrusted ++ ["crossed_market"] = []) = false).
  { apply bool_decide_false. by destruct untrusted. }
  assert (Hin : contains "crossed_market" (join " | " (untrusted ++ ["crossed_market"]))).
  { apply contains_join with "crossed_market"; [|apply contains_refl].
    apply elem_of_app. right. by left. }
  destruct (decide _); simpl; rewrite Hne; simpl; eauto.
Qed.

(** The global reduction reports a stream's UNTRUSTED verdict and its
    reason, whichever event triggered the reduction. *)
Lemma reduce_global_untrusted p s needle :
  needle ≠ "" →
  _state_by_stream p s = UNTRUSTED →
  contains needle (_reason_by_stream p s) →
  (_reduce_global p).1 = UNTRUSTED ∧ contains needle (_reduce_global p).2.
Proof.
  intros Hne Hst Hreason. unfold _reduce_global.
  set (items := (λ s0, (s0, _reason_by_stream p s0)) <$> all_streams).
  set (untrusted := filter (λ sr : Stream * string, _state_by_stream p sr.1 = UNTRUSTED) items).
  assert (Hin : (s, _reason_by_stream p s) ∈ untrusted).
  { apply list_elem_of_filter. split; [done|].
    apply list_elem_of_fmap. exists s. split; [done|]. destruct s; set_solver. }
  assert (Hnil : bool_decide (untrusted = []) = false).
  { apply bool_decide_false. intros Hnil. rewrite Hnil in Hin. by apply elem_of_nil in Hin. }
  rewrite Hnil. simpl.
  assert (Hc : contains needle (join ", " (labelled untrusted))).
  { apply contains_join with (stream_value s +:+ ":" +:+ _reason_by_stream p s).
    - unfold labelled. apply list_elem_of_fmap. exists (s, _reason_by_stream p s).
      split; [done|]. apply list_elem_of_filter. split; [|done].
      simpl. by apply (contains_nonempty needle).
    - by apply contains_app_r, contains_app_r. }
  split; [done|].
  rewrite bool_decide_false; [done|]. by apply (contains_nonempty needle).
Qed.

(** The first half of C5 in general: once the ORDERBOOK verdict is
    UNTRUSTED for [crossed_market], [on_event] for an event of any other
    stream, a TRADES event in particular, returns UNTRUSTED with a reason
    that contains [crossed_market], and the verdict stays. *)
Lemma on_event_reports_crossed p lob s sanitization ev p' st reason :
  s ≠ ORDERBOOK →
  _state_by_stream p ORDERBOOK = UNTRUSTED →
  contains "crossed_market" (_reason_by_stream p ORDERBOOK) →
  on_event p lob s sanitization ev = Return (p', (st, reason)) →
  st = UNTRUSTED
  ∧ contains "crossed_market" reason
  ∧ _state_by_stream p' ORDERBOOK = UNTRUSTED
  ∧ contains "crossed_market" (_reason_by_stream p' ORDERBOOK).
Proof.
  intros Hs Hst Hreason. unfold on_event.
  destruct (_trim_san _ _ _) as [[w qsum]|]; simpl; [|done].
  destruct (_eval_stream _ lob s sanitization ev) as [[ltp [st' reason']]|]; simpl; [|done].
  intros [= <- Hred].
  match type of Hred with
  | _reduce_global ?p2 = _ =>
      destruct (reduce_global_untrusted p2 ORDERBOOK "crossed_market") as [H1 H2];
        [done|simpl; by rewrite fn_lookup_insert_ne..|]
  end.
  rewrite Hred in H1, H2. simpl in H1, H2.
  split; [done|]. split; [done|]. simpl. by rewrite !fn_lookup_insert_ne.
Qed.

(** With untrusted data the decision is HALTED unless the hypothesis is
    WEAKENING. *)
Lemma compute_untrusted hypothesis :
  DecisionMachine.compute UNTRUSTED hypothesis
  = if bool_decide (hypothesis = WEAKENING) then RESTRICTED else HALTED.
Proof. by destruct hypothesis. Qed.

End crossed.


Section engine_crossed.

Import SingleDecisionEngine EngineRun.
Implicit Types (e : SingleDecisionEngine.t).


Lemma sanitize_keeps_stream s ev s' status ev' reason :
  Sanitizer.sanitize s ev = Return (s', (status, ev', reason)) → stream ev' = stream ev.
Proof.
  unfold Sanitizer.sanitize, Sanitizer.sanitize_from_symbol.
  destruct (exchange ev) as [exch|]; simpl; [|done].
  case_bool_decide; simpl; [|by intros [= _ _ <- _]].
  destruct (symbol ev) as [sym|]; repeat case_bool_decide; simpl;
    try (by intros [= _ _ <- _]);
    destruct (Sanitizer.stream_rules s ev _ _) as [s1 [why|st1 data1 reasons1]];
    try (by intros [= _ _ <- _]);
    case_bool_decide; by intros [= _ _ <- _].
Qed.

(** [on_event] on the ORDERBOOK stream takes the verdict of a crossed book. *)
Lemma on_event_orderbook_crossed p lob sanitization ev p' r :
  DataTrustPolicy.on_event p lob ORDERBOOK sanitization ev = Return (p', r) →
  crossed (OrderBookReplayer.snapshot lob) →
  crossed_verdict p'.
Proof.
  unfold DataTrustPolicy.on_event. intros Hev (bid & ask & Hbid & Hask & Hcross).
  destruct (DataTrustPolicy._trim_san _ _ _) as [[w qsum]|]; simpl in Hev; [|done].
  match type of Hev with
  | context [DataTrustPolicy._eval_stream ?p1 _ _ _ _] =>
      destruct (eval_stream_crossed p1 lob sanitization ev bid ask Hbid Hask Hcross)
        as (reason & Heval & Hreason)
  end.
  rewrite Heval in Hev. simpl in Hev. injection Hev as <- _.
  split; simpl; by rewrite fn_lookup_insert.
Qed.

(** [on_event] on another stream leaves the ORDERBOOK verdict alone. *)
Lemma on_event_other_stream p lob s sanitization ev p' r :
  s ≠ ORDERBOOK →
  DataTrustPolicy.on_event p lob s sanitization ev = Return (p', r) →
  DataTrustPolicy._state_by_stream p' ORDERBOOK = DataTrustPolicy._state_by_stream p ORDERBOOK
  ∧ DataTrustPolicy._reason_by_stream p' ORDERBOOK
    = DataTrustPolicy._reason_by_stream p ORDERBOOK.
Proof.
  intros Hs. unfold DataTrustPolicy.on_event.
  destruct (DataTrustPolicy._trim_san _ _ _) as [[w qsum]|]; simpl; [|done].
  destruct (DataTrustPolicy._eval_stream _ lob s sanitization ev)
    as [[ltp [st' reason']]|]; simpl; [|done].
  intros [= <- _]. simpl. by rewrite !fn_lookup_insert_ne.
Qed.

Lemma on_batch_keeps_verdicts p s stats p' :
  DataTrustPolicy.on_batch p s stats = Return p' →
  DataTrustPolicy._state_by_stream p' = DataTrustPolicy._state_by_stream p
  ∧ DataTrustPolicy._reason_by_stream p' = DataTrustPolicy._reason_by_stream p.
Proof.
  unfold DataTrustPolicy.on_batch.
  destruct (DataTrustPolicy._trim_align _ _ _) as [[w [[es ls] fs]]|]; simpl; [|done].
  by intros [= <-].
Qed.

Lemma set_sanitization_keeps e status now_ts :
  lob_replayer (_set_sanitization e status now_ts) = lob_replayer e
  ∧ data_trust (_set_sanitization e status now_ts) = data_trust e.
Proof. unfold _set_sanitization. by case_bool_decide. Qed.

Lemma tick_setters_keep e now_ts :
  lob_replayer (_set_hypothesis (_set_data_trust e DEGRADED now_ts) WEAKENING now_ts)
  = lob_replayer e
  ∧ data_trust (_set_hypothesis (_set_data_trust e DEGRADED now_ts) WEAKENING now_ts)
    = data_trust e.
Proof. unfold _set_hypothesis, _set_data_trust. by repeat case_bool_decide. Qed.

Lemma set_decision_keeps e now_ts trigger :
  lob_replayer (_set_decision e now_ts trigger).1 = lob_replayer e
  ∧ data_trust (_set_decision e now_ts trigger).1 = data_trust e.
Proof. unfold _set_decision. by destruct (_ || _). Qed.

#[local] Opaque _set_decision _set_sanitization _set_data_trust _set_hypothesis.

(** The loop body keeps the verdict in step with the book. *)
Lemma process_verdict_taken e now_ts ev e' :
  verdict_taken e → process e now_ts ev = Return e' → verdict_taken e'.
Proof.
  intros Hinv. unfold process.
  destruct (Sanitizer.sanitize (sanitizer e) ev) as [[san [[status fixed] why]]|] eqn:Hsan;
    simpl; [|done].
  rewrite (sanitize_keeps_stream _ _ _ _ _ _ Hsan).
  set (e1 := _set_sanitization e status now_ts).
  destruct (set_sanitization_keeps e status now_ts) as [Hlob1 Hdt1].
  fold e1 in Hlob1, Hdt1. rewrite Hlob1, Hdt1. clearbody e1.
  destruct (decide (stream ev = ORDERBOOK)) as [Hob|Hob].
  - rewrite (bool_decide_true _ Hob), Hob. simpl.
    set (lob_result := if negb (bool_decide (status = QUARANTINE))
                       then OrderBookReplayer.on_event (lob_replayer e) ev now_ts
                       else Return (lob_replayer e)).
    destruct lob_result as [lob|]; simpl; [|done].
    destruct (DataTrustPolicy.on_event (data_trust e) lob ORDERBOOK status ev)
      as [[dt [trust trust_why]]|] eqn:Hdt; simpl; [|done].
    destruct (HypothesisPolicy.verify _ lob fixed now_ts) as [[hp [hypo hypo_why]]|];
      simpl; [|done].
    match goal with
    | |- context [_set_decision ?e2 now_ts ?trig] =>
        pose proof (set_decision_keeps e2 now_ts trig) as [Hk1 Hk2];
          destruct (_set_decision e2 now_ts trig) as [e3 decision]
    end.
    simpl in Hk1, Hk2. intros [= <-]. unfold verdict_taken. simpl.
    rewrite Hk1, Hk2. intros Hcross.
    by apply (on_event_orderbook_crossed _ _ _ _ _ _ Hdt).
  - rewrite (bool_decide_false _ Hob). simpl.
    destruct (DataTrustPolicy.on_event (data_trust e) (lob_replayer e) (stream ev) status ev)
      as [[dt [trust trust_why]]|] eqn:Hdt; simpl; [|done].
    destruct (on_event_other_stream _ _ _ _ _ _ _ Hob Hdt) as [Hst Hreason].
    destruct (HypothesisPolicy.verify _ _ fixed now_ts) as [[hp [hypo hypo_why]]|];
      simpl; [|done].
    match goal with
    | |- context [_set_decision ?e2 now_ts ?trig] =>
        pose proof (set_decision_keeps e2 now_ts trig) as [Hk1 Hk2];
          destruct (_set_decision e2 now_ts trig) as [e3 decision]
    end.
    simpl in Hk1, Hk2. intros [= <-]. unfold verdict_taken, crossed_verdict. simpl.
    rewrite Hk1, Hk2, Hst, Hreason. exact Hinv.
Qed.

Lemma process_all_verdict_taken e now_ts evs e' :
  verdict_taken e → process_all e now_ts evs = Return e' → verdict_taken e'.
Proof.
  revert e. induction evs as [|ev evs IH]; intros e Hinv; simpl; [by intros [= <-]|].
  destruct (process e now_ts ev) as [e1|] eqn:Hp; simpl; [|done].
  apply IH. by apply (process_verdict_taken e now_ts ev).
Qed.

Lemma exec_verdict_taken e c e' :
  verdict_taken e → exec e c = Return e' → verdict_taken e'.
Proof.
  intros Hinv. destruct c as [now_ts ev|now_ts]; simpl.
  - unfold ingest. destruct (TimeAligner.align (aligner e) ev) as [al [evs stats]].
    destruct (DataTrustPolicy.on_batch (data_trust e) (stream ev) stats) as [dt|] eqn:Hb;
      simpl; [|done].
    destruct (on_batch_keeps_verdicts _ _ _ _ Hb) as [Hst Hreason].
    apply process_all_verdict_taken.
    unfold verdict_taken, crossed_verdict. simpl. rewrite Hst, Hreason. exact Hinv.
  - intros [= <-]. unfold tick. case_bool_decide; [done|].
    set (e1 := _set_hypothesis (_set_data_trust e DEGRADED now_ts) WEAKENING now_ts).
    destruct (tick_setters_keep e now_ts) as [Hlob1 Hdt1]. fold e1 in Hlob1, Hdt1.
    match goal with
    | |- context [_set_decision e1 now_ts ?trig] =>
        pose proof (set_decision_keeps e1 now_ts trig) as [Hk1 Hk2];
          destruct (_set_decision e1 now_ts trig) as [e3 decision]
    end.
    simpl in Hk1, Hk2. unfold verdict_taken. simpl. rewrite Hk1, Hk2, Hlob1, Hdt1.
    exact Hinv.
Qed.

Lemma run_verdict_taken e cs e' :
  verdict_taken e → run e cs = Return e' → verdict_taken e'.
Proof.
  revert e. induction cs as [|c cs IH]; intros e Hinv; simpl; [by intros [= <-]|].
  destruct (exec e c) as [e1|] eqn:Hc; simpl; [|done].
  apply IH. by apply (exec_verdict_taken e c).
Qed.

Lemma new_verdict_taken cfg now0 now1 :
  verdict_taken (SingleDecisionEngine.new cfg now0 now1).
Proof. intros (bid & ask & Hbid & _). discriminate Hbid. Qed.

(** The first half of C5 for the running engine: in whatever state a run of
    [ingest] and [tick] calls leaves a new engine, if the book is crossed
    then [on_event] for a following TRADES event returns UNTRUSTED with a
    reason that contains [crossed_market]. *)
Lemma crossed_book_is_reported cfg now0 now1 cs e lob sanitization ev p' st reason :
  run (SingleDecisionEngine.new cfg now0 now1) cs = Return e →
  crossed (OrderBookReplayer.snapshot (lob_replayer e)) →
  DataTrustPolicy.on_event (data_trust e) lob TRADES sanitization ev
  = Return (p', (st, reason)) →
  st = UNTRUSTED ∧ contains "crossed_market" reason.
Proof.
  intros Hrun Hcross Hev.
  assert (Hinv : verdict_taken e)
    by exact (run_verdict_taken _ cs e (new_verdict_taken cfg now0 now1) Hrun).
  destruct (Hinv Hcross) as [Hst Hreason].
  destruct (on_event_reports_crossed _ _ TRADES _ _ _ _ _ ltac:(done) Hst Hreason Hev)
    as (H1 & H2 & _).
  done.
Qed.

End engine_crossed.

(** C5, on an engine that has seen a ticker.  After the two snapshot rows
    the book top is bid 100 over ask 99 and the ORDERBOOK verdict is
    UNTRUSTED for [crossed_market].  The next TRADES event makes the trust
    policy return UNTRUSTED with that reason (through the global reduction),
    the hypothesis is WEAKENING (five witnesses, 10.04 bps apart at worst),
    and the decision is RESTRICTED, not HALTED. *)
Theorem crossed_market_trade_is_restricted :
  Scenario.observe
    (SingleDecisionEngine.ingest_all Scenario.engine
       [(10, Scenario.ticker_995); (20, Scenario.bid_100); (30, Scenario.ask_99)])
  = Some ((Some (100 # 1)%Q, Some (99 # 1)%Q),
          (UNTRUSTED, "orderbook:crossed_market"),
          mkEngineState ACCEPT UNTRUSTED INVALID HALTED,
          Some "hypothesis:orderbook:stabilizing elapsed_us=0 required_us=1000000 | data_trust:orderbook:crossed_market")
  ∧ Scenario.observe
      (SingleDecisionEngine.ingest_all Scenario.engine
         [(10, Scenario.ticker_995); (20, Scenario.bid_100); (30, Scenario.ask_99);
          (40, Scenario.trade_996)])
    = Some ((Some (100 # 1)%Q, Some (99 # 1)%Q),
            (UNTRUSTED, "orderbook:crossed_market"),
            mkEngineState ACCEPT UNTRUSTED WEAKENING RESTRICTED,
            Some "hypothesis:trade:worst_bps=10.0 pair=lob_mid~trades sources=5 | data_trust:orderbook:crossed_market").
Proof. split; vm_compute; reflexivity. Qed.

(** The same scenario on a fresh engine, with no ticker before: too few
    witnesses, the hypothesis stays INVALID and the decision is HALTED. *)
Lemma crossed_market_trade_fresh_engine :
  Scenario.observe
    (SingleDecisionEngine.ingest_all Scenario.engine
       [(20, Scenario.bid_100); (30, Scenario.ask_99); (40, Scenario.trade_996)])
  = Some ((Some (100 # 1)%Q, Some (99 # 1)%Q),
          (UNTRUSTED, "orderbook:crossed_market"),
          mkEngineState ACCEPT UNTRUSTED INVALID HALTED,
          Some "hypothesis:trade:no_change:insufficient_sources=2 | data_trust:orderbook:crossed_market").
Proof. vm_compute; reflexivity. Qed.

(** ** The time aligner: order of emission *)

Section aligner.

Import TimeAligner AlignerRun.
Implicit Types (a : TimeAligner.t) (heap : list entry) (x y : entry) (ev : Event).

Lemma entry_lt_ts x y : entry_lt x y = true → entry_ts x ≤ entry_ts y.
Proof. unfold entry_lt. lia. Qed.

Lemma entry_not_lt_ts x y : entry_lt x y = false → entry_ts y ≤ entry_ts x.
Proof. unfold entry_lt. lia. Qed.

Lemma elem_of_heappush heap x y : y ∈ heappush heap x ↔ y = x ∨ y ∈ heap.
Proof.
  induction heap as [|z heap IH]; simpl.
  - rewrite list_elem_of_singleton, elem_of_nil. tauto.
  - destruct (entry_lt x z); rewrite !elem_of_cons; [tauto|].
    rewrite IH. tauto.
Qed.

Lemma heappush_ok heap x :
  event_ts (entry_ev x) = Some (entry_ts x) → heap_ok heap → heap_ok (heappush heap x).
Proof.
  intros Hx [Hs Hw]. split.
  - induction Hs as [|z heap Hs IH Hz]; simpl; [repeat constructor|].
    destruct (entry_lt x z) eqn:Hlt.
    + constructor; [by constructor|].
      apply entry_lt_ts in Hlt. constructor; [done|].
      eapply Forall_impl; [exact Hz|]. simpl. intros; lia.
    + constructor; [apply IH; by inversion Hw|].
      apply Forall_forall. intros y [-> | Hy]%elem_of_heappush.
      * by apply entry_not_lt_ts.
      * by apply (proj1 (Forall_forall _ _) Hz).
  - apply Forall_forall. intros y [-> | Hy]%elem_of_heappush; [done|].
    by apply (proj1 (Forall_forall _ _) Hw).
Qed.

(** [pop_ready] splits a well-kept heap at the watermark. *)
Lemma pop_ready_split (w : Z) heap :
  heap_ok heap →
  ∃ popped,
    heap = popped ++ (pop_ready w heap).2
    ∧ (pop_ready w heap).1 = entry_ev <$> popped
    ∧ omap event_ts (pop_ready w heap).1 = entry_ts <$> popped
    ∧ Forall (λ x, entry_ts x ≤ w) popped
    ∧ Forall (λ x, w < entry_ts x) (pop_ready w heap).2.
Proof.
  intros [Hs Hw]. induction Hs as [|z heap Hs IH Hz]; simpl.
  - exists []. repeat split; constructor.
  - destruct (entry_ts z <=? w) eqn:Hle.
    + destruct IH as (popped & H1 & H2 & H3 & H4 & H5); [by inversion Hw|].
      destruct (pop_ready w heap) as [out rest]. simpl in *.
      exists (z :: popped). repeat split; simpl.
      * by f_equal.
      * by f_equal.
      * inversion Hw as [|?? Hev _]; subst. rewrite Hev. simpl. by f_equal.
      * constructor; [lia|done].
      * done.
    + exists []. repeat split; simpl; try constructor; [lia|].
      eapply Forall_impl; [exact Hz|]. simpl. intros; lia.
Qed.

Lemma heap_ok_app_r popped rest : heap_ok (popped ++ rest) → heap_ok rest.
Proof.
  intros [Hs Hw]. split.
  - by apply StronglySorted_app_1_r in Hs.
  - by apply Forall_app in Hw as [_ ?].
Qed.

(** What a call with a timestamp does, in terms of the new highest
    timestamp [last] and the watermark [w] that the pop loop uses. *)
Lemma align_some a ev ts :
  event_ts ev = Some ts →
  ∃ last w,
    ts ≤ last
    ∧ (∀ l, _last_event_ts a = Some l → l ≤ last)
    ∧ w ≤ last - allowed_lateness_us a
    ∧ _last_event_ts (align a ev).1 = Some last
    ∧ allowed_lateness_us (align a ev).1 = allowed_lateness_us a
    ∧ _heap (align a ev).1 = (pop_ready w (heappush (_heap a) (ts, _tie a, ev))).2
    ∧ (align a ev).2.1 = (pop_ready w (heappush (_heap a) (ts, _tie a, ev))).1
    ∧ late (align a ev).2.2 = (if ts <? last - allowed_lateness_us a then 1 else 0).
Proof.
  intros Hts. unfold align. rewrite Hts. simpl.
  set (last := match _last_event_ts a with
               | Some l => if l <? ts then ts else l
               | None => ts
               end).
  set (heap := heappush (_heap a) (ts, _tie a, ev)).
  assert (Hlast : ts ≤ last ∧ ∀ l, _last_event_ts a = Some l → l ≤ last).
  { subst last. destruct (_last_event_ts a) as [l|].
    - destruct (l <? ts) eqn:E; split; try lia; intros ? [= <-]; lia.
    - split; [lia|]. intros ? [=]. }
  destruct Hlast as [Hl1 Hl2].
  set (wf := match heap with
             | [] => (last - allowed_lateness_us a, false)
             | x :: _ =>
                 if max_buffer_us a <? last - allowed_lateness_us a - entry_ts x
                 then (entry_ts x + max_buffer_us a, true)
                 else (last - allowed_lateness_us a, false)
             end).
  assert (Hw : wf.1 ≤ last - allowed_lateness_us a).
  { subst wf. destruct heap as [|x ?]; simpl; [lia|].
    destruct (_ <? _) eqn:E; simpl; lia. }
  destruct wf as [w forced]. simpl in Hw.
  exists last, w.
  destruct (pop_ready w heap) as [out rest] eqn:Hpop. simpl.
  repeat split; done.
Qed.

Lemma align_none a ev :
  event_ts ev = None → (align a ev).1 = a ∧ (align a ev).2.1 = [ev].
Proof. intros Hts. unfold align. by rewrite Hts. Qed.

(** Every call keeps the heap in order and emits in timestamp order. *)
Lemma align_heap_ok a ev :
  heap_ok (_heap a) →
  heap_ok (_heap (align a ev).1) ∧ nondecreasing (omap event_ts (align a ev).2.1).
Proof.
  intros Hok. destruct (event_ts ev) as [ts|] eqn:Hts.
  - destruct (align_some a ev ts Hts) as (last & w & _ & _ & _ & _ & _ & Hh & Ho & _).
    rewrite Hh, Ho.
    assert (Hpush : heap_ok (heappush (_heap a) (ts, _tie a, ev))) by by apply heappush_ok.
    destruct (pop_ready_split w _ Hpush) as (popped & H1 & H2 & H3 & H4 & H5).
    rewrite H1 in Hpush. split; [by apply heap_ok_app_r in Hpush|].
    rewrite H3. destruct Hpush as [Hs _].
    apply StronglySorted_app_1_l in Hs. unfold nondecreasing.
    clear -Hs. induction Hs as [|z l Hs IH Hz]; simpl; constructor; [done|].
    by apply Forall_fmap.
  - destruct (align_none a ev Hts) as [-> ->]. split; [done|].
    simpl. rewrite Hts. constructor.
Qed.

(** A call that is not late keeps the aligner in step with its output. *)
Lemma align_in_step a ev out :
  in_step a out →
  late (align a ev).2.2 = 0 →
  in_step (align a ev).1 (out ++ omap event_ts (align a ev).2.1).
Proof.
  intros (Hok & Hout & Hbelow & Hmark) Hlate.
  destruct (event_ts ev) as [ts|] eqn:Hts; cycle 1.
  { destruct (align_none a ev Hts) as [-> ->]. simpl. rewrite Hts, app_nil_r.
    exact (conj Hok (conj Hout (conj Hbelow Hmark))). }
  destruct (align_some a ev ts Hts)
    as (last & w & Hts_last & Hold & Hw & Hl & Hlat & Hh & Ho & Hlt).
  rewrite Hlt in Hlate.
  assert (Hnot_late : last - allowed_lateness_us a ≤ ts)
    by (destruct (ts <? _) eqn:E; [discriminate|lia]).
  clear Hlate Hlt.
  set (heap := heappush (_heap a) (ts, _tie a, ev)) in *.
  assert (Hpush : heap_ok heap) by by apply heappush_ok.
  assert (Hbelow' : ∀ (u : Z) (v : entry), u ∈ out → v ∈ heap → u ≤ entry_ts v).
  { intros x y Hx [-> | Hy]%elem_of_heappush; [|by apply Hbelow].
    destruct (Hmark x Hx) as (l & Hsome & Hxl). specialize (Hold l Hsome).
    unfold entry_ts; simpl. lia. }
  destruct (pop_ready_split w heap Hpush) as (popped & H1 & H2 & H3 & H4 & H5).
  rewrite Ho, H3. unfold in_step. rewrite Hh, Hl, Hlat.
  set (rest := (pop_ready w heap).2) in *. clearbody rest heap.
  subst heap. destruct Hpush as [Hs Hwf].
  repeat split.
  - by apply StronglySorted_app_1_r in Hs.
  - by apply Forall_app in Hwf as [_ ?].
  - apply StronglySorted_app_2; [|done|].
    + intros x y Hx (z & -> & Hz)%list_elem_of_fmap.
      apply Hbelow'; [done|]. apply elem_of_app; by left.
    + apply StronglySorted_app_1_l in Hs. clear -Hs.
      induction Hs as [|z l Hs IH Hz]; simpl; constructor; [done|].
      by apply Forall_fmap.
  - intros x y [Hx | (z & -> & Hz)%list_elem_of_fmap]%elem_of_app Hy.
    + apply Hbelow'; [done|]. apply elem_of_app; by right.
    + by apply (StronglySorted_app_1_elem_of _ _ _ _ _ Hs).
  - intros x [Hx | (z & -> & Hz)%list_elem_of_fmap]%elem_of_app; exists last.
    + destruct (Hmark x Hx) as (l & Hsome & Hxl). specialize (Hold l Hsome).
      split; [done|lia].
    + split; [done|]. apply (proj1 (Forall_forall _ _) H4) in Hz. lia.
Qed.

Lemma in_step_new cfg : in_step (TimeAligner.new cfg) [].
Proof.
  split; [split; constructor|]. split; [constructor|].
  split; [intros u v Hu|intros u Hu]; by apply elem_of_nil in Hu.
Qed.

Lemma run_heap_ok a evs :
  heap_ok (_heap a) →
  Forall (λ r : list Event * TimeAlignmentStats, nondecreasing (omap event_ts r.1))
         (run a evs).2.
Proof.
  revert a. induction evs as [|ev evs IH]; intros a Hok; simpl; [constructor|].
  destruct (align_heap_ok a ev Hok) as [Hok' Hsorted].
  destruct (align a ev) as [a' r]. specialize (IH a' Hok').
  destruct (run a' evs) as [a'' rs]. by constructor.
Qed.

Lemma run_in_step a evs out :
  in_step a out →
  no_late (run a evs).2 →
  nondecreasing (out ++ emitted_ts (run a evs).2).
Proof.
  revert a out. induction evs as [|ev evs IH]; intros a out Hin; simpl.
  - intros _. unfold emitted_ts, emitted_events. simpl. rewrite app_nil_r. apply Hin.
  - pose proof (align_in_step a ev out Hin) as Hstep.
    destruct (align a ev) as [a' r]. specialize (IH a' (out ++ omap event_ts r.1)).
    destruct (run a' evs) as [a'' rs]. simpl in *.
    intros [Hr Hrs]%Forall_cons.
    specialize (IH (Hstep Hr) Hrs).
    unfold emitted_ts, emitted_events in *. simpl.
    by rewrite omap_app, app_assoc.
Qed.

Lemma align_run_snoc a evs ev :
  run a (evs ++ [ev])
  = (let '(a1, rs) := run a evs in let '(a2, r) := align a1 ev in (a2, rs ++ [r])).
Proof.
  revert a. induction evs as [|ev0 evs IH]; intros a; simpl.
  - by destruct (align a ev) as [a2 r].
  - destruct (align a ev0) as [a1 r0]. rewrite IH.
    destruct (run a1 evs) as [a2 rs]. by destruct (align a2 ev) as [a3 r].
Qed.

Lemma tag_from_snoc (n : nat) rs (r : list Event * TimeAlignmentStats) :
  tag_from n (rs ++ [r]) = tag_from n rs ++ ((λ e, ((n + length rs)%nat, e)) <$> r.1).
Proof.
  revert n. induction rs as [|r0 rs IH]; intros n; simpl.
  - by rewrite app_nil_r, Nat.add_0_r.
  - rewrite IH, <- app_assoc. by rewrite Nat.add_succ_r.
Qed.

Lemma emitted_by_call_snoc rs (r : list Event * TimeAlignmentStats) :
  emitted_by_call (rs ++ [r]) = emitted_by_call rs ++ ((λ e, (length rs, e)) <$> r.1).
Proof. unfold emitted_by_call. by rewrite tag_from_snoc. Qed.

Lemma pushed_late_snoc evs rs ev (r : list Event * TimeAlignmentStats) (j : nat) e :
  pushed_late evs rs j e → pushed_late (evs ++ [ev]) (rs ++ [r]) j e.
Proof.
  intros (Hev & r0 & Hr & Hlate). split; [by apply lookup_app_l_Some|].
  exists r0. split; [by apply lookup_app_l_Some|done].
Qed.

Lemma sorted_lookup {A} (R : A → A → Prop) (l : list A) (p q : nat) (u v : A) :
  StronglySorted R l → (p < q)%nat → l !! p = Some u → l !! q = Some v → R u v.
Proof.
  intros Hs. revert p q. induction Hs as [|w l Hs IH Hw]; intros p q Hpq Hp Hq.
  - by rewrite lookup_nil in Hp.
  - destruct q as [|q]; [lia|]. simpl in Hq. destruct p as [|p]; simpl in Hp.
    + injection Hp as <-. apply (proj1 (Forall_forall _ _) Hw v).
      by apply list_elem_of_lookup_2 in Hq.
    + apply (IH p q); [lia|done..].
Qed.

(** A call with a timestamp, in terms of what it pops. *)
Lemma align_pops a ev ts :
  heap_ok (_heap a) →
  event_ts ev = Some ts →
  ∃ last w popped,
    ts ≤ last
    ∧ (∀ l, _last_event_ts a = Some l → l ≤ last)
    ∧ w ≤ last - allowed_lateness_us a
    ∧ _last_event_ts (align a ev).1 = Some last
    ∧ allowed_lateness_us (align a ev).1 = allowed_lateness_us a
    ∧ heappush (_heap a) (ts, _tie a, ev) = popped ++ _heap (align a ev).1
    ∧ heap_ok (popped ++ _heap (align a ev).1)
    ∧ (align a ev).2.1 = entry_ev <$> popped
    ∧ Forall (λ z, entry_ts z ≤ w) popped
    ∧ Forall (λ y, w < entry_ts y) (_heap (align a ev).1)
    ∧ late (align a ev).2.2 = (if ts <? last - allowed_lateness_us a then 1 else 0).
Proof.
  intros Hok Hts.
  destruct (align_some a ev ts Hts)
    as (last & w & Hts_last & Hold & Hw & Hl & Hlat & Hh & Ho & Hlt).
  assert (Hpush : heap_ok (heappush (_heap a) (ts, _tie a, ev))) by by apply heappush_ok.
  destruct (pop_ready_split w _ Hpush) as (popped & H1 & H2 & H3 & H4 & H5).
  exists last, w, popped. rewrite Hh, Ho, <- H1. repeat split; try done; apply Hpush.
Qed.

Lemma elem_of_emitted_snoc rs (r : list Event * TimeAlignmentStats) (k : nat) e :
  (k, e) ∈ emitted_by_call (rs ++ [r])
  ↔ (k, e) ∈ emitted_by_call rs ∨ (k = length rs ∧ e ∈ r.1).
Proof.
  rewrite emitted_by_call_snoc, elem_of_app, list_elem_of_fmap. split.
  - intros [?|(e' & [= -> ->] & ?)]; [by left|by right].
  - intros [?|[-> ?]]; [by left|right; by exists e].
Qed.

Lemma lookup_emitted_snoc rs (r : list Event * TimeAlignmentStats) (q k : nat) e :
  emitted_by_call (rs ++ [r]) !! q = Some (k, e) →
  emitted_by_call rs !! q = Some (k, e)
  ∨ ((length (emitted_by_call rs) ≤ q)%nat ∧ k = length rs
     ∧ r.1 !! (q - length (emitted_by_call rs))%nat = Some e).
Proof.
  rewrite emitted_by_call_snoc. intros [?|[Hq Hnew]]%lookup_app_Some; [by left|right].
  rewrite list_lookup_fmap in Hnew.
  destruct (r.1 !! (q - length (emitted_by_call rs))%nat) as [e'|]; simpl in Hnew; [|done].
  by injection Hnew as <- <-.
Qed.

(** One more call keeps the history. *)
Lemma history_step a evs rs ev :
  history_ok a evs rs →
  history_ok (align a ev).1 (evs ++ [ev]) (rs ++ [(align a ev).2]).
Proof.
  intros (Hheap & Hlen & Hidx & Hmark & Hbuf & Hlate & Hon).
  set (r := (align a ev).2). set (n := length rs).
  assert (Hevs_old : ∀ (j : nat) e0, (evs ++ [ev]) !! j = Some e0 →
            (evs !! j = Some e0 ∧ (j < n)%nat) ∨ (j = n ∧ e0 = ev)).
  { intros j e0 [?|[Hj Hnew]]%lookup_app_Some.
    - left. split; [done|]. subst n. rewrite Hlen. by eapply lookup_lt_Some.
    - right. apply list_lookup_singleton_Some in Hnew as [Hj0 <-]. subst n. split; [lia|done]. }
  assert (Hrs_old : ∀ (j : nat) r0, (rs ++ [r]) !! j = Some r0 →
            (rs !! j = Some r0 ∧ (j < n)%nat) ∨ (j = n ∧ r0 = r)).
  { intros j r0 [?|[Hj Hnew]]%lookup_app_Some.
    - left. split; [done|]. by eapply lookup_lt_Some.
    - right. apply list_lookup_singleton_Some in Hnew as [Hj0 <-]. subst n. split; [lia|done]. }
  assert (Hnth_ev : (evs ++ [ev]) !! n = Some ev).
  { subst n. rewrite Hlen. by apply list_lookup_middle. }
  assert (Hnth_r : (rs ++ [r]) !! n = Some r) by by apply list_lookup_middle.
  destruct (event_ts ev) as [ts|] eqn:Hts; cycle 1.
  - (* no timestamp: handed on at once, nothing else changes *)
    destruct (align_none a ev Hts) as [Ha Hout]. rewrite Ha. fold r in Hout.
    assert (Hnew : ∀ e t, e ∈ r.1 → event_ts e = Some t → False).
    { intros e t He Het. rewrite Hout in He. apply list_elem_of_singleton in He as ->.
      congruence. }
    split; [done|]. split; [rewrite !length_app; simpl; lia|].
    split; [|split; [|split; [|split]]].
    + intros k e [Hold|[-> _]]%elem_of_emitted_snoc; rewrite length_app; simpl;
        [apply Hidx in Hold|]; lia.
    + intros k e t [Hold|[_ He]]%elem_of_emitted_snoc Het; [by eapply Hmark|].
      by destruct (Hnew e t).
    + intros k e t y [Hold|[_ He]]%elem_of_emitted_snoc Het Hy Hlt;
        [|by destruct (Hnew e t)].
      destruct (Hbuf k e t y Hold Het Hy Hlt) as (j & Hj & Hpushed).
      exists j. split; [done|]. by apply pushed_late_snoc.
    + intros p q k m e1 e2 t1 t2 Hpq Hp Hq H1 H2 Hlt.
      apply lookup_emitted_snoc in Hq as [Hq|(_ & _ & Hq)]; cycle 1.
      { destruct (Hnew e2 t2); [|done]. by apply list_elem_of_lookup_2 in Hq. }
      apply lookup_emitted_snoc in Hp as [Hp|(Hp & _)]; cycle 1.
      { apply lookup_lt_Some in Hq. lia. }
      destruct (Hlate p q k m e1 e2 t1 t2 Hpq Hp Hq H1 H2 Hlt) as (j & Hj & Hpushed).
      exists j. split; [done|]. by apply pushed_late_snoc.
    + intros j k e0 t r0 e1 t1 Hj Ht Hr Hr0 Hin Hkj H1.
      apply Hevs_old in Hj as [[Hj Hjn]|[-> ->]]; [|congruence].
      apply Hrs_old in Hr as [[Hr _]|[-> _]]; [|lia].
      apply elem_of_emitted_snoc in Hin as [Hin|[-> _]]; [|lia].
      by apply (Hon j k e0 t r0 e1 t1).
  - (* a timestamp: pushed, and what is ready is popped *)
    destruct (align_pops a ev ts Hheap Hts)
      as (last & w & popped & Hts_last & Hold & Hw & Hl & Hlat & Hpush & Hpushed_ok
          & Hout & Hpopped & Hrest & Hflag).
    fold r in Hout, Hflag.
    set (a' := (align a ev).1) in *.
    assert (Hpopped_ts : ∀ e t, e ∈ r.1 → event_ts e = Some t →
              ∃ z, z ∈ popped ∧ e = entry_ev z ∧ t = entry_ts z ∧ t ≤ w).
    { intros e t He Het. rewrite Hout in He.
      apply list_elem_of_fmap in He as (z & -> & Hz). exists z.
      destruct Hpushed_ok as [_ Hwf].
      assert (Hz' : z ∈ popped ++ _heap a') by (apply elem_of_app; by left).
      apply (proj1 (Forall_forall _ _) Hwf) in Hz'. rewrite Hz' in Het.
      injection Het as <-. repeat split; try done.
      by apply (proj1 (Forall_forall _ _) Hpopped). }
    assert (Horigin : ∀ z, z ∈ popped ++ _heap a' → z = (ts, _tie a, ev) ∨ z ∈ _heap a).
    { intros z Hz. rewrite <- Hpush in Hz. by apply elem_of_heappush in Hz. }
    assert (Hold_mark : ∀ k e t, (k, e) ∈ emitted_by_call rs → event_ts e = Some t →
              t ≤ last - allowed_lateness_us a).
    { intros k e t Hin Het. destruct (Hmark k e t Hin Het) as (l & Hsome & Htl).
      specialize (Hold l Hsome). lia. }
    assert (Hnew_late : ∀ t, ts < t → t ≤ last - allowed_lateness_us a →
              pushed_late (evs ++ [ev]) (rs ++ [r]) n ev).
    { intros t H1 H2. split; [done|]. exists r. split; [done|].
      rewrite Hflag. rewrite (proj2 (Z.ltb_lt _ _)); [done|lia]. }
    split; [by apply heap_ok_app_r in Hpushed_ok|].
    split; [rewrite !length_app; simpl; lia|].
    split; [|split; [|split; [|split]]].
    + intros k e [Hin|[-> _]]%elem_of_emitted_snoc; rewrite length_app; simpl;
        [apply Hidx in Hin|]; lia.
    + intros k e t [Hin|[_ He]]%elem_of_emitted_snoc Het; exists last; rewrite Hlat;
        (split; [done|]).
      * by eapply Hold_mark.
      * destruct (Hpopped_ts e t He Het) as (z & _ & _ & _ & ?). lia.
    + intros k e t y [Hin|[_ He]]%elem_of_emitted_snoc Het Hy Hlt.
      * destruct (Horigin y) as [->|Hy_old]; [apply elem_of_app; by right| |].
        -- exists n. split; [by apply Hidx in Hin|]. simpl.
           apply (Hnew_late t); [done|by eapply Hold_mark].
        -- destruct (Hbuf k e t y Hin Het Hy_old Hlt) as (j & Hj & Hpushed).
           exists j. split; [done|]. by apply pushed_late_snoc.
      * destruct (Hpopped_ts e t He Het) as (z & _ & _ & _ & Htw).
        apply (proj1 (Forall_forall _ _) Hrest) in Hy. lia.
    + intros p q k m e1 e2 t1 t2 Hpq Hp Hq H1 H2 Hlt.
      apply lookup_emitted_snoc in Hq as [Hq|(Hq_new & -> & Hq)].
      { apply lookup_emitted_snoc in Hp as [Hp|(Hp & _)]; cycle 1.
        { apply lookup_lt_Some in Hq. lia. }
        destruct (Hlate p q k m e1 e2 t1 t2 Hpq Hp Hq H1 H2 Hlt) as (j & Hj & Hpushed).
        exists j. split; [done|]. by apply pushed_late_snoc. }
      rewrite Hout, list_lookup_fmap in Hq.
      destruct (popped !! (q - length (emitted_by_call rs))%nat) as [z2|] eqn:Hz2;
        simpl in Hq; [|done].
      injection Hq as <-.
      assert (Hz2_in : z2 ∈ popped ++ _heap a').
      { apply elem_of_app. left. by apply list_elem_of_lookup_2 in Hz2. }
      assert (Hz2_ts : t2 = entry_ts z2).
      { destruct Hpushed_ok as [_ Hwf].
        apply (proj1 (Forall_forall _ _) Hwf) in Hz2_in. congruence. }
      apply lookup_emitted_snoc in Hp as [Hp|(Hp_new & -> & Hp)].
      * apply list_elem_of_lookup_2 in Hp.
        destruct (Horigin z2 Hz2_in) as [->|Hz2_old].
        -- exists n. split; [apply Hidx in Hp; lia|]. simpl.
           apply (Hnew_late t1); [by rewrite Hz2_ts in Hlt|by eapply Hold_mark].
        -- destruct (Hbuf k e1 t1 z2 Hp H1 Hz2_old) as (j & Hj & Hpushed); [lia|].
           exists j. split.
           ++ destruct Hpushed as [Hev _]. apply lookup_lt_Some in Hev. subst n. lia.
           ++ by apply pushed_late_snoc.
      * rewrite Hout, list_lookup_fmap in Hp.
        destruct (popped !! (p - length (emitted_by_call rs))%nat) as [z1|] eqn:Hz1;
          simpl in Hp; [|done].
        injection Hp as <-.
        assert (Hz1_ts : t1 = entry_ts z1).
        { destruct Hpushed_ok as [_ Hwf].
          assert (Hz1_in : z1 ∈ popped ++ _heap a').
          { apply elem_of_app. left. by apply list_elem_of_lookup_2 in Hz1. }
          apply (proj1 (Forall_forall _ _) Hwf) in Hz1_in. congruence. }
        destruct Hpushed_ok as [Hs _]. apply StronglySorted_app_1_l in Hs.
        assert (Hidx_lt : (p - length (emitted_by_call rs)
                           < q - length (emitted_by_call rs))%nat) by lia.
        pose proof (sorted_lookup _ popped _ _ z1 z2 Hs Hidx_lt Hz1 Hz2) as Hle.
        simpl in Hle. lia.
    + intros j k e0 t r0 e1 t1 Hj Ht Hr Hr0 Hin Hkj H1.
      apply Hevs_old in Hj as [[Hj Hjn]|[-> ->]].
      * apply Hrs_old in Hr as [[Hr _]|[-> _]]; [|lia].
        apply elem_of_emitted_snoc in Hin as [Hin|[-> _]]; [|lia].
        by apply (Hon j k e0 t r0 e1 t1).
      * apply Hrs_old in Hr as [[_ ?]|[_ ->]]; [lia|].
        apply elem_of_emitted_snoc in Hin as [Hin|[-> _]]; [|lia].
        rewrite Hts in Ht. injection Ht as <-.
        rewrite Hflag in Hr0.
        destruct (ts <? last - allowed_lateness_us a) eqn:E; [done|].
        apply Z.ltb_ge in E. pose proof (Hold_mark k e1 t1 Hin H1). lia.
Qed.

Lemma history_run cfg evs :
  history_ok (run (TimeAligner.new cfg) evs).1 evs (run (TimeAligner.new cfg) evs).2.
Proof.
  induction evs as [|ev evs IH] using rev_ind.
  - simpl. split; [split; constructor|]. split; [done|].
    unfold late_arrivals_only, on_time_is_in_order, emitted_by_call. simpl.
    repeat split; intros; try (by rewrite lookup_nil in *);
      by match goal with H : _ ∈ [] |- _ => apply elem_of_nil in H end.
  - rewrite align_run_snoc. destruct (run (TimeAligner.new cfg) evs) as [a rs].
    simpl in IH. pose proof (history_step a evs rs ev IH) as Hstep.
    by destruct (align a ev) as [a' r].
Qed.

(** C3, as the code has it.  Every single [align] call emits in
    non-decreasing [event_ts] order.  Over a whole run, only late arrivals
    are out of order: an event that its call does not flag as late is not
    older than anything the calls before it emitted, and whenever [e1] is
    emitted before [e2] and [e2] has the smaller timestamp, [e2] was pushed
    by a call made after the one that emitted [e1], and that call flagged it
    as late.  So when no call of a run flags its event as late, the events
    emitted over the whole run (those with a timestamp) are in
    non-decreasing [event_ts] order. *)
Theorem emitted_in_order_but_for_late_arrivals (cfg : TimeAlignerCfg) (evs : list Event) :
  let rs := (run (TimeAligner.new cfg) evs).2 in
  Forall (λ r : list Event * TimeAlignmentStats, nondecreasing (omap event_ts r.1)) rs
  ∧ on_time_is_in_order evs rs
  ∧ late_arrivals_only evs rs
  ∧ (no_late rs → nondecreasing (emitted_ts rs)).
Proof.
  simpl. destruct (history_run cfg evs) as (_ & _ & _ & _ & _ & Hlate & Hon).
  split; [apply run_heap_ok; split; constructor|].
  split; [done|]. split; [done|].
  intros Hno_late. apply (run_in_step _ _ [] (in_step_new cfg) Hno_late).
Qed.

Lemma emitted_in_order_but_for_late_arrivals_witness :
  let evs := [at_ts 1000000; at_ts 2000000; at_ts 500000; at_ts 3000000; at_ts 4000000] in
  let rs := (run (TimeAligner.new Scenario.s1_cfg) evs).2 in
  emitted_ts rs = [1000000; 500000; 2000000; 3000000]
  ∧ (λ r : list Event * TimeAlignmentStats, late r.2) <$> rs = [0; 0; 1; 0; 0]
  ∧ on_time_is_in_order evs rs
  ∧ late_arrivals_only evs rs
  ∧ (let evs' := [at_ts 1000000; at_ts 900000; at_ts 1200000; at_ts 1200000] in
     let rs' := (run (TimeAligner.new Scenario.s1_cfg) evs').2 in
     no_late rs' ∧ emitted_ts rs' = [900000; 1000000] ∧ nondecreasing (emitted_ts rs')).
Proof.
  assert (Hlate : no_late
            (run (TimeAligner.new Scenario.s1_cfg)
                 [at_ts 1000000; at_ts 900000; at_ts 1200000; at_ts 1200000]).2)
    by (vm_compute; repeat constructor).
  split; [reflexivity|]. split; [reflexivity|].
  split; [|split; [|split; [exact Hlate|split; [reflexivity|]]]].
  - exact (proj1 (proj2 (emitted_in_order_but_for_late_arrivals Scenario.s1_cfg
                    [at_ts 1000000; at_ts 2000000; at_ts 500000; at_ts 3000000;
                     at_ts 4000000]))).
  - exact (proj1 (proj2 (proj2 (emitted_in_order_but_for_late_arrivals Scenario.s1_cfg
                    [at_ts 1000000; at_ts 2000000; at_ts 500000; at_ts 3000000;
                     at_ts 4000000])))).
  - exact (proj2 (proj2 (proj2 (emitted_in_order_but_for_late_arrivals Scenario.s1_cfg
                    [at_ts 1000000; at_ts 900000; at_ts 1200000; at_ts 1200000]))) Hlate).
Defined.

(** C3, as it is worded, fails: an event that arrives below the watermark
    is flagged late and still buffered, and leaves after younger ones.
    Pushing 1 000 000, 2 000 000 and then 500 000 emits 1 000 000 in the
    second call and 500 000 in the third. *)
Lemma late_event_breaks_order :
  emitted_ts (run (TimeAligner.new Scenario.s1_cfg)
                  [at_ts 1000000; at_ts 2000000; at_ts 500000]).2
  = [1000000; 500000]
  ∧ ¬ emits_in_order Scenario.s1_cfg [at_ts 1000000; at_ts 2000000; at_ts 500000].
Proof.
  split; [reflexivity|].
  unfold emits_in_order, nondecreasing.
  change (emitted_ts _) with [1000000; 500000].
  intros H. apply StronglySorted_cons in H as [H _].
  apply Forall_cons in H as [H _]. lia.
Qed.

End aligner.

(** ** The order book *)

Section book.

Import OrderBook BookRun.
Implicit Types (b : OrderBook.t) (levels : gmap Qc Qc) (pxs : list Qc) (c : call).

Lemma keys_NoDup levels : NoDup (keys levels).
Proof. apply NoDup_fst_map_to_list. Qed.

Lemma keys_length levels : length (keys levels) = size levels.
Proof. unfold keys. by rewrite length_fmap, length_map_to_list. Qed.

Lemma elem_of_keys levels px : px ∈ keys levels → is_Some (levels !! px).
Proof.
  unfold keys. intros ([k v] & -> & Hkv)%list_elem_of_fmap.
  apply elem_of_map_to_list in Hkv. by exists v.
Qed.

(** Popping distinct keys that are all present removes that many levels. *)
Lemma pop_all_size levels pxs :
  NoDup pxs →
  (∀ px, px ∈ pxs → is_Some (levels !! px)) →
  size (pop_all levels pxs) = (size levels - length pxs)%nat.
Proof.
  unfold pop_all. revert levels.
  induction pxs as [|px pxs IH]; intros levels Hnd Hin; simpl; [lia|].
  apply NoDup_cons in Hnd as [Hpx Hnd].
  rewrite IH; [|done|].
  - rewrite map_size_delete_Some by (apply Hin; left). lia.
  - intros q Hq. rewrite lookup_delete_ne by (intros ->; done).
    apply Hin. by right.
Qed.














End book.

(** ** The hypothesis policy *)

Section hypothesis.

Import HypothesisPolicy HypothesisRun.
Implicit Types (p : HypothesisPolicy.t) (c : call) (cs : list call).

Lemma on_stream_keeps p ev p1 prefix :
  on_stream p ev = Return (p1, prefix) →
  _stable_since_us p1 = _stable_since_us p
  ∧ state p1 = state p
  ∧ weak_price_diverge_bps p1 = weak_price_diverge_bps p
  ∧ stable_min_duration_us p1 = stable_min_duration_us p.
Proof.
  unfold on_stream. destruct (stream ev); try (intros [= <- _]; done).
  destruct (getitem (data ev) "mark_price"); simpl; [|done].
  destruct (getitem (data ev) "index_price"); simpl; [|done].
  destruct (getitem (data ev) "last_price"); simpl; [|done].
  intros [= <- _]. done.
Qed.

(** The three ways a call can go: nothing evaluated, the stable window is
    reset, or the call is steady and the window runs on. *)
Lemma step_cases p c :
  weak_price_diverge_bps (step p c) = weak_price_diverge_bps p
  ∧ stable_min_duration_us (step p c) = stable_min_duration_us p
  ∧ ((worst_seen p c = None
      ∧ _stable_since_us (step p c) = _stable_since_us p
      ∧ state (step p c) = state p)
     ∨ (_stable_since_us (step p c) = None ∧ state (step p c) ≠ VALID)
     ∨ (∃ worst since,
          worst_seen p c = Some worst
          ∧ (worst < weak_price_diverge_bps p)%Qc
          ∧ since = default (call_now_us c) (_stable_since_us p)
          ∧ _stable_since_us (step p c) = Some since
          ∧ ((state (step p c) = state p
              ∧ call_now_us c - since < stable_min_duration_us p)
             ∨ (state (step p c) = VALID
                ∧ stable_min_duration_us p ≤ call_now_us c - since)))).
Proof.
  unfold step, worst_seen, verify.
  destruct (on_stream p (call_ev c)) as [[p1 prefix]|] eqn:Hs; simpl;
    [|split; [done|split; [done|left; done]]].
  destruct (on_stream_keeps _ _ _ _ Hs) as (Hsince & Hstate & Hweak & Hmin).
  destruct (_collect_prices p1 _ (call_ev c)) as [prices|]; simpl;
    [|split; [done|split; [done|left; done]]].
  unfold decide_state.
  destruct (ok (_consensus prices)); simpl;
    [|split; [done|split; [done|left; done]]].
  set (worst := default (Qc_of_Z 0) (worst_bps (_consensus prices))).
  case_bool_decide as Hinv; simpl; [split; [done|split; [done|right; left; done]]|].
  case_bool_decide as Hweak'; simpl; [split; [done|split; [done|right; left; done]]|].
  rewrite <-Hweak, <-Hmin, <-Hsince, <-Hstate.
  destruct (_ <? _) eqn:Hlt; simpl; (split; [done|split; [done|right; right]]);
    exists worst, (default (call_now_us c) (_stable_since_us p1));
    (split; [done|]); (split; [by apply Qcnot_le_lt|]); (split; [done|]);
    (split; [done|]); [left|right]; (split; [done|lia]).
Qed.

Lemma run_snoc p cs c : run p (cs ++ [c]) = step (run p cs) c.
Proof. unfold run. by rewrite foldl_app. Qed.

Lemma trace_snoc p cs c : trace p (cs ++ [c]) = trace p cs ++ [(run p cs, c)].
Proof.
  revert p. induction cs as [|c' cs IH]; intros p; simpl; [done|].
  by rewrite IH.
Qed.

Lemma run_keeps_cfg p cs :
  weak_price_diverge_bps (run p cs) = weak_price_diverge_bps p
  ∧ stable_min_duration_us (run p cs) = stable_min_duration_us p.
Proof.
  induction cs as [|c cs IH] using rev_ind; [done|].
  rewrite run_snoc. destruct (step_cases (run p cs) c) as (-> & -> & _). exact IH.
Qed.

Lemma stable_window_snoc tr pc since :
  stable_window tr since → steady pc → stable_window (tr ++ [pc]) since.
Proof.
  intros (earlier & first & rest & -> & Hnow & Hall) Hpc.
  exists earlier, first, (rest ++ [pc]). split; [by rewrite <-app_assoc|].
  split; [done|]. rewrite app_comm_cons. apply Forall_app. split; [done|].
  by constructor.
Qed.

(** Whenever [_stable_since_us] is set, it is the time of a call that
    begins a stable window reaching up to the present. *)
Lemma stable_since_window p cs :
  _stable_since_us p = None →
  ∀ since,
    _stable_since_us (run p cs) = Some since → stable_window (trace p cs) since.
Proof.
  intros Hnone. induction cs as [|c cs IH] using rev_ind; intros since.
  - simpl. by rewrite Hnone.
  - rewrite run_snoc, trace_snoc.
    destruct (step_cases (run p cs) c)
      as (_ & _ & [(Hw & -> & _) | [(-> & _) | (w & t & Hw & Hlt & Ht & -> & _)]]).
    + intros Hsince. apply stable_window_snoc; [by apply IH|].
      unfold steady. simpl. by rewrite Hw.
    + done.
    + intros [= <-].
      assert (Hsteady : steady (run p cs, c)) by (unfold steady; simpl; by rewrite Hw).
      destruct (_stable_since_us (run p cs)) as [t'|] eqn:Ht'; simpl in Ht; subst t.
      * apply stable_window_snoc; [by apply IH|done].
      * exists (trace p cs), (run p cs, c), [].
        split; [done|]. split; [done|]. by repeat constructor.
Qed.

(** C7.  The policy starts INVALID.  Whenever a [verify] call takes it from
    WEAKENING or INVALID to VALID, the run up to and including that call
    ends with a window of calls that begins at least
    [stable_min_duration_us] before the call and in which every consensus
    evaluation gave [worst_bps] below [weak_price_diverge_bps]. *)
Theorem valid_needs_stable_window (cfg : HypothesisCfg) cs c :
  state (HypothesisPolicy.new cfg) = INVALID
  ∧ (state (run (HypothesisPolicy.new cfg) cs) = WEAKENING
     ∨ state (run (HypothesisPolicy.new cfg) cs) = INVALID →
     state (step (run (HypothesisPolicy.new cfg) cs) c) = VALID →
     ∃ since,
       stable_window (trace (HypothesisPolicy.new cfg) (cs ++ [c])) since
       ∧ cfg_stable_min_duration_ms cfg * 1000 ≤ call_now_us c - since
       ∧ Forall (λ pc, weak_price_diverge_bps pc.1 = cfg_weak_price_diverge_bps cfg)
                (trace (HypothesisPolicy.new cfg) (cs ++ [c]))).
Proof.
  split; [done|]. intros Hbefore Hafter.
  set (p0 := HypothesisPolicy.new cfg) in *.
  destruct (run_keeps_cfg p0 cs) as [Hweak Hmin].
  destruct (step_cases (run p0 cs) c)
    as (_ & _ & [(_ & _ & Hsame) | [(_ & Hne) | (w & t & _ & _ & _ & Hsince & Hst)]]).
  - rewrite Hsame in Hafter. rewrite Hafter in Hbefore. by destruct Hbefore.
  - done.
  - destruct Hst as [[Hsame _] | [_ Hlong]].
    { rewrite Hsame in Hafter. rewrite Hafter in Hbefore. by destruct Hbefore. }
    exists t. split; [|split].
    + apply stable_since_window; [done|]. by rewrite run_snoc.
    + by rewrite Hmin in Hlong.
    + clear. generalize (cs ++ [c]). intros l.
      assert (H : ∀ p, weak_price_diverge_bps p = cfg_weak_price_diverge_bps cfg →
                  Forall (λ pc, weak_price_diverge_bps pc.1
                                = cfg_weak_price_diverge_bps cfg) (trace p l)).
      { induction l as [|c' l IH]; intros p Hp; simpl; constructor; [done|].
        apply IH. by destruct (step_cases p c') as (-> & _). }
      by apply H.
Qed.

Lemma valid_needs_stable_window_witness :
  state (run (HypothesisPolicy.new s5_cfg) s5_before) = WEAKENING
  ∧ state (step (run (HypothesisPolicy.new s5_cfg) s5_before) s5_last) = VALID
  ∧ ∃ since,
      stable_window (trace (HypothesisPolicy.new s5_cfg) (s5_before ++ [s5_last])) since
      ∧ cfg_stable_min_duration_ms s5_cfg * 1000 ≤ call_now_us s5_last - since
      ∧ Forall (λ pc, weak_price_diverge_bps pc.1 = cfg_weak_price_diverge_bps s5_cfg)
               (trace (HypothesisPolicy.new s5_cfg) (s5_before ++ [s5_last])).
Proof.
  assert (H1 : state (run (HypothesisPolicy.new s5_cfg) s5_before) = WEAKENING)
    by (vm_compute; reflexivity).
  assert (H2 : state (step (run (HypothesisPolicy.new s5_cfg) s5_before) s5_last) = VALID)
    by (vm_compute; reflexivity).
  split; [exact H1|]. split; [exact H2|].
  exact (proj2 (valid_needs_stable_window s5_cfg s5_before s5_last) (or_introl H1) H2).
Defined.

End hypothesis.

(** * Further properties *)

(** ** The decision machine *)

(** ALLOWED is decided for trusted data under a valid hypothesis and for
    nothing else. *)
Lemma allowed_iff_trusted_and_valid data_trust hypothesis :
  DecisionMachine.compute data_trust hypothesis = ALLOWED
  ↔ data_trust = TRUSTED ∧ hypothesis = VALID.
Proof.
  destruct data_trust, hypothesis; simpl; split;
    solve [done | intros [? ?]; done].
Qed.

(** ** Dwell trackers *)

Section dwell.

Import DwellTracker DwellRun.
Implicit Types (d : DwellTracker.t) (m : gmap string Z).

Lemma flush_well_formed d now_us :
  well_formed d →
  dom (flush d now_us).1 = dom (flush d now_us).2
  ∧ map_Forall (λ _ n, 1 ≤ n) (flush d now_us).2
  ∧ map_Forall (λ _ total, 0 ≤ total) (flush d now_us).1.
Proof.
  intros (Hdom & Hent & Htot). unfold flush. simpl.
  split; [by rewrite !dom_insert_L, Hdom|]. split.
  - apply map_Forall_insert_2; [|done].
    destruct (entries d !! current d) as [n|] eqn:Hn; simpl; [|lia].
    specialize (Hent _ _ Hn). simpl in Hent. lia.
  - apply map_Forall_insert_2; [|done].
    destruct (total_us d !! current d) as [t|] eqn:Ht; simpl; [|lia].
    specialize (Htot _ _ Ht). simpl in Htot. lia.
Qed.

Lemma exec_well_formed d c : well_formed d → well_formed (exec d c).
Proof.
  intros Hd. destruct (flush_well_formed d
    (match c with Switch _ t => t | Close t => t end) Hd) as (H1 & H2 & H3).
  destruct c as [new_label now_us|now_us]; simpl.
  - unfold switch. case_bool_decide; [done|].
    destruct (flush d now_us) as [tot ent]. by repeat split.
  - unfold close. destruct (flush d now_us) as [tot ent]. by repeat split.
Qed.

(** For every tracker that [switch] and [close] calls have worked on, the
    totals and the entry counts have the same labels, every count is at
    least 1 and every total is non-negative; so the average that
    [snapshot] reports is the total divided by the number of entries, and
    the guard [max(1, ...)] never changes it. *)
Theorem tracker_well_formed (label : string) (start_us : Z) (cs : list call) :
  let d := run (DwellTracker.new label start_us) cs in
  well_formed d
  ∧ ∀ state total,
      total_us d !! state = Some total →
      ∃ n, entries d !! state = Some n ∧ 1 ≤ n ∧ 0 ≤ total
           ∧ avg_us d !! state = Some (total `div` n).
Proof.
  simpl.
  assert (Hwf : well_formed (run (DwellTracker.new label start_us) cs)).
  { unfold run.
    assert (H0 : well_formed (DwellTracker.new label start_us)).
    { split; [done|]. split; apply map_Forall_empty. }
    revert H0. generalize (DwellTracker.new label start_us).
    induction cs as [|c cs IH]; intros d Hd; simpl; [done|].
    by apply IH, exec_well_formed. }
  split; [done|]. intros state total Hst.
  destruct Hwf as (Hdom & Hent & Htot).
  assert (Hin : state ∈ dom (entries (run (DwellTracker.new label start_us) cs))).
  { rewrite <-Hdom. apply elem_of_dom. by exists total. }
  apply elem_of_dom in Hin as [n Hn]. exists n.
  pose proof (Hent _ _ Hn) as Hn1. pose proof (Htot _ _ Hst) as Ht0. simpl in *.
  repeat split; try done.
  unfold avg_us. rewrite map_lookup_imap, Hst. simpl. rewrite Hn. simpl.
  do 2 f_equal. lia.
Qed.

Lemma sum_values_insert m k v :
  sum_values (<[k := v]> m) = v + sum_values (delete k m).
Proof.
  unfold sum_values. rewrite <-insert_delete_eq.
  rewrite map_fold_insert_L; [done| |apply lookup_delete_eq].
  intros; lia.
Qed.

Lemma sum_values_lookup m k :
  sum_values m = default 0 (m !! k) + sum_values (delete k m).
Proof.
  destruct (m !! k) as [v|] eqn:Hk; simpl.
  - rewrite <-(insert_id m k v Hk) at 1. apply sum_values_insert.
  - by rewrite delete_id.
Qed.

Lemma sum_values_flush d now_us :
  sum_values (flush d now_us).1 = sum_values (total_us d) + Z.max 0 (now_us - enter_us d).
Proof.
  unfold flush. simpl. rewrite sum_values_insert.
  rewrite (sum_values_lookup (total_us d) (current d)). lia.
Qed.

(** While the clock does not run backwards, the totals account for all
    the time between the tracker's creation and its last entry. *)
Lemma switches_account d (start_us : Z) (steps : list (string * Z)) :
  sum_values (total_us d) = enter_us d - start_us →
  Sorted Z.le (enter_us d :: steps.*2) →
  let d' := run d (switches steps) in
  sum_values (total_us d') = enter_us d' - start_us
  ∧ (∀ now_us, Forall (λ t, t ≤ now_us) (enter_us d :: steps.*2) → enter_us d' ≤ now_us).
Proof.
  simpl. revert d. induction steps as [|[l t] steps IH]; intros d Hsum Hsorted; simpl.
  - split; [done|]. intros now_us H. by apply Forall_cons in H as [? _].
  - apply Sorted_inv in Hsorted as [Hsorted Hhd]. apply HdRel_inv in Hhd.
    simpl in Hhd.
    assert (Hstep : sum_values (total_us (switch d l t)) = enter_us (switch d l t) - start_us
                    ∧ (enter_us (switch d l t) = enter_us d ∨ enter_us (switch d l t) = t)).
    { unfold switch. case_bool_decide; [split; [done|by left]|].
      pose proof (sum_values_flush d t) as Hf.
      destruct (flush d t) as [tot ent]. simpl in *. split; [lia|by right]. }
    destruct Hstep as [Hsum' Henter].
    destruct (IH (switch d l t) Hsum') as [H1 H2].
    { destruct Henter as [-> | ->]; [|done].
      pose proof Hsorted as Hs. apply Sorted_inv in Hs as [Hs' Hhd'].
      constructor; [done|].
      destruct steps as [|[l' t'] steps]; simpl in *; constructor.
      apply HdRel_inv in Hhd'. lia. }
    split; [done|]. intros now_us Hall. apply H2.
    apply Forall_cons in Hall as [Hd Hall]. constructor; [|by apply Forall_cons in Hall as [_ ?]].
    destruct Henter as [-> | ->]; [done|]. by apply Forall_cons in Hall as [? _].
Qed.

(** A tracker created at [start_us], switched at times that do not go
    backwards and closed at [now_us], not before the last switch: the
    totals of all labels add up to [now_us - start_us], the time the
    tracker was alive. *)
Theorem dwell_totals_add_up (label : string) (start_us now_us : Z)
    (steps : list (string * Z)) :
  Sorted Z.le (start_us :: steps.*2) →
  Forall (λ t, t ≤ now_us) (start_us :: steps.*2) →
  sum_values
    (total_us (run (DwellTracker.new label start_us) (switches steps ++ [Close now_us])))
  = now_us - start_us.
Proof.
  intros Hsorted Hbound.
  assert (Happ : run (DwellTracker.new label start_us) (switches steps ++ [Close now_us])
                 = close (run (DwellTracker.new label start_us) (switches steps)) now_us)
    by (unfold run; by rewrite foldl_app).
  rewrite Happ.
  destruct (switches_account (DwellTracker.new label start_us) start_us steps)
    as [Hsum Henter];
    [unfold DwellTracker.new, sum_values; simpl;
     by rewrite map_fold_empty, Z.sub_diag|done|].
  set (d := run (DwellTracker.new label start_us) (switches steps)) in *.
  specialize (Henter now_us Hbound).
  unfold close. pose proof (sum_values_flush d now_us) as Hf.
  destruct (flush d now_us) as [tot ent]. simpl in Hf |- *. lia.
Qed.

Lemma dwell_totals_add_up_witness :
  sum_values
    (total_us (run (DwellTracker.new "QUARANTINE" 100)
                   (switches [("ACCEPT", 150); ("ACCEPT", 170); ("REPAIR", 400)]
                    ++ [Close 1000])))
  = 1000 - 100.
Proof.
  apply (dwell_totals_add_up "QUARANTINE" 100 1000
           [("ACCEPT", 150); ("ACCEPT", 170); ("REPAIR", 400)]).
  - simpl. repeat constructor; lia.
  - simpl. repeat constructor; lia.
Defined.

End dwell.

(** ** Engine statistics: the other counters *)

Section stats_more.

Import StatsMore.

Lemma balanced_exec s c : balanced s → balanced (StatsRun.exec s c).
Proof.
  unfold balanced. intros H.
  destruct c as [san trust hypo decision| | | | | ]; simpl; try exact H.
  destruct san, trust, hypo; lia.
Qed.

Lemma balanced_run cs : balanced (StatsRun.run cs).
Proof.
  unfold StatsRun.run.
  assert (H0 : balanced EngineStats.new) by (unfold balanced; simpl; lia).
  revert H0. generalize EngineStats.new.
  induction cs as [|c cs IH]; intros s Hs; simpl; [exact Hs|].
  apply IH, balanced_exec, Hs.
Qed.

(** In the summary of any run, the three counters under
    [events_by_state.data_trust] add up to [total_events], so do the three
    under [events_by_state.hypothesis], and [quarantine_events] and
    [repair_events] together do not exceed it. *)
Theorem summary_counters_balance (cs : list StatsRun.call) (now_us : Z) :
  let summary := (EngineStats.finalize (StatsRun.run cs) now_us).2 in
  ∃ trusted degraded untrusted valid weakening invalid,
    by_state summary "data_trust" "TRUSTED" = Some trusted
    ∧ by_state summary "data_trust" "DEGRADED" = Some degraded
    ∧ by_state summary "data_trust" "UNTRUSTED" = Some untrusted
    ∧ by_state summary "hypothesis" "VALID" = Some valid
    ∧ by_state summary "hypothesis" "WEAKENING" = Some weakening
    ∧ by_state summary "hypothesis" "INVALID" = Some invalid
    ∧ Summary.total_events summary = trusted + degraded + untrusted
    ∧ Summary.total_events summary = valid + weakening + invalid
    ∧ 0 ≤ Summary.quarantine_events summary
    ∧ 0 ≤ Summary.repair_events summary
    ∧ Summary.quarantine_events summary + Summary.repair_events summary
      ≤ Summary.total_events summary.
Proof.
  simpl. destruct (balanced_run cs) as (H1 & H2 & H3 & H4 & H5).
  eexists _, _, _, _, _, _.
  repeat split; try (unfold by_state; simpl; by simplify_map_eq); done.
Qed.

End stats_more.

(** ** The time aligner: what is kept and what leaves *)

Section aligner_more.

Import TimeAligner AlignerRun AlignerMore.
Implicit Types (a : TimeAligner.t) (heap : list entry) (ev : Event).

Lemma heappush_Permutation heap (x : entry) : heappush heap x ≡ₚ x :: heap.
Proof.
  induction heap as [|y heap IH]; simpl; [done|].
  destruct (entry_lt x y); [done|]. rewrite IH. apply Permutation_swap.
Qed.

Lemma pop_ready_app (w : Z) heap :
  ∃ popped,
    heap = popped ++ (pop_ready w heap).2 ∧ (pop_ready w heap).1 = entry_ev <$> popped.
Proof.
  induction heap as [|x heap (popped & H1 & H2)]; simpl; [by exists []|].
  destruct (entry_ts x <=? w); [|by exists []].
  destruct (pop_ready w heap) as [out rest]. simpl in *.
  exists (x :: popped). simpl. by rewrite <-H1, H2.
Qed.

(** One call neither loses nor duplicates an event. *)
Lemma align_conserves a ev :
  (align a ev).2.1 ++ buffered (align a ev).1 ≡ₚ ev :: buffered a.
Proof.
  unfold buffered. destruct (event_ts ev) as [ts|] eqn:Hts.
  - destruct (align_some a ev ts Hts) as (last & w & _ & _ & _ & _ & _ & Hh & Ho & _).
    rewrite Hh, Ho.
    destruct (pop_ready_app w (heappush (_heap a) (ts, _tie a, ev))) as (popped & H1 & H2).
    rewrite H2, <-fmap_app, <-H1, heappush_Permutation. done.
  - by destruct (align_none a ev Hts) as [-> ->].
Qed.

(** Over any run on a new aligner, the events emitted so far together with
    the events still in the buffer are exactly the events pushed: nothing is
    dropped, nothing comes out twice, late or not. *)
Theorem aligner_conserves_events (cfg : TimeAlignerCfg) (evs : list Event) :
  let '(a, rs) := run (TimeAligner.new cfg) evs in
  emitted_events rs ++ buffered a ≡ₚ evs.
Proof.
  assert (H : ∀ a, let '(a', rs) := run a evs in
                   emitted_events rs ++ buffered a' ≡ₚ evs ++ buffered a).
  { induction evs as [|ev evs IH]; intros a; simpl; [done|].
    pose proof (align_conserves a ev) as Hc.
    destruct (align a ev) as [a1 [out st]]. specialize (IH a1).
    destruct (run a1 evs) as [a2 rs]. simpl in *.
    unfold emitted_events in *. simpl.
    rewrite <-app_assoc, IH. rewrite (Permutation_app_comm evs), app_assoc, Hc.
    simpl. by rewrite Permutation_app_comm. }
  specialize (H (TimeAligner.new cfg)).
  destruct (run (TimeAligner.new cfg) evs) as [a rs].
  by rewrite H, app_nil_r.
Qed.

Lemma reachable_heap_ok a : reachable a → heap_ok (_heap a).
Proof.
  intros (cfg & evs & ->).
  assert (H : ∀ a0, heap_ok (_heap a0) → heap_ok (_heap (run a0 evs).1)).
  { induction evs as [|ev evs IH]; intros a0 H0; simpl; [done|].
    destruct (align_heap_ok a0 ev H0) as [H1 _].
    destruct (align a0 ev) as [a1 r]. specialize (IH a1 H1).
    by destruct (run a1 evs). }
  apply H. split; constructor.
Qed.

(** A timestamped event pushed into a running aligner: what the call
    reports is what it did ([pushed = 1], [emitted] and [buffer_len] are the
    lengths of the emitted list and of the buffer); nothing younger than the
    watermark [_last_event_ts - allowed_lateness_us] is emitted; and unless
    the call reports a forced flush, nothing at or below the watermark stays
    in the buffer. *)
Theorem align_respects_watermark a ev ts :
  reachable a →
  event_ts ev = Some ts →
  let '(a', (out, st)) := align a ev in
  ∃ watermark,
    _compute_watermark a' = Some watermark
    ∧ pushed st = 1
    ∧ emitted st = Z.of_nat (length out)
    ∧ buffer_len st = Z.of_nat (length (_heap a'))
    ∧ (late st = 1 ↔ ts < watermark)
    ∧ Forall (λ e, ∃ t, event_ts e = Some t ∧ t ≤ watermark) out
    ∧ (forced_flush st = false → Forall (λ x, watermark < entry_ts x) (_heap a')).
Proof.
  intros Hreach Hts. apply reachable_heap_ok in Hreach.
  assert (Hpush : heap_ok (heappush (_heap a) (ts, _tie a, ev))) by by apply heappush_ok.
  unfold align. rewrite Hts. simpl.
  set (last := match _last_event_ts a with
               | Some l => if l <? ts then ts else l
               | None => ts
               end).
  set (heap := heappush (_heap a) (ts, _tie a, ev)) in *.
  set (wm := last - allowed_lateness_us a).
  destruct (match heap with
            | [] => (wm, false)
            | x :: _ => if max_buffer_us a <? wm - entry_ts x
                        then (entry_ts x + max_buffer_us a, true) else (wm, false)
            end) as [w forced] eqn:Hw.
  assert (Hle : w ≤ wm ∧ (forced = false → w = wm)).
  { destruct heap as [|x ?]; [by injection Hw as <- <-|].
    destruct (max_buffer_us a <? wm - entry_ts x) eqn:E; injection Hw as <- <-;
      split; try lia; done. }
  destruct Hle as [Hle Hnf].
  destruct (pop_ready_split w heap Hpush) as (popped & H1 & H2 & H3 & H4 & H5).
  destruct (pop_ready w heap) as [out rest] eqn:Hpop. simpl in *.
  exists wm. repeat split; try done.
  - destruct (ts <? wm) eqn:E; [lia|done].
  - destruct (ts <? wm) eqn:E; [done|lia].
  - subst out. apply Forall_fmap, Forall_forall. intros x Hx. simpl.
    destruct Hpush as [_ Hwf]. rewrite H1 in Hwf. apply Forall_app in Hwf as [Hwf _].
    exists (entry_ts x). split; [by apply (proj1 (Forall_forall _ _) Hwf)|].
    apply (proj1 (Forall_forall _ _) H4) in Hx. lia.
  - intros Hf. rewrite (Hnf Hf) in H5. done.
Qed.

Lemma align_respects_watermark_witness :
  let a := (run (TimeAligner.new Scenario.s1_cfg) [at_ts 1000000; at_ts 900000]).1 in
  let '(a', (out, st)) := align a (at_ts 1200000) in
  ∃ watermark,
    _compute_watermark a' = Some watermark
    ∧ pushed st = 1
    ∧ emitted st = Z.of_nat (length out)
    ∧ buffer_len st = Z.of_nat (length (_heap a'))
    ∧ (late st = 1 ↔ 1200000 < watermark)
    ∧ Forall (λ e, ∃ t, event_ts e = Some t ∧ t ≤ watermark) out
    ∧ (forced_flush st = false → Forall (λ x, watermark < entry_ts x) (_heap a')).
Proof.
  apply (align_respects_watermark
           (run (TimeAligner.new Scenario.s1_cfg) [at_ts 1000000; at_ts 900000]).1
           (at_ts 1200000) 1200000).
  - exists Scenario.s1_cfg, [at_ts 1000000; at_ts 900000]. reflexivity.
  - reflexivity.
Defined.

Lemma align_bookkeeping a ev ts :
  event_ts ev = Some ts →
  _tie (align a ev).1 = _tie a + 1
  ∧ _last_event_ts (align a ev).1
    = Some (match _last_event_ts a with Some l => Z.max l ts | None => ts end)
  ∧ ∃ w, _heap (align a ev).1 = (pop_ready w (heappush (_heap a) (ts, _tie a, ev))).2.
Proof.
  intros Hts. unfold align. rewrite Hts. simpl.
  set (last := match _last_event_ts a with
               | Some l => if l <? ts then ts else l
               | None => ts
               end).
  assert (Hlast : last = match _last_event_ts a with Some l => Z.max l ts | None => ts end).
  { subst last. destruct (_last_event_ts a) as [l|]; [|done].
    destruct (l <? ts) eqn:E; lia. }
  set (heap := heappush (_heap a) (ts, _tie a, ev)).
  destruct (match heap with
            | [] => (last - allowed_lateness_us a, false)
            | x :: _ =>
                if max_buffer_us a <? last - allowed_lateness_us a - entry_ts x
                then (entry_ts x + max_buffer_us a, true)
                else (last - allowed_lateness_us a, false)
            end) as [w forced].
  destruct (pop_ready w heap) as [out rest] eqn:Hpop. simpl.
  split; [done|]. split; [by rewrite Hlast|]. exists w. by rewrite Hpop.
Qed.

Lemma run_snoc_fst a evs ev : (run a (evs ++ [ev])).1 = (align (run a evs).1 ev).1.
Proof.
  revert a. induction evs as [|e evs IH]; intros a; simpl.
  - by destruct (align a ev).
  - destruct (align a e) as [a1 r]. specialize (IH a1).
    destruct (run a1 (evs ++ [ev])), (run a1 evs). simpl in *. done.
Qed.

(** The bookkeeping of a run on a new aligner: [_tie] has counted the
    timestamped events; the entries in the buffer carry pairwise distinct
    ties below [_tie], so that comparing two entries never gets as far as
    comparing events; and [_last_event_ts] is the highest timestamp pushed
    so far ([None] exactly when no event had one). *)
Theorem aligner_bookkeeping (cfg : TimeAlignerCfg) (evs : list Event) :
  let a := (run (TimeAligner.new cfg) evs).1 in
  _tie a = Z.of_nat (length (omap event_ts evs))
  ∧ NoDup (entry_tie <$> _heap a)
  ∧ Forall (λ x, 0 ≤ entry_tie x < _tie a) (_heap a)
  ∧ (∀ l, _last_event_ts a = Some l → l ∈ omap event_ts evs)
  ∧ Forall (λ ts, ∃ l, _last_event_ts a = Some l ∧ ts ≤ l) (omap event_ts evs).
Proof.
  simpl. induction evs as [|ev evs IH] using rev_ind.
  - simpl. repeat split; try constructor. intros l [=].
  - rewrite run_snoc_fst, omap_app. simpl.
    set (a := (run (TimeAligner.new cfg) evs).1) in *.
    destruct IH as (Htie & Hnd & Hlt & Hin & Hmax).
    destruct (event_ts ev) as [ts|] eqn:Hts; cycle 1.
    { destruct (align_none a ev Hts) as [-> _]. by rewrite app_nil_r. }
    destruct (align_bookkeeping a ev ts Hts) as (Htie' & Hlast' & w & Hheap).
    assert (Hpush : NoDup (entry_tie <$> heappush (_heap a) (ts, _tie a, ev))
                    ∧ Forall (λ x, 0 ≤ entry_tie x < _tie a + 1)
                             (heappush (_heap a) (ts, _tie a, ev))).
    { rewrite heappush_Permutation. split.
      - simpl. apply NoDup_cons. split; [|done].
        intros (x & Hx & Hxin)%list_elem_of_fmap.
        apply (proj1 (Forall_forall _ _) Hlt) in Hxin. unfold entry_tie in *. simpl in *. lia.
      - constructor; [unfold entry_tie; simpl; lia|].
        eapply Forall_impl; [exact Hlt|]. simpl. intros; lia. }
    destruct Hpush as [Hnd' Hlt'].
    destruct (pop_ready_app w (heappush (_heap a) (ts, _tie a, ev))) as (popped & H1 & _).
    rewrite H1 in Hnd', Hlt'. rewrite fmap_app in Hnd'.
    apply NoDup_app in Hnd' as (_ & _ & Hnd'). apply Forall_app in Hlt' as [_ Hlt'].
    rewrite Hheap, Htie', Hlast', length_app. simpl.
    split; [lia|]. split; [done|]. split; [done|]. split.
    + intros l [= <-]. apply elem_of_app.
      destruct (_last_event_ts a) as [l0|] eqn:Hl0; [|right; by left].
      destruct (Z.max_spec l0 ts) as [[_ ->] | [_ ->]]; [right; by left|].
      left. by apply Hin.
    + apply Forall_app. split.
      * eapply Forall_impl; [exact Hmax|]. simpl. intros t (l & Hl & Htl).
        rewrite Hl. eexists. split; [done|]. lia.
      * constructor; [|constructor]. eexists. split; [done|].
        destruct (_last_event_ts a); lia.
Qed.

End aligner_more.

(** ** The order book: top of book and trimming *)

Section book_more.

Import OrderBook BookRun BookMore.
Implicit Types (b : OrderBook.t) (levels : gmap Qc Qc) (pxs : list Qc) (px : Qc).

Lemma keys_elem_of levels px : px ∈ keys levels ↔ has_level levels px.
Proof.
  unfold keys, has_level. split.
  - apply elem_of_keys.
  - intros [v Hv]. apply list_elem_of_fmap. exists (px, v). split; [done|].
    by apply elem_of_map_to_list.
Qed.

Lemma keys_nil levels : keys levels = [] ↔ levels = ∅.
Proof.
  unfold keys. split.
  - intros H. apply fmap_nil_inv in H. by apply map_to_list_empty_iff.
  - intros ->. by rewrite map_to_list_empty.
Qed.

Lemma Qc_max_cases x y : (Qc_max x y = x ∧ y ≤ x)%Qc ∨ (Qc_max x y = y ∧ x ≤ y)%Qc.
Proof.
  unfold Qc_max. destruct (decide (x ≤ y)%Qc) as [H|H]; [by right|left].
  split; [done|]. by apply Qclt_le_weak, Qcnot_le_lt.
Qed.

Lemma Qc_min_cases x y : (Qc_min x y = x ∧ x ≤ y)%Qc ∨ (Qc_min x y = y ∧ y ≤ x)%Qc.
Proof.
  unfold Qc_min. destruct (decide (x ≤ y)%Qc) as [H|H]; [by left|right].
  split; [done|]. by apply Qclt_le_weak, Qcnot_le_lt.
Qed.

(** Folding a selection that returns one of its arguments, the one that
    is [R]-above the other, finds an element that is [R]-above all. *)
Lemma foldl_select (R : relation Qc) `{!Reflexive R, !Transitive R} (f : Qc → Qc → Qc) :
  (∀ x y, (f x y = x ∧ R y x) ∨ (f x y = y ∧ R x y)) →
  ∀ pxs x, foldl f x pxs ∈ x :: pxs ∧ Forall (λ y, R y (foldl f x pxs)) (x :: pxs).
Proof.
  intros Hf. induction pxs as [|y pxs IH]; intros x; simpl.
  - split; [by left|]. by repeat constructor.
  - destruct (IH (f x y)) as [Hin Hall].
    apply Forall_cons in Hall as [Hhd Hall]. split.
    + apply elem_of_cons in Hin as [-> | Hin]; [|by do 2 right].
      destruct (Hf x y) as [[-> _] | [-> _]]; [by left|right; by left].
    + destruct (Hf x y) as [[Hxy Hr] | [Hxy Hr]]; rewrite Hxy in Hhd, Hall |- *.
      * apply Forall_cons. split; [done|]. apply Forall_cons. split; [by etrans|done].
      * apply Forall_cons. split; [by etrans|]. apply Forall_cons. by split.
Qed.

Lemma best_from_levels_bid levels px amount :
  _best_from_levels levels "bid" = Some (px, amount) →
  levels !! px = Some amount ∧ ∀ q, has_level levels q → (q ≤ px)%Qc.
Proof.
  unfold _best_from_levels. case_bool_decide as He; [done|].
  rewrite bool_decide_true by done.
  destruct (keys levels) as [|x pxs] eqn:Hk; [done|]. simpl.
  destruct (foldl_select Qcle Qc_max Qc_max_cases pxs x) as [Hin Hall].
  destruct (levels !! foldl Qc_max x pxs) as [v|] eqn:Hv; simpl; [|done].
  intros [= <- <-]. split; [done|]. intros q Hq%keys_elem_of. rewrite Hk in Hq.
  by apply (proj1 (Forall_forall _ _) Hall).
Qed.

Lemma best_from_levels_ask levels px amount :
  _best_from_levels levels "ask" = Some (px, amount) →
  levels !! px = Some amount ∧ ∀ q, has_level levels q → (px ≤ q)%Qc.
Proof.
  unfold _best_from_levels. case_bool_decide as He; [done|].
  rewrite bool_decide_false by done.
  destruct (keys levels) as [|x pxs] eqn:Hk; [done|]. simpl.
  destruct (foldl_select (flip Qcle) Qc_min) with (pxs := pxs) (x := x) as [Hin Hall].
  { intros y z. destruct (Qc_min_cases y z) as [[? ?] | [? ?]]; [left|right]; done. }
  destruct (levels !! foldl Qc_min x pxs) as [v|] eqn:Hv; simpl; [|done].
  intros [= <- <-]. split; [done|]. intros q Hq%keys_elem_of. rewrite Hk in Hq.
  by apply (proj1 (Forall_forall _ _) Hall).
Qed.

Lemma best_from_levels_None levels side :
  _best_from_levels levels side = None ↔ levels = ∅.
Proof.
  unfold _best_from_levels. case_bool_decide as He; [done|]. split; [|done].
  assert (Hne : keys levels ≠ []) by (by rewrite keys_nil).
  destruct (keys levels) as [|x pxs] eqn:Hk; [done|].
  assert (Hsel : ∀ f, (∀ y z, f y z = y ∨ f y z = z) → has_level levels (foldl f x pxs)).
  { intros f Hf. apply keys_elem_of. rewrite Hk. clear -Hf.
    revert x. induction pxs as [|y pxs IH]; intros x; simpl; [by left|].
    specialize (IH (f x y)). apply elem_of_cons in IH as [-> | IH]; [|by do 2 right].
    destruct (Hf x y) as [-> | ->]; [by left|right; by left]. }
  case_bool_decide; simpl.
  - destruct (Hsel Qc_max) as [v ->]; [|done].
    intros y z. destruct (Qc_max_cases y z) as [[-> _] | [-> _]]; auto.
  - destruct (Hsel Qc_min) as [v ->]; [|done].
    intros y z. destruct (Qc_min_cases y z) as [[-> _] | [-> _]]; auto.
Qed.

(** [top()] of any book: [best_bid] is the highest bid price and
    [best_ask] the lowest ask price, each [None] exactly when its side is
    empty; [mid] and [spread] are [(bid + ask) / 2] and [ask - bid] when both
    sides have a level and [None] otherwise. *)
Theorem top_is_best b :
  (best_bid (top b) = None ↔ bids b = ∅)
  ∧ (best_ask (top b) = None ↔ asks b = ∅)
  ∧ (∀ bid, best_bid (top b) = Some bid →
       has_level (bids b) bid ∧ ∀ q, has_level (bids b) q → (q ≤ bid)%Qc)
  ∧ (∀ ask, best_ask (top b) = Some ask →
       has_level (asks b) ask ∧ ∀ q, has_level (asks b) q → (ask ≤ q)%Qc)
  ∧ match best_bid (top b), best_ask (top b) with
    | Some bid, Some ask =>
        mid (top b) = Some ((bid + ask) / Q2Qc 2)%Qc ∧ spread (top b) = Some (ask - bid)%Qc
    | _, _ => mid (top b) = None ∧ spread (top b) = None
    end.
Proof.
  assert (Hbid : best_bid (top b) = fst <$> _best_from_levels (bids b) "bid").
  { unfold top. by destruct (fst <$> _), (fst <$> _). }
  assert (Hask : best_ask (top b) = fst <$> _best_from_levels (asks b) "ask").
  { unfold top. by destruct (fst <$> _best_from_levels (bids b) _), (fst <$> _). }
  split; [|split; [|split; [|split]]].
  - rewrite Hbid, fmap_None. apply best_from_levels_None.
  - rewrite Hask, fmap_None. apply best_from_levels_None.
  - intros bid. rewrite Hbid. intros ([px amount] & Hb & ->)%fmap_Some.
    destruct (best_from_levels_bid _ _ _ Hb) as [Hl Hmax]. split; [by exists amount|done].
  - intros ask. rewrite Hask. intros ([px amount] & Hb & ->)%fmap_Some.
    destruct (best_from_levels_ask _ _ _ Hb) as [Hl Hmin]. split; [by exists amount|done].
  - unfold top. by destruct (fst <$> _best_from_levels (bids b) _), (fst <$> _).
Qed.

Lemma pop_all_lookup levels pxs px :
  pop_all levels pxs !! px = if decide (px ∈ pxs) then None else levels !! px.
Proof.
  unfold pop_all. revert levels. induction pxs as [|q pxs IH]; intros levels.
  - destruct (decide (px ∈ [])) as [H|H]; [by apply elem_of_nil in H|done].
  - change (foldl (λ m p, delete p m) (delete q levels) pxs !! px
            = if decide (px ∈ q :: pxs) then None else levels !! px).
    rewrite IH. destruct (decide (px ∈ pxs)) as [Hin|Hin].
    + destruct (decide (px ∈ q :: pxs)) as [|Hn]; [done|]. destruct Hn. by right.
    + destruct (decide (px = q)) as [->|Hne].
      * destruct (decide (q ∈ q :: pxs)) as [|Hn]; [|destruct Hn; by left].
        apply lookup_delete_eq.
      * destruct (decide (px ∈ q :: pxs)) as [[?|?]%elem_of_cons|]; [done..|].
        by apply lookup_delete_ne.
Qed.

(** One arm of [_trim], for the order [R] the keys are sorted by: what
    stays keeps its amount, and everything dropped comes strictly before
    everything kept. *)
Lemma trim_side_keeps (R : relation Qc) `{!RelDecision R, !Transitive R, !Total R}
    (limit : Z) levels :
  0 ≤ limit →
  let levels' := trim_side limit (λ m, merge_sort R (keys m)) levels in
  levels' ⊆ levels
  ∧ Z.of_nat (size levels') = Z.min (Z.of_nat (size levels)) limit
  ∧ ∀ p q, has_level levels' p → dropped levels levels' q → R q p ∧ q ≠ p.
Proof.
  intros Hlimit. simpl. unfold trim_side.
  destruct (limit <? Z.of_nat (size levels)) eqn:Hlt; cycle 1.
  { split; [done|]. split; [lia|]. by intros p q _ [? ?]. }
  set (n := Z.to_nat (Z.of_nat (size levels) - limit)).
  set (sorted := merge_sort R (keys levels)).
  assert (Hperm : sorted ≡ₚ keys levels) by apply merge_sort_Permutation.
  assert (Hss : StronglySorted R sorted) by (apply StronglySorted_merge_sort; done).
  assert (Hlen : length sorted = size levels) by (by rewrite Hperm, keys_length).
  split; [|split].
  - apply map_subseteq_spec. intros px v. rewrite pop_all_lookup. by case_decide.
  - rewrite pop_all_size.
    + rewrite length_take_le by lia. lia.
    + eapply sublist_NoDup; [|apply sublist_take]. rewrite Hperm. apply keys_NoDup.
    + intros px Hpx. apply elem_of_keys. rewrite <-Hperm. by apply (subseteq_take n).
  - intros p q Hp [Hq Hq']. unfold has_level in *.
    rewrite pop_all_lookup in Hp, Hq'.
    destruct (decide (p ∈ take n sorted)) as [|Hp_out]; [by destruct Hp|].
    destruct (decide (q ∈ take n sorted)) as [Hq_in|]; [|done].
    assert (Hp_in : p ∈ drop n sorted).
    { apply keys_elem_of in Hp. rewrite <-Hperm, <-(take_drop n sorted) in Hp.
      by apply elem_of_app in Hp as [?|?]. }
    split; [|by intros ->].
    rewrite <-(take_drop n sorted) in Hss.
    by apply (StronglySorted_app_1_elem_of _ _ _ _ _ Hss).
Qed.

(** [_trim] with a positive [depth_limit] cuts each side down to
    [depth_limit] levels; the levels that stay keep their amounts, every
    dropped bid is below every bid that stays and every dropped ask is above
    every ask that stays.  With [depth_limit <= 0] nothing is ever trimmed. *)
Theorem trim_keeps_best b :
  let b' := _trim b in
  (depth_limit b ≤ 0 → b' = b)
  ∧ (0 < depth_limit b →
     bids b' ⊆ bids b
     ∧ asks b' ⊆ asks b
     ∧ Z.of_nat (size (bids b')) = Z.min (Z.of_nat (size (bids b))) (depth_limit b)
     ∧ Z.of_nat (size (asks b')) = Z.min (Z.of_nat (size (asks b))) (depth_limit b)
     ∧ (∀ p q, has_level (bids b') p → dropped (bids b) (bids b') q → (q < p)%Qc)
     ∧ (∀ p q, has_level (asks b') p → dropped (asks b) (asks b') q → (p < q)%Qc)).
Proof.
  simpl. unfold _trim. split.
  - intros H. by rewrite (proj2 (Z.leb_le _ _) H).
  - intros H. rewrite (proj2 (Z.leb_gt _ _) H). simpl.
    destruct (trim_side_keeps Qcle (depth_limit b) (bids b)) as (Hb1 & Hb2 & Hb3); [lia|].
    assert (Htrans : Transitive (flip Qcle)) by (intros x y z ??; by etrans).
    assert (Htotal : Total (flip Qcle)) by (intros x y; destruct (total Qcle x y); auto).
    destruct (trim_side_keeps (flip Qcle) (depth_limit b) (asks b))
      as (Ha1 & Ha2 & Ha3); [lia|].
    repeat split; try done.
    + intros p q Hp Hq. destruct (Hb3 p q Hp Hq) as [Hle Hne].
      by apply Qcle_lt_or_eq in Hle as [?|?].
    + intros p q Hp Hq. destruct (Ha3 p q Hp Hq) as [Hle Hne]. unfold flip in Hle.
      apply Qcle_lt_or_eq in Hle as [?|?]; [done|]. by destruct Hne.
Qed.

Lemma trim_keeps_best_witness :
  0 < depth_limit deep_book
  ∧ bids (_trim deep_book) !! Qc_of_Z 101 = Some (Qc_of_Z 2)
  ∧ asks (_trim deep_book) !! Qc_of_Z 102 = Some (Qc_of_Z 1)
  ∧ bids (_trim deep_book) ⊆ bids deep_book
  ∧ asks (_trim deep_book) ⊆ asks deep_book
  ∧ Z.of_nat (size (bids (_trim deep_book)))
    = Z.min (Z.of_nat (size (bids deep_book))) (depth_limit deep_book)
  ∧ Z.of_nat (size (asks (_trim deep_book)))
    = Z.min (Z.of_nat (size (asks deep_book))) (depth_limit deep_book)
  ∧ (∀ p q, has_level (bids (_trim deep_book)) p →
            dropped (bids deep_book) (bids (_trim deep_book)) q → (q < p)%Qc)
  ∧ (∀ p q, has_level (asks (_trim deep_book)) p →
            dropped (asks deep_book) (asks (_trim deep_book)) q → (p < q)%Qc).
Proof.
  assert (H : 0 < depth_limit deep_book) by (simpl; lia).
  split; [exact H|]. split; [vm_compute; reflexivity|]. split; [vm_compute; reflexivity|].
  exact (proj2 (trim_keeps_best deep_book) H).
Defined.

(** A write at a price that improves on the whole ladder survives the
    trimming. *)
Lemma trim_side_keeps_improvement (R : relation Qc)
    `{!RelDecision R, !Transitive R, !Total R, !AntiSymm (=) R}
    (limit : Z) levels px amount :
  1 ≤ limit →
  (∀ q, has_level levels q → R q px) →
  trim_side limit (λ m, merge_sort R (keys m)) (<[px := amount]> levels) !! px = Some amount.
Proof.
  intros Hlimit Hbest.
  destruct (trim_side_keeps R limit (<[px := amount]> levels)) as (Hsub & Hsize & Hdrop);
    [lia|].
  set (levels' := trim_side limit _ (<[px := amount]> levels)) in *.
  destruct (levels' !! px) as [v|] eqn:Hpx.
  - eapply lookup_weaken in Hpx; [|exact Hsub]. by rewrite lookup_insert_eq in Hpx.
  - exfalso.
    assert (Hne : size levels' ≠ 0%nat).
    { assert (size (<[px := amount]> levels) ≠ 0%nat)
        by (apply map_size_non_empty_iff, insert_non_empty). lia. }
    apply map_size_ne_0_lookup in Hne as (p & Hp).
    destruct (Hdrop p px Hp) as [Hle Hneq].
    { split; [exists amount; apply lookup_insert_eq|]. intros [? ?]. congruence. }
    apply Hneq. apply (anti_symm R); [done|].
    destruct Hp as [v Hv]. eapply lookup_weaken in Hv; [|exact Hsub].
    apply lookup_insert_Some in Hv as [[-> _] | [_ Hv]]; [done|].
    apply Hbest. by exists v.
Qed.

Lemma write_improving_level b side px amount :
  1 ≤ depth_limit b →
  improves b side px →
  ladder (_trim (if bool_decide (side = "bid")
                 then OrderBook.mk (depth_limit b) (<[px := amount]> (bids b)) (asks b)
                        (last_update_us b) (last_event_ts b)
                 else OrderBook.mk (depth_limit b) (bids b) (<[px := amount]> (asks b))
                        (last_update_us b) (last_event_ts b))) side !! px = Some amount.
Proof.
  intros Hd Himp. unfold improves, ladder, _trim in *.
  assert (Htrans : Transitive (flip Qcle)) by (intros x y z ??; by etrans).
  assert (Htotal : Total (flip Qcle)) by (intros x y; destruct (total Qcle x y); auto).
  assert (Hanti : AntiSymm (=) (flip Qcle)) by (intros x y ??; by apply (anti_symm Qcle)).
  case_bool_decide; simpl; rewrite (proj2 (Z.leb_gt _ _)) by lia; simpl.
  - by apply (trim_side_keeps_improvement Qcle).
  - by apply (trim_side_keeps_improvement (flip Qcle)).
Qed.

Lemma best_of_ladder b side px :
  has_level (ladder b side) px →
  (∀ q, has_level (ladder b side) q →
        if bool_decide (side = "bid") then (q ≤ px)%Qc else (px ≤ q)%Qc) →
  best b side = Some px.
Proof.
  unfold best, ladder. intros Hpx Hbest.
  destruct (top_is_best b) as (Hb0 & Ha0 & Hb & Ha & _).
  case_bool_decide.
  - destruct (best_bid (top b)) as [bid|] eqn:E.
    + destruct (Hb bid eq_refl) as [Hl Hmax]. f_equal.
      apply (anti_symm Qcle); [by apply Hbest|by apply Hmax].
    + rewrite (proj1 Hb0 eq_refl) in Hpx. destruct Hpx as [? Hpx]. by rewrite lookup_empty in Hpx.
  - destruct (best_ask (top b)) as [ask|] eqn:E.
    + destruct (Ha ask eq_refl) as [Hl Hmin]. f_equal.
      apply (anti_symm Qcle); [by apply Hmin|by apply Hbest].
    + rewrite (proj1 Ha0 eq_refl) in Hpx. destruct Hpx as [? Hpx]. by rewrite lookup_empty in Hpx.
Qed.

Lemma ladder_stamp b side now_us ts : ladder (stamp b now_us ts) side = ladder b side.
Proof. unfold ladder, stamp. by case_bool_decide. Qed.

(** Both kinds of write put the amount in and trim. *)
Lemma exec_write_shape b (c : call) side px amount now_us ts :
  c = ApplySnapshot side px amount now_us ts
  ∨ (c = ApplyDelta side px amount now_us ts ∧ (0 < amount)%Qc) →
  exec b c
  = stamp (_trim (if bool_decide (side = "bid")
                  then OrderBook.mk (depth_limit b) (<[px := amount]> (bids b)) (asks b)
                         (last_update_us b) (last_event_ts b)
                  else OrderBook.mk (depth_limit b) (bids b) (<[px := amount]> (asks b))
                         (last_update_us b) (last_event_ts b))) now_us ts.
Proof.
  intros [-> | [-> Hpos]]; simpl; [done|]. unfold apply_delta.
  destruct (decide (amount ≤ 0)%Qc) as [Hle|]; [|done].
  by apply Qclt_not_le in Hpos.
Qed.

(** [improves] can be checked on the prices of the ladder. *)
Lemma improves_checked b side px :
  forallb (λ q : Qc, if bool_decide (side = "bid") then Qle_bool q px else Qle_bool px q)
          (keys (ladder b side)) = true →
  improves b side px.
Proof.
  intros Hall q Hq. rewrite forallb_forall in Hall.
  specialize (Hall q (proj1 (list_elem_of_In _ _) (proj2 (keys_elem_of _ _) Hq))).
  case_bool_decide; by apply Qle_bool_iff.
Qed.

(** On a book with [depth_limit >= 1], a snapshot row, or a delta with a
    positive amount, at a price at least as good as every level of its side
    (at or above every bid for side ["bid"], at or below every ask for any
    other side string) is in the book afterwards with its amount, and it is
    the best price that [top()] reports for that side. *)
Theorem improving_write_is_top b (c : call) side px amount now_us ts :
  1 ≤ depth_limit b →
  improves b side px →
  c = ApplySnapshot side px amount now_us ts
  ∨ (c = ApplyDelta side px amount now_us ts ∧ (0 < amount)%Qc) →
  ladder (exec b c) side !! px = Some amount
  ∧ best (exec b c) side = Some px.
Proof.
  intros Hd Himp Hc. rewrite (exec_write_shape b c side px amount now_us ts Hc).
  set (b1 := if bool_decide (side = "bid")
             then OrderBook.mk (depth_limit b) (<[px := amount]> (bids b)) (asks b)
                    (last_update_us b) (last_event_ts b)
             else OrderBook.mk (depth_limit b) (bids b) (<[px := amount]> (asks b))
                    (last_update_us b) (last_event_ts b)).
  assert (Hl : ladder (stamp (_trim b1) now_us ts) side !! px = Some amount).
  { rewrite ladder_stamp. by apply write_improving_level. }
  split; [done|]. apply best_of_ladder; [by exists amount|].
  intros q [v Hq]. rewrite ladder_stamp in Hq.
  assert (Hsub : ladder (_trim b1) side ⊆ <[px := amount]> (ladder b side)).
  { assert (Hpos : 0 < depth_limit b1) by (subst b1; case_bool_decide; simpl; lia).
    destruct (proj2 (trim_keeps_best b1) Hpos) as (H1 & H2 & _).
    subst b1. unfold ladder. case_bool_decide; simpl in *; done. }
  eapply lookup_weaken in Hq; [|exact Hsub].
  apply lookup_insert_Some in Hq as [[<- _] | [_ Hq]].
  - by case_bool_decide.
  - apply Himp. by exists v.
Qed.

Lemma improving_write_is_top_witness :
  ladder (exec (OrderBook.run (OrderBook.new 2) session)
               (ApplyDelta "bid" (Qc_of_Z 105) (Qc_of_Z 3) 9 None)) "bid" !! Qc_of_Z 105
  = Some (Qc_of_Z 3)
  ∧ best (exec (OrderBook.run (OrderBook.new 2) session)
               (ApplyDelta "bid" (Qc_of_Z 105) (Qc_of_Z 3) 9 None)) "bid"
    = Some (Qc_of_Z 105).
Proof.
  apply (improving_write_is_top (OrderBook.run (OrderBook.new 2) session)
           (ApplyDelta "bid" (Qc_of_Z 105) (Qc_of_Z 3) 9 None)
           "bid" (Qc_of_Z 105) (Qc_of_Z 3) 9 None).
  - vm_compute. discriminate.
  - apply improves_checked. vm_compute. reflexivity.
  - right. split; [reflexivity|]. vm_compute. reflexivity.
Defined.

Lemma trim_side_absent limit sorted levels px :
  levels !! px = None → trim_side limit sorted levels !! px = None.
Proof.
  intros H. unfold trim_side. destruct (_ <? _); [|done].
  rewrite pop_all_lookup. by case_decide.
Qed.

(** A delta with an amount that is not positive removes its level: the
    price is gone from its side afterwards, whatever was there. *)
Theorem delta_without_amount_removes b side px amount now_us ts :
  (amount ≤ 0)%Qc →
  ladder (apply_delta b side px amount now_us ts) side !! px = None.
Proof.
  intros Hle. unfold apply_delta. cbv zeta. rewrite ladder_stamp.
  destruct (decide (amount ≤ 0)%Qc) as [_|Hn]; [|done].
  unfold ladder, _trim.
  case_bool_decide; simpl; destruct (depth_limit b <=? 0); simpl;
    try apply trim_side_absent; apply lookup_delete_eq.
Qed.

Lemma delta_without_amount_removes_witness :
  ladder (apply_delta (OrderBook.run (OrderBook.new 2) session) "bid"
            (Qc_of_Z 102) (Qc_of_Z 0) 9 None) "bid" !! Qc_of_Z 102 = None.
Proof.
  apply (delta_without_amount_removes (OrderBook.run (OrderBook.new 2) session)
           "bid" (Qc_of_Z 102) (Qc_of_Z 0) 9 None).
  by vm_compute.
Defined.

End book_more.

(** ** The replayer *)

Section replayer_more.

Import OrderBookReplayer ReplayerMore BookMore.
Implicit Types (r : OrderBookReplayer.t) (ev : Event).







End replayer_more.

(** ** The sanitizer: a second pass *)

Section sanitizer_more.

Import Sanitizer SanitizerMore.
Implicit Types (s : Sanitizer.t) (ev : Event) (m : gmap string pyval) (key : string).

Lemma filter_nil_Forall {A} (P : A → Prop) `{!∀ x, Decision (P x)} (l : list A) :
  filter P l = [] ↔ Forall (λ x, ¬ P x) l.
Proof.
  induction l as [|x l IH]; [by split; [constructor|]|].
  rewrite filter_cons, Forall_cons. destruct (decide (P x)); [|tauto].
  split; [done|tauto].
Qed.

Lemma remember_idem m key cached :
  remember m key (remember m key cached) = remember m key cached.
Proof. unfold remember. by destruct (is_none (dict_get m key)). Qed.

Lemma update_cache_idem s m : update_cache (update_cache s m) m = update_cache s m.
Proof. unfold update_cache. simpl. by rewrite !remember_idem. Qed.

Lemma cache_get_update s m key :
  key ∈ cached_fields → cache_get (update_cache s m) key = remember m key (cache_get s key).
Proof.
  unfold cached_fields. rewrite !elem_of_cons, elem_of_nil.
  intros [-> | [-> | [-> | [-> | [-> | [-> | [-> | []]]]]]]]; reflexivity.
Qed.

(** [fill] for a list of fields. *)
Lemma fill_all_foldl s m :
  fill_all s m = foldl (λ st key, fill st key (cache_get s key)) (m, false) cached_fields.
Proof. reflexivity. Qed.

Lemma fill_fold_lookup s (keys : list string) (st : gmap string pyval * bool) key :
  NoDup keys →
  dict_get (foldl (λ st k, fill st k (cache_get s k)) st keys).1 key
  = if bool_decide (key ∈ keys) && is_none (dict_get st.1 key)
    then cache_get s key else dict_get st.1 key.
Proof.
  revert st. induction keys as [|k keys IH]; intros st Hnd; cbn [foldl].
  - by rewrite bool_decide_false by apply not_elem_of_nil.
  - apply NoDup_cons in Hnd as [Hk Hnd]. rewrite IH by done.
    unfold fill. unfold dict_get in *.
    destruct (decide (key = k)) as [->|Hne].
    + rewrite (bool_decide_false (k ∈ keys)) by done.
      rewrite (bool_decide_true (k ∈ k :: keys)) by (by left). cbn [andb].
      destruct (is_none (default VNone (st.1 !! k))) eqn:Hn; cbn [andb]; [|done].
      destruct (is_none (cache_get s k)) eqn:Hc; cbn [negb fst].
      * destruct (st.1 !! k) as [[]|], (cache_get s k); done.
      * by rewrite lookup_insert_eq.
    + assert (Hiff : bool_decide (key ∈ k :: keys) = bool_decide (key ∈ keys)).
      { apply bool_decide_ext. rewrite elem_of_cons. tauto. }
      rewrite Hiff.
      destruct (is_none (default VNone (st.1 !! k)) && negb (is_none (cache_get s k)));
        cbn [fst]; [by rewrite lookup_insert_ne|done].
Qed.

Lemma fill_fold_flag s (keys : list string) (st : gmap string pyval * bool) :
  st.2 = false →
  Forall (λ k, is_none (dict_get st.1 k) = true → is_none (cache_get s k) = true) keys →
  foldl (λ st k, fill st k (cache_get s k)) st keys = st.
Proof.
  revert st. induction keys as [|k keys IH]; intros st Hf Hall; cbn [foldl]; [done|].
  apply Forall_cons in Hall as [Hk Hall].
  assert (Hfill : fill st k (cache_get s k) = st).
  { unfold fill. destruct (is_none (dict_get st.1 k)) eqn:Hn; simpl; [|done].
    by rewrite (Hk eq_refl). }
  rewrite Hfill. by apply IH.
Qed.

Lemma cached_fields_NoDup : NoDup cached_fields.
Proof. exact (bool_decide_unpack (NoDup cached_fields) I). Qed.

Lemma required_cached key : key ∈ required → key ∈ cached_fields.
Proof.
  unfold required, cached_fields. rewrite !elem_of_cons, !elem_of_nil. tauto.
Qed.

(** The ticker rules on a payload they have already completed: nothing to
    remember, nothing to fill, nothing missing. *)
Lemma ticker_rules_settled s m status reasons ev :
  stream ev = TICKER →
  data ev = m →
  update_cache s m = s →
  Forall (λ k, is_none (dict_get m k) = true → is_none (cache_get s k) = true) cached_fields →
  Forall (λ k, is_none (dict_get m k) = false) required →
  stream_rules s ev status reasons = (s, Continue status m reasons).
Proof.
  intros Hst Hm Hupd Hfill Hreq. unfold stream_rules. rewrite Hst, Hm, Hupd.
  rewrite fill_all_foldl, (fill_fold_flag s cached_fields (m, false)) by done.
  assert (Hmissing : filter (λ k, is_none (dict_get m k) = true) required = []).
  { apply filter_nil_Forall. eapply Forall_impl; [exact Hreq|].
    simpl. by intros k ->. }
  assert (Hcomplete : forallb (λ k, negb (is_none (dict_get m k))) required = true).
  { apply forallb_forall. intros k Hk%list_elem_of_In.
    by rewrite (proj1 (Forall_forall _ _) Hreq k Hk). }
  by rewrite Hmissing, Hcomplete.
Qed.

Lemma fill_flag_stays s (keys : list string) m :
  (foldl (λ st k, fill st k (cache_get s k)) (m, true) keys).2 = true.
Proof.
  revert m. induction keys as [|k keys IH]; intros m; cbn [foldl]; [done|].
  unfold fill at 2. cbn [fst snd]. by destruct (_ && _).
Qed.

Lemma fill_fold_unused s (keys : list string) m :
  (foldl (λ st k, fill st k (cache_get s k)) (m, false) keys).2 = false →
  Forall (λ k, is_none (dict_get m k) = true → is_none (cache_get s k) = true) keys.
Proof.
  revert m. induction keys as [|k keys IH]; intros m; cbn [foldl]; [constructor|].
  unfold fill at 2. cbn [fst].
  destruct (is_none (dict_get m k)) eqn:Hn; cbn [andb].
  - destruct (is_none (cache_get s k)) eqn:Hc; cbn [negb].
    + intros H. constructor; [done|by apply IH].
    + by rewrite fill_flag_stays.
  - intros H. constructor; [congruence|by apply IH].
Qed.

(** After the fills the payload agrees with the cache on every cached
    field, when the cache has just been updated from the payload. *)
Lemma filled_agrees_with_cache s m key :
  key ∈ cached_fields →
  dict_get (fill_all (update_cache s m) m).1 key = cache_get (update_cache s m) key.
Proof.
  intros Hk. rewrite fill_all_foldl, fill_fold_lookup by apply cached_fields_NoDup.
  simpl. rewrite bool_decide_true by done. simpl.
  rewrite (cache_get_update s m key Hk). unfold remember.
  by destruct (is_none (dict_get m key)).
Qed.

Lemma update_cache_agreeing s m :
  (∀ key, key ∈ cached_fields → dict_get m key = cache_get s key) →
  update_cache s m = s.
Proof.
  intros H. unfold update_cache, remember.
  rewrite !H by (unfold cached_fields; set_solver).
  destruct s; simpl; unfold cache_get; simpl.
  f_equal; match goal with |- (if is_none ?v then _ else _) = _ => by destruct (is_none v) end.
Qed.

(** Whatever the stream rules let through, they let through again, on the
    state they left and the payload they produced, without changing
    either. *)
Lemma stream_rules_settle s ev status reasons s1 status1 data1 reasons1 :
  stream_rules s ev status reasons = (s1, Continue status1 data1 reasons1) →
  _exchange s1 = _exchange s ∧ _symbol s1 = _symbol s
  ∧ (status1 = REPAIR ∨ (status1 = status ∧ data1 = data ev))
  ∧ (status = ACCEPT → status1 = ACCEPT → reasons = [] → reasons1 = [])
  ∧ ∀ ev2 status2 reasons2,
      stream ev2 = stream ev → data ev2 = data1 →
      stream_rules s1 ev2 status2 reasons2 = (s1, Continue status2 data1 reasons2).
Proof.
  unfold stream_rules at 1. destruct (stream ev) eqn:Hst.
  - destruct (missing3 _ _ _ _) eqn:Hm; [done|]. intros [= <- <- <- <-].
    repeat split; auto. intros ev2 ?? Hst2 Hd2. unfold stream_rules. by rewrite Hst2, Hd2, Hm.
  - destruct (_ && _) eqn:Hsnap; [done|].
    destruct (missing3 _ _ _ _) eqn:Hm; [done|]. intros [= <- <- <- <-].
    repeat split; auto. intros ev2 ?? Hst2 Hd2. unfold stream_rules.
    by rewrite Hst2, Hd2, Hsnap, Hm.
  - destruct (missing3 _ _ _ _) eqn:Hm; [done|]. intros [= <- <- <- <-].
    repeat split; auto. intros ev2 ?? Hst2 Hd2. unfold stream_rules. by rewrite Hst2, Hd2, Hm.
  - set (s' := update_cache s (data ev)).
    destruct (fill_all s' (data ev)) as [merged used] eqn:Hfill.
    case_bool_decide as Hmissing; cbn [negb]; [|done].
    apply filter_nil_Forall in Hmissing.
    destruct (forallb _ required && negb used) eqn:Hc; intros [= <- <- <- <-].
    + apply andb_true_iff in Hc as [Hcomplete Hused]. apply negb_true_iff in Hused. subst used.
      repeat split; auto. intros ev2 ?? Hst2 Hd2.
      apply ticker_rules_settled; [congruence|done|apply update_cache_idem| |].
      * rewrite fill_all_foldl in Hfill.
        apply (fill_fold_unused s' cached_fields (data ev)). by rewrite Hfill.
      * apply Forall_forall. intros k Hk%list_elem_of_In.
        rewrite forallb_forall in Hcomplete. by apply negb_true_iff, Hcomplete.
    + assert (Hagree : ∀ key, key ∈ cached_fields → dict_get merged key = cache_get s' key).
      { intros key Hk. pose proof (filled_agrees_with_cache s (data ev) key Hk) as H.
        fold s' in H. by rewrite Hfill in H. }
      repeat split; auto; [intros _ [=]|]. intros ev2 ?? Hst2 Hd2.
      apply ticker_rules_settled; [congruence|done|by apply update_cache_agreeing| |].
      * apply Forall_forall. intros k Hk. by rewrite Hagree.
      * eapply Forall_impl; [exact Hmissing|]. simpl. intros k Hk.
        by destruct (is_none (dict_get merged k)); [destruct Hk|].
Qed.

(** A second pass settles: an event that [sanitize] accepted or repaired,
    put through the same sanitizer again, is accepted as it is, with an
    empty reason, and the sanitizer (its ticker cache included) does not
    change. *)
Theorem sanitize_second_pass s ev s' status ev' reason :
  sanitize s ev = Return (s', (status, ev', reason)) →
  status ≠ QUARANTINE →
  sanitize s' ev' = Return (s', (ACCEPT, ev', "")).
Proof.
  unfold sanitize at 1. destruct (exchange ev) as [exch|] eqn:Hex; simpl; [|done].
  case_bool_decide as Hexch; simpl; [|by intros [= _ <-]]. subst exch.
  unfold sanitize_from_symbol.
  set (after := match symbol ev with
                | Some sym => _
                | None => _
                end).
  destruct after as [[[sym status0] reasons0]|] eqn:Hafter; [|by intros [= _ <-]].
  destruct (stream_rules s ev status0 reasons0) as [s1 [why|status1 data1 reasons1]] eqn:Hrules;
    [by intros [= _ <-]|].
  destruct (stream_rules_settle _ _ _ _ _ _ _ _ Hrules)
    as (Hexs & Hsyms & Hdata & Hreasons & Hagain).
  assert (Hsym : (sym = None ∧ _symbol s = "" ∧ symbol ev = None ∧ status0 = ACCEPT
                  ∧ reasons0 = [])
                 ∨ (sym = Some (_symbol s) ∧ _symbol s ≠ "" ∧ symbol ev = None
                    ∧ status0 = REPAIR)
                 ∨ (sym = Some (_symbol s) ∧ symbol ev = Some (_symbol s) ∧ status0 = ACCEPT
                    ∧ reasons0 = [])).
  { subst after. destruct (symbol ev) as [sy|].
    - case_bool_decide as Hsy; simpl in Hafter; [|done]. subst sy.
      injection Hafter as <- <- <-. right; right. done.
    - case_bool_decide as He; simpl in Hafter; injection Hafter as <- <- <-.
      + left. done.
      + right; left. done. }
  clear Hafter.
  assert (Hsecond : ∀ ev2,
            exchange ev2 = Some (_exchange s) → symbol ev2 = sym ∨ (sym = None ∧ False) →
            stream ev2 = stream ev → data ev2 = data1 →
            sanitize s1 ev2 = Return (s1, (ACCEPT, ev2, ""))).
  { intros ev2 Hex2 [Hsy2|[_ []]] Hst2 Hd2. unfold sanitize, sanitize_from_symbol.
    rewrite Hex2, Hexs. simpl. rewrite bool_decide_true by done. simpl.
    rewrite Hsy2, Hsyms.
    destruct Hsym as [(-> & Hempty & _) | [(-> & Hne & _) | (-> & _)]].
    - rewrite Hempty. simpl. by rewrite (Hagain ev2 ACCEPT [] Hst2 Hd2).
    - rewrite bool_decide_true by done. simpl. by rewrite (Hagain ev2 ACCEPT [] Hst2 Hd2).
    - rewrite bool_decide_true by done. simpl. by rewrite (Hagain ev2 ACCEPT [] Hst2 Hd2). }
  case_bool_decide as Hrep.
  - intros [= <- <- <- <-] _. apply Hsecond; simpl; auto.
  - intros [= <- <- <- <-] _. destruct Hdata as [?|[-> ->]]; [done|].
    apply Hsecond; auto.
    destruct Hsym as [(-> & _ & -> & _) | [(_ & _ & _ & ->) | (-> & -> & _)]]; auto.
    done.
Qed.

Lemma sanitize_second_pass_witness :
  sanitize (update_cache warm (data thin_ticker)) thin_ticker_repaired
  = Return (update_cache warm (data thin_ticker), (ACCEPT, thin_ticker_repaired, "")).
Proof.
  apply (sanitize_second_pass warm thin_ticker _ REPAIR _ "repair_ticker_merge_cache").
  - vm_compute. reflexivity.
  - discriminate.
Defined.

End sanitizer_more.

(** ** The trust policy: windows and verdicts *)

Section trust_more.

Import DataTrustPolicy TrustMore.
Implicit Types (p : DataTrustPolicy.t) (s : Stream).

Lemma all_streams_complete s : s ∈ all_streams.
Proof. destruct s; unfold all_streams; rewrite !elem_of_cons; tauto. Qed.

Lemma total_app l1 l2 : total (l1 ++ l2) = total l1 + total l2.
Proof. unfold total. induction l1 as [|x l1 IH]; simpl; lia. Qed.

(** [_trim_align] with a window size that is not negative: it returns, the
    window fits, and what it took off the window it took off the sums. *)
Lemma trim_align_returns limit w es ls fs :
  0 ≤ limit →
  ∃ w' es' ls' fs',
    _trim_align limit w (es, ls, fs) = Return (w', (es', ls', fs'))
    ∧ Z.of_nat (length w') ≤ limit
    ∧ es' - total ((λ x : Z * Z * Z * Z, x.1.1.1) <$> w')
      = es - total ((λ x : Z * Z * Z * Z, x.1.1.1) <$> w)
    ∧ ls' - total ((λ x : Z * Z * Z * Z, x.1.1.2) <$> w')
      = ls - total ((λ x : Z * Z * Z * Z, x.1.1.2) <$> w)
    ∧ fs' - total ((λ x : Z * Z * Z * Z, x.1.2) <$> w')
      = fs - total ((λ x : Z * Z * Z * Z, x.1.2) <$> w).
Proof.
  intros Hlimit. revert es ls fs.
  induction w as [|[[[e l] f] b] w IH]; intros es ls fs.
  - exists [], es, ls, fs. simpl. rewrite (proj2 (Z.ltb_ge _ _)) by lia.
    repeat split; simpl; lia.
  - cbn [_trim_align]. destruct (limit <? Z.of_nat (length ((e, l, f, b) :: w))) eqn:Hlt.
    + destruct (IH (es - e) (ls - l) (fs - f)) as (w' & es' & ls' & fs' & -> & ? & ? & ? & ?).
      exists w', es', ls', fs'. rewrite !fmap_cons. unfold total in *.
      cbn [foldr fst snd]. repeat split; try done; lia.
    + apply Z.ltb_ge in Hlt. exists ((e, l, f, b) :: w), es, ls, fs. repeat split; done.
Qed.

Lemma trim_san_returns limit w sum :
  0 ≤ limit →
  ∃ w' sum',
    _trim_san limit w sum = Return (w', sum')
    ∧ Z.of_nat (length w') ≤ limit
    ∧ sum' - total w' = sum - total w
    ∧ (Forall (λ q, 0 ≤ q ≤ 1) w → Forall (λ q, 0 ≤ q ≤ 1) w').
Proof.
  intros Hlimit. revert sum. induction w as [|q w IH]; intros sum.
  - exists [], sum. simpl. rewrite (proj2 (Z.ltb_ge _ _)) by lia.
    repeat split; simpl; try lia; done.
  - cbn [_trim_san]. destruct (limit <? Z.of_nat (length (q :: w))) eqn:Hlt.
    + destruct (IH (sum - q)) as (w' & sum' & -> & ? & ? & Hall).
      exists w', sum'. unfold total in *. cbn [foldr]. repeat split; try done; [lia|].
      intros [_ ?]%Forall_cons. by apply Hall.
    + apply Z.ltb_ge in Hlt. exists (q :: w), sum. repeat split; done.
Qed.

(** With a negative window size the trimming loops pop until the deque is
    empty, and then once more. *)
Lemma trim_align_raises limit w sums : limit < 0 → _trim_align limit w sums = Raise IndexError.
Proof.
  intros Hlimit. revert sums. induction w as [|[[[e l] f] b] w IH]; intros [[es ls] fs].
  - simpl. by rewrite (proj2 (Z.ltb_lt _ _)) by lia.
  - cbn [_trim_align]. rewrite (proj2 (Z.ltb_lt _ _)) by (simpl; lia). apply IH.
Qed.

Lemma trim_san_raises limit w sum : limit < 0 → _trim_san limit w sum = Raise IndexError.
Proof.
  intros Hlimit. revert sum. induction w as [|q w IH]; intros sum.
  - simpl. by rewrite (proj2 (Z.ltb_lt _ _)) by lia.
  - cbn [_trim_san]. rewrite (proj2 (Z.ltb_lt _ _)) by (simpl; lia). apply IH.
Qed.

Lemma on_batch_windows p s stats :
  windows_ok p →
  ∃ p', on_batch p s stats = Return p' ∧ cfg p' = cfg p ∧ windows_ok p'.
Proof.
  intros Hok. unfold on_batch.
  assert (Hlimit : 0 ≤ cfg_window_events (cfg p)) by (destruct (Hok s) as [? _]; lia).
  set (x := (emitted stats, late stats, (if forced_flush stats then 1 else 0), buffer_len stats)).
  destruct (trim_align_returns (cfg_window_events (cfg p)) (_align_window p s ++ [x])
              (_align_emitted_sum p s + emitted stats) (_align_late_sum p s + late stats)
              (_align_forced_sum p s + (if forced_flush stats then 1 else 0)) Hlimit)
    as (w' & es' & ls' & fs' & Htrim & Hlen & He & Hl & Hf).
  rewrite Htrim. simpl. eexists. split; [done|]. split; [done|].
  intros s'. destruct (Hok s') as (Ha & Hs & Hes & Hls & Hfs & Hq & Hall). simpl.
  destruct (decide (s = s')) as [<-|Hne].
  - rewrite !fn_lookup_insert. rewrite !fmap_app, !total_app in He, Hl, Hf.
    subst x. unfold total in *. simpl in He, Hl, Hf.
    repeat split; try done; lia.
  - rewrite !fn_lookup_insert_ne by done. done.
Qed.

Lemma on_event_windows p lob s sanitization ev p' verdict :
  windows_ok p →
  on_event p lob s sanitization ev = Return (p', verdict) →
  cfg p' = cfg p ∧ windows_ok p'.
Proof.
  intros Hok. unfold on_event.
  assert (Hlimit : 0 ≤ cfg_window_events (cfg p)) by (destruct (Hok s) as [? _]; lia).
  set (is_q := if bool_decide (sanitization = QUARANTINE) then 1 else 0).
  destruct (trim_san_returns (cfg_window_events (cfg p)) (_san_quarantine_window p s ++ [is_q])
              (_san_quarantine_sum p s + is_q) Hlimit)
    as (w' & sum' & Htrim & Hlen & Hsum & Hall').
  rewrite Htrim. simpl.
  destruct (_eval_stream _ lob s sanitization ev) as [[ltp [st reason]]|]; simpl; [|done].
  intros [= <- _]. split; [done|].
  intros s'. destruct (Hok s') as (Ha & Hs & Hes & Hls & Hfs & Hq & Hall). simpl.
  destruct (decide (s = s')) as [<-|Hne].
  - rewrite !fn_lookup_insert. rewrite total_app in Hsum. unfold total in *.
    simpl in Hsum. repeat split; try done; [lia|].
    apply Hall', Forall_app. split; [done|]. apply Forall_singleton.
    subst is_q. case_bool_decide; lia.
  - rewrite !fn_lookup_insert_ne by done. done.
Qed.

Lemma exec_windows p c p' :
  windows_ok p → exec p c = Return p' → cfg p' = cfg p ∧ windows_ok p'.
Proof.
  intros Hok. destruct c as [s stats|lob s sanitization ev]; simpl.
  - destruct (on_batch_windows p s stats Hok) as (p1 & -> & ? & ?). by intros [= <-].
  - destruct (on_event p lob s sanitization ev) as [[p1 verdict]|] eqn:Hev; simpl; [|done].
    intros [= <-]. by apply (on_event_windows p lob s sanitization ev p1 verdict).
Qed.

(** The rolling windows hold: after any calls of [on_batch] and [on_event]
    on a policy whose [window_events] is not negative, no window of any
    stream holds more than [window_events] items, each running sum is the
    sum over its window, and the quarantine window holds zeros and ones.
    An [on_batch] call on such a policy never raises. *)
Theorem windows_hold (c : DataTrustCfg) (cs : list call) p :
  0 ≤ cfg_window_events c →
  run (new c) cs = Return p →
  windows_ok p ∧ ∀ s stats, ∃ p', on_batch p s stats = Return p'.
Proof.
  intros Hlimit Hrun.
  assert (Hok : windows_ok p).
  { assert (Hnew : windows_ok (new c)).
    { intros s. unfold new, total. simpl. repeat split; try done; lia. }
    revert Hrun Hnew. generalize (new c). clear Hlimit.
    induction cs as [|call cs IH]; intros p0; simpl.
    - by intros [= <-].
    - destruct (exec p0 call) as [p1|] eqn:Hexec; simpl; [|done].
      intros Hrun Hok0. apply (IH p1 Hrun).
      by destruct (exec_windows p0 call p1 Hok0 Hexec). }
  split; [done|]. intros s stats.
  destruct (on_batch_windows p s stats Hok) as (p' & ? & _). by exists p'.
Qed.

Lemma windows_hold_witness :
  ∃ p, run (new (with_window Scenario.data_trust_cfg 1)) sample_calls = Return p
       ∧ windows_ok p ∧ ∀ s stats, ∃ p', on_batch p s stats = Return p'.
Proof.
  assert (Hrun : ∃ p, run (new (with_window Scenario.data_trust_cfg 1)) sample_calls
                      = Return p) by (vm_compute; eauto).
  destruct Hrun as [p Hrun]. exists p. split; [exact Hrun|].
  apply (windows_hold (with_window Scenario.data_trust_cfg 1) sample_calls p);
    [simpl; lia|exact Hrun].
Defined.

(** A negative [window_events] makes every call raise: [popleft] on the
    emptied deque gives [IndexError], in [on_batch] and in [on_event]
    alike. *)
Theorem negative_window_raises p lob s stats sanitization ev :
  cfg_window_events (cfg p) < 0 →
  on_batch p s stats = Raise IndexError
  ∧ on_event p lob s sanitization ev = Raise IndexError.
Proof.
  intros Hneg. unfold on_batch, on_event.
  by rewrite trim_align_raises, trim_san_raises.
Qed.

Lemma negative_window_raises_witness :
  on_batch (new (with_window Scenario.data_trust_cfg (-1))) TRADES
           (mkTimeAlignmentStats 1 1 0 false 0) = Raise IndexError
  ∧ on_event (new (with_window Scenario.data_trust_cfg (-1))) (OrderBookReplayer.new 2)
             TRADES ACCEPT Scenario.trade_996 = Raise IndexError.
Proof.
  apply (negative_window_raises (new (with_window Scenario.data_trust_cfg (-1)))).
  simpl. lia.
Defined.

Lemma forall_streams {A} (P : Stream → Prop) (g : Stream → A) :
  Forall (λ sr : Stream * A, P sr.1) ((λ s, (s, g s)) <$> all_streams) ↔ ∀ s, P s.
Proof.
  rewrite Forall_fmap, Forall_forall. split.
  - intros H s. apply (H s), all_streams_complete.
  - intros H s _. apply H.
Qed.

(** [_reduce_global] gives the worst verdict any stream holds: UNTRUSTED if
    some stream is UNTRUSTED, else DEGRADED if some stream is DEGRADED, else
    TRUSTED; and its reason is empty exactly for TRUSTED. *)
Theorem reduce_global_is_worst p :
  let verdict := (_reduce_global p).1 in
  (verdict = UNTRUSTED ↔ ∃ s, _state_by_stream p s = UNTRUSTED)
  ∧ (verdict = DEGRADED
     ↔ (∀ s, _state_by_stream p s ≠ UNTRUSTED) ∧ ∃ s, _state_by_stream p s = DEGRADED)
  ∧ (verdict = TRUSTED ↔ ∀ s, _state_by_stream p s = TRUSTED)
  ∧ ((_reduce_global p).2 = "" ↔ verdict = TRUSTED).
Proof.
  assert (Hex : ∀ st, (∃ s, _state_by_stream p s = st) ∨ ∀ s, _state_by_stream p s ≠ st).
  { intros st.
    destruct (decide (Exists (λ s, _state_by_stream p s = st) all_streams)) as [H|H].
    - left. apply Exists_exists in H as (s & _ & ?). by exists s.
    - right. intros s Hs. apply H, Exists_exists. exists s. split; [apply all_streams_complete|done]. }
  unfold _reduce_global. cbv zeta.
  case_bool_decide as Hun; simpl.
  - apply filter_nil_Forall in Hun.
    pose proof (proj1 (forall_streams (λ s, _state_by_stream p s ≠ UNTRUSTED)
                         (_reason_by_stream p)) Hun) as Hun'.
    case_bool_decide as Hde; simpl.
    + apply filter_nil_Forall in Hde.
      pose proof (proj1 (forall_streams (λ s, _state_by_stream p s ≠ DEGRADED)
                           (_reason_by_stream p)) Hde) as Hde'.
      repeat split; try done.
      * by intros [s Hs%Hun'].
      * by intros [_ [s Hs%Hde']].
      * intros _ s. specialize (Hun' s). specialize (Hde' s).
        destruct (_state_by_stream p s) eqn:Hs; congruence.
    + assert (Hsome : ∃ s, _state_by_stream p s = DEGRADED).
      { destruct (Hex DEGRADED) as [?|Hno]; [done|].
        destruct Hde. apply filter_nil_Forall.
        by apply (proj2 (forall_streams (λ s, _state_by_stream p s ≠ DEGRADED)
                           (_reason_by_stream p))). }
      repeat split; try done.
      * by intros [s Hs%Hun'].
      * destruct Hsome as [s Hs]. intros Hall. specialize (Hall s). congruence.
      * by case_bool_decide.
  - assert (Hun' : ∃ s, _state_by_stream p s = UNTRUSTED).
    { destruct (Hex UNTRUSTED) as [?|Hno]; [done|].
      destruct Hun. apply filter_nil_Forall.
      by apply (proj2 (forall_streams (λ s, _state_by_stream p s ≠ UNTRUSTED)
                         (_reason_by_stream p))). }
    repeat split; try done.
    + destruct Hun' as [s Hs]. intros [Hall _]. by destruct (Hall s).
    + destruct Hun' as [s Hs]. intros Hall. specialize (Hall s). congruence.
    + by case_bool_decide.
Qed.

Lemma append_if_keeps (c : bool) (text x : string) (l : list string) :
  x ∈ l → x ∈ append_if c text l.
Proof. intros H. unfold append_if. destruct c; [|done]. apply elem_of_app. by left. Qed.

Lemma eval_windows_quarantine p s :
  "quarantine" ∈ (eval_windows p s QUARANTINE).2.
Proof.
  unfold eval_windows. cbv zeta. cbn [snd].
  do 3 apply append_if_keeps.
  rewrite (bool_decide_true (QUARANTINE = QUARANTINE)) by done.
  unfold append_if at 1. apply elem_of_app. right. by left.
Qed.

Lemma eval_orderbook_keeps p top (reasons : list string * list string) x :
  x ∈ reasons.2 → x ∈ (eval_orderbook p top reasons).2.
Proof.
  destruct reasons as [untrusted degraded]. simpl. intros H. unfold eval_orderbook.
  destruct (best_bid top), (best_ask top); try done.
  destruct (decide _); simpl; [by apply append_if_keeps|done].
Qed.

Lemma eval_trades_keeps p top ev (reasons : list string * list string) x price reasons' :
  eval_trades p top ev reasons = Return (price, reasons') →
  x ∈ reasons.2 → x ∈ reasons'.2.
Proof.
  destruct reasons as [untrusted degraded]. unfold eval_trades. cbv zeta.
  destruct (is_none (dict_get (data ev) "price")); [by intros; simplify_eq|].
  intros Hret Hx. simpl in Hx.
  destruct (match best_bid top with Some _ => _ | None => _ end)
    as [[untrusted1 degraded1]|] eqn:Hfat; simpl in Hret; [|done].
  assert (Hx1 : x ∈ degraded1).
  { destruct (best_bid top), (best_ask top); try (by simplify_eq).
    destruct (as_num (dict_get (data ev) "price")); simpl in Hfat; [|done].
    destruct (py_div _ _); simpl in Hfat; [|done].
    repeat case_bool_decide; simplify_eq; try done.
    apply elem_of_app. by left. }
  destruct (is_none (_last_trade_price p)); simpl in Hret.
  - by simplify_eq.
  - destruct (as_num (_last_trade_price p)); simpl in Hret; [|done].
    destruct (decide _); simpl in Hret.
    + destruct (as_num (dict_get (data ev) "price")); simpl in Hret; [|done].
      destruct (py_div _ _); simpl in Hret; [|done].
      simplify_eq. by apply append_if_keeps.
    + by simplify_eq.
Qed.

(** Every reason list that holds an item gives a verdict other than
    TRUSTED. *)
Lemma eval_stream_quarantine p lob s ev price st reason :
  _eval_stream p lob s QUARANTINE ev = Return (price, (st, reason)) → st ≠ TRUSTED.
Proof.
  unfold _eval_stream. cbv zeta.
  pose proof (eval_windows_quarantine p s) as Hq.
  set (r0 := eval_windows p s QUARANTINE) in *.
  set (r1 := if bool_decide (s = ORDERBOOK) then _ else r0).
  assert (Hq1 : "quarantine" ∈ r1.2).
  { subst r1. case_bool_decide; [by apply eval_orderbook_keeps|done]. }
  destruct (if bool_decide (s = TRADES) then _ else _)
    as [[price' [untrusted degraded]]|] eqn:Htrades; simpl; [|done].
  assert (Hq2 : "quarantine" ∈ degraded).
  { case_bool_decide.
    - by apply (eval_trades_keeps _ _ _ _ "quarantine" _ _ Htrades).
    - injection Htrades as _ Hr. by rewrite Hr in Hq1. }
  intros Hret. destruct degraded as [|d degraded]; [by apply elem_of_nil in Hq2|].
  repeat case_bool_decide; simpl in Hret; by simplify_eq.
Qed.

(** A quarantined event never leaves its stream, or the policy as a whole,
    TRUSTED: whenever [on_event] returns for an event that the sanitizer
    quarantined, the verdict it returns is DEGRADED or UNTRUSTED, and so is
    the verdict it stores for the stream. *)
Theorem quarantine_is_not_trusted p lob s ev p' verdict reason :
  on_event p lob s QUARANTINE ev = Return (p', (verdict, reason)) →
  verdict ≠ TRUSTED ∧ _state_by_stream p' s ≠ TRUSTED ∧ reason ≠ "".
Proof.
  unfold on_event.
  destruct (_trim_san _ _ _) as [[w qsum]|]; simpl; [|done].
  destruct (_eval_stream _ lob s QUARANTINE ev) as [[price [st why]]|] eqn:Heval;
    simpl; [|done].
  apply eval_stream_quarantine in Heval.
  intros [= <- Hglobal].
  match type of Hglobal with
  | _reduce_global ?q = _ => pose proof (reduce_global_is_worst q) as Hworst
  end.
  rewrite Hglobal in Hworst. cbv zeta in Hworst.
  cbn [fst snd _state_by_stream] in Hworst. cbn [_state_by_stream].
  destruct Hworst as (_ & _ & Htrusted & Hreason).
  assert (Hv : verdict ≠ TRUSTED).
  { intros Hv. apply Heval. rewrite <- (fn_lookup_insert (_state_by_stream p) s st).
    by apply Htrusted. }
  split; [done|]. split; [by rewrite fn_lookup_insert|].
  intros Hr. by apply Hv, Hreason.
Qed.

Lemma quarantine_is_not_trusted_witness :
  ∃ p' verdict reason,
    on_event (new Scenario.data_trust_cfg) (OrderBookReplayer.new 2) ORDERBOOK QUARANTINE
             Scenario.foreign_row = Return (p', (verdict, reason))
    ∧ verdict ≠ TRUSTED ∧ _state_by_stream p' ORDERBOOK ≠ TRUSTED ∧ reason ≠ "".
Proof.
  assert (Hrun : ∃ p' verdict reason,
             on_event (new Scenario.data_trust_cfg) (OrderBookReplayer.new 2) ORDERBOOK
                      QUARANTINE Scenario.foreign_row = Return (p', (verdict, reason)))
    by (vm_compute; eauto).
  destruct Hrun as (p' & verdict & reason & Hrun). exists p', verdict, reason.
  split; [exact Hrun|].
  exact (quarantine_is_not_trusted _ _ _ _ _ _ _ Hrun).
Defined.

End trust_more.

(** ** The engine: state, log and statistics *)

Section engine_more.

Import SingleDecisionEngine EngineRun EngineMore.
Implicit Types (e : SingleDecisionEngine.t).

Lemma counters_set_dwell s sd td hd dd : counters (EngineStats.set_dwell s sd td hd dd) = counters s.
Proof. reflexivity. Qed.

(** The three setters leave the log and the counters alone, keep the
    decision, and set their own component. *)
Lemma set_sanitization_effect e status now_ts :
  let e' := _set_sanitization e status now_ts in
  writer e' = writer e ∧ counters (stats e') = counters (stats e)
  ∧ es_data_trust (state e') = es_data_trust (state e)
  ∧ es_hypothesis (state e') = es_hypothesis (state e)
  ∧ es_decision (state e') = es_decision (state e)
  ∧ decision_last_reason e' = decision_last_reason e.
Proof. unfold _set_sanitization. by case_bool_decide. Qed.

Lemma set_data_trust_effect e verdict now_ts :
  let e' := _set_data_trust e verdict now_ts in
  writer e' = writer e ∧ counters (stats e') = counters (stats e)
  ∧ es_data_trust (state e') = verdict
  ∧ es_hypothesis (state e') = es_hypothesis (state e)
  ∧ es_decision (state e') = es_decision (state e)
  ∧ decision_last_reason e' = decision_last_reason e.
Proof. unfold _set_data_trust. by case_bool_decide. Qed.

Lemma set_hypothesis_effect e verdict now_ts :
  let e' := _set_hypothesis e verdict now_ts in
  writer e' = writer e ∧ counters (stats e') = counters (stats e)
  ∧ es_data_trust (state e') = es_data_trust (state e)
  ∧ es_hypothesis (state e') = verdict
  ∧ es_decision (state e') = es_decision (state e)
  ∧ decision_last_reason e' = decision_last_reason e.
Proof. unfold _set_hypothesis. by case_bool_decide. Qed.

(** [_set_decision] leaves the engine with the decision of the table, and
    writes one record that shows the state it leaves. *)
Lemma set_decision_effect e now_ts trigger :
  let '(e', decision) := _set_decision e now_ts trigger in
  decision = DecisionMachine.compute (es_data_trust (state e)) (es_hypothesis (state e))
  ∧ es_data_trust (state e') = es_data_trust (state e)
  ∧ es_hypothesis (state e') = es_hypothesis (state e)
  ∧ es_decision (state e') = decision
  ∧ counters (stats e') = counters (stats e)
  ∧ state_transitions (writer e')
    = state_transitions (writer e)
      ++ [mkStateTransitionRecord now_ts (trust_value (es_data_trust (state e)))
            (hypo_value (es_hypothesis (state e))) (decision_value decision) trigger].
Proof.
  unfold _set_decision. cbv zeta.
  destruct (negb (bool_decide (_ = es_decision (state e))) || _) eqn:Hc.
  - repeat split; done.
  - apply orb_false_iff in Hc as [Hd%negb_false_iff%bool_decide_eq_true _].
    unfold _emit_state_transition. simpl. rewrite <- Hd. repeat split; done.
Qed.

Lemma tick_setters_keep_sanitization e now_ts trigger :
  es_sanitization
    (state (_set_decision (_set_hypothesis (_set_data_trust e DEGRADED now_ts) WEAKENING now_ts)
              now_ts trigger).1)
  = es_sanitization (state e).
Proof.
  unfold _set_decision, _set_hypothesis, _set_data_trust. cbv zeta.
  by repeat (case_bool_decide; simpl).
Qed.

#[local] Opaque _set_decision _set_sanitization _set_data_trust _set_hypothesis.

Lemma counters_on_event s s' sanitization data_trust hypothesis decision :
  counters s = counters s' →
  counters (EngineStats.on_event s sanitization data_trust hypothesis decision)
  = counters (EngineStats.on_event s' sanitization data_trust hypothesis decision).
Proof. unfold counters. simpl. intros [= -> -> -> -> -> -> -> -> -> -> -> ->]. done. Qed.

(** The loop body of [ingest] is one turn. *)
Lemma process_logged e now_ts ev e' :
  process e now_ts ev = Return e' → logged e e' now_ts.
Proof.
  unfold process.
  destruct (Sanitizer.sanitize (sanitizer e) ev) as [[san [[status fixed] why]]|];
    simpl; [|done].
  pose proof (set_sanitization_effect e status now_ts) as (Hw1 & Hc1 & _ & _ & _).
  set (e1 := _set_sanitization e status now_ts) in *. clearbody e1.
  destruct (if _ && _ then _ else _) as [lob|]; simpl; [|done].
  destruct (DataTrustPolicy.on_event _ lob _ status ev) as [[dt [trust trust_why]]|];
    simpl; [|done].
  pose proof (set_data_trust_effect e1 trust now_ts) as (Hw2 & Hc2 & Hdt2 & _ & _).
  set (e2 := _set_data_trust e1 trust now_ts) in *. clearbody e2.
  destruct (HypothesisPolicy.verify _ lob fixed now_ts) as [[hp [hypo hypo_why]]|];
    simpl; [|done].
  pose proof (set_hypothesis_effect e2 hypo now_ts) as (Hw3 & Hc3 & Hdt3 & Hhp3 & _).
  set (e3 := _set_hypothesis e2 hypo now_ts) in *. clearbody e3.
  set (trigger := compose_trigger hypo_why trust_why why).
  match goal with
  | |- context [_set_decision ?e4 now_ts trigger] =>
      pose proof (set_decision_effect e4 now_ts trigger) as Hdec;
      destruct (_set_decision e4 now_ts trigger) as [e5 decision]
  end.
  simpl in Hdec. destruct Hdec as (Hd & Hdt5 & Hhp5 & Hd5 & Hc5 & Hw5).
  intros [= <-]. exists status, trigger. simpl. split; [|split].
  - unfold consistent. rewrite Hd5, Hdt5, Hhp5. exact Hd.
  - rewrite Hw5, Hw3, Hw2, Hw1, Hdt5, Hhp5, Hd5. done.
  - rewrite Hd5, Hdt5, Hhp5, Hdt3, Hdt2, Hhp3.
    apply counters_on_event. by rewrite Hc5, Hc3, Hc2, Hc1.
Qed.

Lemma tally_snoc column label recs rec :
  tally column label (recs ++ [rec])
  = tally column label recs + (if bool_decide (column rec = label) then 1 else 0).
Proof.
  unfold tally. rewrite filter_app, length_app, Nat2Z.inj_add. f_equal.
  rewrite filter_cons, filter_nil. case_bool_decide; by case_decide.
Qed.

(** Counting an event and writing its record keeps the counters and the
    tallies together. *)
Lemma ledger_step s s' recs sanitization data_trust hypothesis decision now_ts trigger :
  ledger s recs →
  counters s' = counters (EngineStats.on_event s sanitization data_trust hypothesis decision) →
  ledger s' (recs ++ [mkStateTransitionRecord now_ts (trust_value data_trust)
                        (hypo_value hypothesis) (decision_value decision) trigger]).
Proof.
  intros (H0 & H1 & H2 & H3 & H4 & H5 & H6 & H7 & H8 & H9).
  unfold counters. intros [= E0 _ _ E1 E2 E3 E7 E8 E9 E4 E5 E6].
  unfold ledger. rewrite !tally_snoc, length_app, Nat2Z.inj_add.
  cbn [st_data_trust st_hypothesis st_decision length].
  destruct data_trust, hypothesis, decision; simpl in *;
    repeat match goal with
           | |- context [bool_decide (?a = ?b)] =>
               let v := eval vm_compute in (bool_decide (a = b)) in
               change (bool_decide (a = b)) with v
           end;
    repeat split; lia.
Qed.

Lemma kept_logged e e' now_ts : kept e → logged e e' now_ts → kept e'.
Proof.
  intros (_ & Hall & first & rest & Hrecs & Hinit & _ & Hledger)
         (sanitization & trigger & Hcons & Hlog & Hcount).
  cbv zeta in Hlog, Hcount.
  split; [done|]. split; [|exists first, (rest ++
    [mkStateTransitionRecord now_ts (trust_value (es_data_trust (state e')))
       (hypo_value (es_hypothesis (state e'))) (decision_value (es_decision (state e')))
       trigger])].
  - rewrite Hlog. apply Forall_app. split; [done|]. apply Forall_singleton.
    exists (es_data_trust (state e')), (es_hypothesis (state e')). simpl.
    by rewrite <- Hcons.
  - split; [by rewrite Hlog, Hrecs|]. split; [done|]. split.
    + rewrite app_comm_cons, last_snoc. by intros rec [= <-].
    + by apply (ledger_step (stats e) _ _ sanitization).
Qed.

Lemma process_all_kept e now_ts evs e' :
  kept e → process_all e now_ts evs = Return e' → kept e'.
Proof.
  revert e. induction evs as [|ev evs IH]; intros e Hkept; simpl.
  - by intros [= <-].
  - destruct (process e now_ts ev) as [e1|] eqn:Hproc; simpl; [|done].
    apply IH. by apply (kept_logged e e1 now_ts), process_logged with ev.
Qed.

Lemma ingest_kept e now_ts ev e' : kept e → ingest e now_ts ev = Return e' → kept e'.
Proof.
  intros Hkept. unfold ingest.
  destruct (TimeAligner.align (aligner e) ev) as [al [aligned_evs align_stats]].
  destruct (DataTrustPolicy.on_batch _ _ _) as [dt|]; simpl; [|done].
  apply process_all_kept. exact Hkept.
Qed.

(** A tick that finds a stalled stream is one turn, with DEGRADED and
    WEAKENING and a trigger that names the streams; any other tick does
    nothing. *)
Lemma tick_cases e now_ts :
  let stalled_streams :=
    filter (λ s, match last_ingest_ts_by_stream e s with
                 | Some ingest_ts => stall_threshold_us e s <? now_ts - ingest_ts
                 | None => false
                 end = true) all_streams in
  (stalled_streams = [] ∧ tick e now_ts = e)
  ∨ (stalled_streams ≠ []
     ∧ let st := state (tick e now_ts) in
       consistent st
       ∧ state_transitions (writer (tick e now_ts))
         = state_transitions (writer e)
           ++ [mkStateTransitionRecord now_ts (trust_value (es_data_trust st))
                 (hypo_value (es_hypothesis st)) (decision_value (es_decision st))
                 ("stall:" +:+ join "," (stream_value <$> stalled_streams))]
       ∧ counters (stats (tick e now_ts))
         = counters (EngineStats.on_event (stats e) (es_sanitization (state e))
                       (es_data_trust st) (es_hypothesis st) (es_decision st))
       ∧ es_sanitization st = es_sanitization (state e)
       ∧ es_data_trust st = DEGRADED
       ∧ es_hypothesis st = WEAKENING).
Proof.
  unfold tick. cbv zeta. case_bool_decide as Hstalled; [by left|right].
  split; [done|].
  pose proof (set_data_trust_effect e DEGRADED now_ts) as (Hw2 & Hc2 & Hdt2 & _ & _).
  match goal with
  | |- context [_set_decision ?e3 now_ts ?trigger] =>
      pose proof (tick_setters_keep_sanitization e now_ts trigger) as Hsan
  end.
  set (e2 := _set_data_trust e DEGRADED now_ts) in *. clearbody e2.
  pose proof (set_hypothesis_effect e2 WEAKENING now_ts) as (Hw3 & Hc3 & Hdt3 & Hhp3 & _).
  set (e3 := _set_hypothesis e2 WEAKENING now_ts) in *. clearbody e3.
  match goal with
  | |- context [_set_decision e3 now_ts ?trigger] =>
      pose proof (set_decision_effect e3 now_ts trigger) as Hdec;
      destruct (_set_decision e3 now_ts trigger) as [e5 decision]
  end.
  destruct Hdec as (Hd & Hdt5 & Hhp5 & Hd5 & Hc5 & Hw5). simpl in Hsan |- *.
  split; [|split; [|split; [|split; [done|by rewrite Hdt5, Hhp5, Hdt3, Hdt2, Hhp3]]]].
  - unfold consistent. rewrite Hd5, Hdt5, Hhp5. exact Hd.
  - rewrite Hw5, Hw3, Hw2, Hdt5, Hhp5, Hd5. done.
  - rewrite Hd5, Hdt5, Hhp5, Hdt3, Hdt2, Hhp3.
    apply counters_on_event. by rewrite Hc5, Hc3, Hc2.
Qed.

Lemma tick_kept e now_ts : kept e → kept (tick e now_ts).
Proof.
  intros Hkept. destruct (tick_cases e now_ts) as [[_ ->]|[_ Hturn]]; [done|].
  cbv zeta in Hturn. destruct Hturn as (Hcons & Hrecs & Hcount & _).
  apply (kept_logged e _ now_ts Hkept). eexists _, _. cbv zeta. split; [done|]. split; done.
Qed.

Lemma new_kept cfg now0 now1 : kept (new cfg now0 now1).
Proof.
  split; [done|]. split.
  - apply Forall_singleton. by exists DEGRADED, WEAKENING.
  - eexists _, []. split; [done|]. split; [done|]. split.
    + by intros rec [= <-].
    + unfold ledger, tally. simpl. repeat split; done.
Qed.

Lemma run_kept e cs e' : kept e → EngineRun.run e cs = Return e' → kept e'.
Proof.
  revert e. induction cs as [|c cs IH]; intros e Hkept; simpl.
  - by intros [= <-].
  - destruct (EngineRun.exec e c) as [e1|] eqn:Hexec; simpl; [|done].
    apply IH. destruct c as [now_ts ev|now_ts]; simpl in Hexec.
    + by apply (ingest_kept e now_ts ev).
    + injection Hexec as <-. by apply tick_kept.
Qed.

(** The decision always follows the table: after any calls of [ingest]
    and [tick] on a new engine, the engine's decision is the one
    [compute] gives for its trust and hypothesis states, every record
    written to the state-transition log (the one of [engine_init]
    included) has the decision of the table for the two states it shows,
    and the last record shows the engine's current state. *)
Theorem decision_follows_table (cfg : EngineCfg) (now0 now1 : Z) (cs : list EngineRun.call) e :
  EngineRun.run (new cfg now0 now1) cs = Return e →
  consistent (state e)
  ∧ Forall follows_table (state_transitions (writer e))
  ∧ ∃ rec, last (state_transitions (writer e)) = Some rec ∧ shows rec (state e).
Proof.
  intros Hrun.
  destruct (run_kept _ cs e (new_kept cfg now0 now1) Hrun)
    as (Hcons & Hall & first & rest & Hrecs & _ & Hlast & _).
  split; [done|]. split; [done|]. rewrite Hrecs.
  destruct (last (first :: rest)) as [rec|] eqn:Hrec.
  - exists rec. split; [done|]. by apply Hlast.
  - by apply last_None in Hrec.
Qed.

Lemma decision_follows_table_witness :
  ∃ e, EngineRun.run (new Scenario.engine_cfg 0 0) sample_run = Return e
       ∧ consistent (state e)
       ∧ Forall follows_table (state_transitions (writer e))
       ∧ ∃ rec, last (state_transitions (writer e)) = Some rec ∧ shows rec (state e).
Proof.
  assert (Hrun : ∃ e, EngineRun.run (new Scenario.engine_cfg 0 0) sample_run = Return e)
    by (vm_compute; eauto).
  destruct Hrun as [e Hrun]. exists e. split; [exact Hrun|].
  exact (decision_follows_table Scenario.engine_cfg 0 0 sample_run e Hrun).
Defined.

(** The statistics can be read off the log: after any calls on a new
    engine, [total_events] is the number of state-transition records after
    the one of [engine_init], and each counter by trust, hypothesis and
    decision state is the number of those records that show that state. *)
Theorem stats_match_log (cfg : EngineCfg) (now0 now1 : Z) (cs : list EngineRun.call) e :
  EngineRun.run (new cfg now0 now1) cs = Return e →
  ∃ first rest,
    state_transitions (writer e) = first :: rest
    ∧ st_trigger first = "engine_init"
    ∧ ledger (stats e) rest.
Proof.
  intros Hrun.
  destruct (run_kept _ cs e (new_kept cfg now0 now1) Hrun)
    as (_ & _ & first & rest & Hrecs & Hinit & _ & Hledger).
  by exists first, rest.
Qed.

Lemma stats_match_log_witness :
  ∃ e, EngineRun.run (new Scenario.engine_cfg 0 0) sample_run = Return e
       ∧ ∃ first rest,
           state_transitions (writer e) = first :: rest
           ∧ st_trigger first = "engine_init"
           ∧ ledger (stats e) rest.
Proof.
  assert (Hrun : ∃ e, EngineRun.run (new Scenario.engine_cfg 0 0) sample_run = Return e)
    by (vm_compute; eauto).
  destruct Hrun as [e Hrun]. exists e. split; [exact Hrun|].
  exact (stats_match_log Scenario.engine_cfg 0 0 sample_run e Hrun).
Defined.

(** [tick]: when no stream that has ingested anything is older than its
    threshold, nothing happens at all; when one is, the engine goes to
    DEGRADED, WEAKENING and RESTRICTED whatever its state was (the
    sanitization state stays), the tick is counted as an event, and one
    record is written, with a trigger that starts with [stall:]. *)
Theorem tick_on_stall e now_ts :
  let stalled s :=
    ∃ ingest_ts, last_ingest_ts_by_stream e s = Some ingest_ts
                 ∧ stall_threshold_us e s < now_ts - ingest_ts in
  ((∀ s, ¬ stalled s) → tick e now_ts = e)
  ∧ ((∃ s, stalled s) →
     state (tick e now_ts)
     = mkEngineState (es_sanitization (state e)) DEGRADED WEAKENING RESTRICTED
     ∧ EngineStats.total_events (stats (tick e now_ts))
       = EngineStats.total_events (stats e) + 1
     ∧ ∃ rec names,
         state_transitions (writer (tick e now_ts)) = state_transitions (writer e) ++ [rec]
         ∧ st_ts rec = now_ts
         ∧ st_decision rec = "RESTRICTED"
         ∧ st_trigger rec = "stall:" +:+ names).
Proof.
  intros stalled.
  set (test := λ s, match last_ingest_ts_by_stream e s with
                    | Some ingest_ts => stall_threshold_us e s <? now_ts - ingest_ts
                    | None => false
                    end).
  assert (Htest : ∀ s, test s = true ↔ stalled s).
  { intros s. unfold test, stalled. destruct (last_ingest_ts_by_stream e s) as [ts|].
    - rewrite Z.ltb_lt. split; [by exists ts|by intros (? & [= <-] & ?)].
    - split; [done|by intros (? & [=] & _)]. }
  pose proof (tick_cases e now_ts) as Hcases. cbv zeta in Hcases. fold test in Hcases.
  split.
  - intros Hnone. destruct Hcases as [[_ ?]|[Hne _]]; [done|]. destruct Hne.
    apply filter_nil_Forall, Forall_forall. intros s _ Hs. by apply (Hnone s), Htest.
  - intros [s Hs]. destruct Hcases as [[Hnil _]|[_ Hturn]].
    { apply filter_nil_Forall in Hnil.
      destruct (proj1 (Forall_forall _ _) Hnil s (all_streams_complete s)). by apply Htest. }
    destruct Hturn as (Hcons & Hrecs & Hcount & Hsan & Hdt & Hhp).
    unfold consistent in Hcons. rewrite Hdt, Hhp in Hcons. simpl in Hcons.
    split; [|split].
    + set (st := state (tick e now_ts)) in *. clearbody st.
      destruct st; simpl in *. by subst.
    + unfold counters in Hcount. by injection Hcount.
    + eexists _, _. split; [exact Hrecs|]. split; [done|]. split; [|done].
      simpl. by rewrite Hcons.
Qed.

End engine_more.

(** ** From the sanitizer to the hypothesis policy *)

Section pipeline_more.

Import Sanitizer HypothesisPolicy PipelineMore.
Implicit Types (ev : Event).

Lemma getitem_Some (payload : gmap string pyval) key v :
  payload !! key = Some v → getitem payload key = Return v.
Proof. unfold getitem. by intros ->. Qed.

Lemma getitem_None (payload : gmap string pyval) key :
  payload !! key = None → getitem payload key = Raise (KeyError key).
Proof. unfold getitem. by intros ->. Qed.

(** When the payload lacks a key that [verify] reads with [data[...]],
    [verify] raises [KeyError] for the first such key, in the order it
    reads them: [mark_price], [index_price], [last_price] for a TICKER
    event, [price] for a TRADES or a LIQUIDATIONS event.  The reads come
    before any arithmetic on the prices. *)
Theorem verify_raises_for_first_missing_key (p : HypothesisPolicy.t) lob ev now_us
    (before after : list string) (key : string) :
  read_by_verify (stream ev) = before ++ key :: after →
  Forall (λ k, is_Some (data ev !! k)) before →
  data ev !! key = None →
  verify p lob ev now_us = Raise (KeyError key).
Proof.
  unfold verify, on_stream, _collect_prices, read_by_verify.
  destruct (stream ev) eqn:Hst; simpl.
  - destruct before as [|k0 [|? ?]]; intros [= <-]; intros _ Hkey.
    by rewrite (getitem_None _ _ Hkey).
  - by destruct before.
  - destruct before as [|k0 [|? ?]]; intros [= <-]; intros _ Hkey.
    by rewrite (getitem_None _ _ Hkey).
  - destruct before as [|k1 [|k2 [|k3 [|? ?]]]]; intros [= ]; subst; intros Hbefore Hkey.
    + by rewrite (getitem_None _ _ Hkey).
    + apply Forall_cons in Hbefore as [[v1 H1] _].
      by rewrite (getitem_Some _ _ _ H1), (getitem_None _ _ Hkey).
    + apply Forall_cons in Hbefore as [[v1 H1] [[v2 H2] _]%Forall_cons].
      by rewrite (getitem_Some _ _ _ H1), (getitem_Some _ _ _ H2), (getitem_None _ _ Hkey).
Qed.

Lemma verify_raises_for_first_missing_key_witness :
  verify (HypothesisPolicy.new Scenario.hypothesis_cfg) HypothesisRun.flat_book
         (Scenario.event TICKER 5 [("mark_price", VNum (Qc_of_Z 100))]) 5
  = Raise (KeyError "index_price").
Proof.
  apply (verify_raises_for_first_missing_key _ _ _ _ ["mark_price"] ["last_price"]).
  - reflexivity.
  - repeat constructor. by eexists.
  - reflexivity.
Defined.

Lemma verify_returns_when_verifiable (p : HypothesisPolicy.t) lob ev now_us :
  verifiable ev → ∃ result, verify p lob ev now_us = Return result.
Proof.
  unfold verify, on_stream, _collect_prices, verifiable, read_by_verify.
  destruct (stream ev); simpl.
  - intros [[v Hp] _]%Forall_cons. rewrite (getitem_Some _ _ _ Hp). simpl. eauto.
  - eauto.
  - intros [[v Hp] _]%Forall_cons. rewrite (getitem_Some _ _ _ Hp). simpl. eauto.
  - intros [[v1 H1] [[v2 H2] [[v3 H3] _]%Forall_cons]%Forall_cons]%Forall_cons.
    rewrite (getitem_Some _ _ _ H1), (getitem_Some _ _ _ H2), (getitem_Some _ _ _ H3).
    simpl. eauto.
Qed.

Lemma present_not_none (payload : gmap string pyval) key :
  is_none (dict_get payload key) = false → is_Some (payload !! key).
Proof. unfold dict_get. by destruct (payload !! key). Qed.

(** What the stream rules let through has the keys of its stream. *)
Lemma stream_rules_fields s ev status reasons s1 status1 data1 reasons1 :
  stream_rules s ev status reasons = (s1, Continue status1 data1 reasons1) →
  Forall (λ key, is_Some (data1 !! key)) (read_by_verify (stream ev))
  ∧ (status1 = REPAIR ∨ data1 = data ev)
  ∧ (status = QUARANTINE ∨ status1 ≠ QUARANTINE).
Proof.
  unfold stream_rules, read_by_verify, missing3. destruct (stream ev).
  - destruct (is_none (dict_get (data ev) "price")) eqn:Hp; simpl; [done|].
    destruct (_ || _); [done|]. intros [= <- <- <- <-].
    split; [|split; [by right|destruct status; auto]].
    repeat constructor. by apply present_not_none.
  - destruct (_ && _); [done|]. destruct (_ || _); [done|]. intros [= <- <- <- <-].
    split; [constructor|split; [by right|destruct status; auto]].
  - destruct (is_none (dict_get (data ev) "price")) eqn:Hp; simpl; [done|].
    destruct (_ || _); [done|]. intros [= <- <- <- <-].
    split; [|split; [by right|destruct status; auto]].
    repeat constructor. by apply present_not_none.
  - destruct (fill_all _ _) as [merged used].
    case_bool_decide as Hmissing; cbn [negb]; [|done].
    apply filter_nil_Forall in Hmissing.
    assert (Hreq : ∀ payload,
               Forall (λ k, is_none (dict_get payload k) ≠ true) required →
               Forall (λ key, is_Some (payload !! key))
                 ["mark_price"; "index_price"; "last_price"]).
    { intros payload Hall. rewrite Forall_forall in Hall.
      repeat constructor; apply present_not_none;
        match goal with
        | |- is_none (dict_get _ ?k) = false =>
            specialize (Hall k); destruct (is_none (dict_get payload k)); [|done];
            destruct Hall; [unfold required; set_solver|done]
        end. }
    destruct (forallb _ required && negb used) eqn:Hc; intros [= <- <- <- <-].
    + apply andb_true_iff in Hc as [Hcomplete _].
      split; [|split; [by right|destruct status; auto]].
      apply Hreq, Forall_forall. intros k Hk%list_elem_of_In.
      rewrite forallb_forall in Hcomplete. specialize (Hcomplete k Hk).
      by destruct (is_none (dict_get (data ev) k)).
    + split; [by apply Hreq|split; [by left|by right]].
Qed.

(** What [sanitize] accepts or repairs, [verify] can read: the event that
    comes back with ACCEPT or REPAIR has every key that [verify] reads with
    [data[...]] for its stream, so that none of these reads raises
    [KeyError]. *)
Theorem sanitized_event_is_verifiable s ev s' status ev' reason
    (p : HypothesisPolicy.t) lob now_us :
  sanitize s ev = Return (s', (status, ev', reason)) →
  status ≠ QUARANTINE →
  verifiable ev' ∧ ∀ key, verify p lob ev' now_us ≠ Raise (KeyError key).
Proof.
  intros Hsan Hstatus.
  assert (Hok : verifiable ev').
  { revert Hsan. unfold sanitize. destruct (exchange ev) as [exch|]; simpl; [|done].
    case_bool_decide; simpl; [|by intros [= _ <-]].
    unfold sanitize_from_symbol.
    destruct (match symbol ev with Some _ => _ | None => _ end)
      as [[[sym status0] reasons0]|]; [|by intros [= _ <-]].
    destruct (stream_rules s ev status0 reasons0) as [s1 [why|status1 data1 reasons1]] eqn:Hrules;
      [by intros [= _ <-]|].
    destruct (stream_rules_fields _ _ _ _ _ _ _ _ Hrules) as (Hkeys & Hdata & _).
    unfold verifiable. case_bool_decide as Hrep; intros [= _ _ <- _]; simpl; [done|].
    destruct Hdata as [?|<-]; done. }
  split; [done|]. intros key.
  destruct (verify_returns_when_verifiable p lob ev' now_us Hok) as [result ->]. done.
Qed.

Lemma sanitized_event_is_verifiable_witness :
  verifiable SanitizerMore.thin_ticker_repaired
  ∧ ∀ key,
      verify (HypothesisPolicy.new Scenario.hypothesis_cfg) HypothesisRun.flat_book
             SanitizerMore.thin_ticker_repaired 7 ≠ Raise (KeyError key).
Proof.
  apply (sanitized_event_is_verifiable SanitizerMore.warm SanitizerMore.thin_ticker
           (update_cache SanitizerMore.warm (data SanitizerMore.thin_ticker)) REPAIR
           SanitizerMore.thin_ticker_repaired "repair_ticker_merge_cache").
  - vm_compute. reflexivity.
  - discriminate.
Defined.

(** A quarantined event comes back as it went in. *)
Lemma sanitize_quarantine_same s ev s' ev' why :
  sanitize s ev = Return (s', (QUARANTINE, ev', why)) → ev' = ev.
Proof.
  unfold sanitize. destruct (exchange ev) as [exch|]; simpl; [|done].
  case_bool_decide; simpl; [|by intros [= _ <-]].
  unfold sanitize_from_symbol.
  destruct (match symbol ev with Some _ => _ | None => _ end)
    as [[[sym status0] reasons0]|] eqn:Hsym; [|by intros [= _ <-]].
  assert (Hstatus0 : status0 ≠ QUARANTINE).
  { destruct (symbol ev); repeat case_bool_decide; simpl in Hsym; by simplify_eq. }
  destruct (stream_rules s ev status0 reasons0) as [s1 [why1|status1 data1 reasons1]] eqn:Hrules;
    [by intros [= _ <-]|].
  destruct (stream_rules_fields _ _ _ _ _ _ _ _ Hrules) as (_ & _ & [?|Hstatus1]); [done|].
  intros Hret. destruct (bool_decide (status1 = REPAIR)); by simplify_eq.
Qed.

(** The trust policy's [on_event] returns for every stream but TRADES,
    when the window size is not negative. *)
Lemma trust_on_event_returns p lob stream sanitization ev :
  0 ≤ cfg_window_events (DataTrustPolicy.cfg p) → stream ≠ TRADES →
  ∃ result, DataTrustPolicy.on_event p lob stream sanitization ev = Return result.
Proof.
  intros Hlimit Hstream. unfold DataTrustPolicy.on_event.
  destruct (trim_san_returns (cfg_window_events (DataTrustPolicy.cfg p))
              (DataTrustPolicy._san_quarantine_window p stream
               ++ [if bool_decide (sanitization = QUARANTINE) then 1 else 0])
              (DataTrustPolicy._san_quarantine_sum p stream
               + (if bool_decide (sanitization = QUARANTINE) then 1 else 0)) Hlimit)
    as (w' & sum' & -> & _).
  simpl. unfold DataTrustPolicy._eval_stream.
  rewrite (bool_decide_false (stream = TRADES)) by done. cbv zeta.
  destruct (if bool_decide (stream = ORDERBOOK) then _ else _) as [untrusted degraded].
  simpl. repeat case_bool_decide; simpl; eauto.
Qed.

(** A quarantined event still goes to [verify], as it came: a ticker
    that the sanitizer quarantines and that lacks the key [mark_price] makes
    the loop body of [ingest] raise [KeyError], after the trust policy has
    taken it in. *)
Theorem quarantined_ticker_raises (e : SingleDecisionEngine.t) now_ts ev s' ev' why :
  sanitize (SingleDecisionEngine.sanitizer e) ev = Return (s', (QUARANTINE, ev', why)) →
  stream ev = TICKER →
  data ev !! "mark_price" = None →
  0 ≤ cfg_window_events (DataTrustPolicy.cfg (SingleDecisionEngine.data_trust e)) →
  SingleDecisionEngine.process e now_ts ev = Raise (KeyError "mark_price").
Proof.
  intros Hsan Hstream Hmark Hlimit.
  pose proof (sanitize_quarantine_same _ _ _ _ _ Hsan) as ->.
  unfold SingleDecisionEngine.process. rewrite Hsan. simpl.
  rewrite Hstream. rewrite (bool_decide_false (TICKER = ORDERBOOK)) by done. simpl.
  destruct (set_sanitization_keeps e QUARANTINE now_ts) as [Hlob Hdt]. rewrite Hlob, Hdt.
  destruct (trust_on_event_returns (SingleDecisionEngine.data_trust e)
              (SingleDecisionEngine.lob_replayer e) TICKER QUARANTINE ev Hlimit)
    as [[dt [trust trust_why]] ->]; [done|].
  simpl. unfold verify, on_stream. rewrite Hstream, (getitem_None _ _ Hmark). done.
Qed.

Lemma quarantined_ticker_raises_witness :
  SingleDecisionEngine.process Scenario.engine 5 empty_ticker = Raise (KeyError "mark_price").
Proof.
  assert (Hsan : ∃ s' why,
             sanitize (SingleDecisionEngine.sanitizer Scenario.engine) empty_ticker
             = Return (s', (QUARANTINE, empty_ticker, why))) by (vm_compute; eauto).
  destruct Hsan as (s' & why & Hsan).
  apply (quarantined_ticker_raises Scenario.engine 5 empty_ticker s' empty_ticker why Hsan);
    [reflexivity|reflexivity|vm_compute; discriminate].
Defined.

End pipeline_more.

(** ** The consensus of the price sources *)

Section consensus_more.

Import HypothesisPolicy ConsensusMore.
Implicit Types (i j : string * Qc) (acc : Qc * option string) (keys : list (string * Qc)).

Lemma Qc_abs_nonneg (x : Qc) : (Qc_of_Z 0 ≤ Qc_abs x)%Qc.
Proof.
  unfold Qc_abs. destruct (decide _) as [Hneg|Hpos].
  - apply Qclt_le_weak, Qcopp_le_compat in Hneg. exact Hneg.
  - by apply Qcnot_lt_le.
Qed.

Lemma bps_nonneg i j : (Qc_of_Z 0 < j.2)%Qc → (Qc_of_Z 0 ≤ bps i j)%Qc.
Proof.
  intros Hj. unfold bps. apply Qcmult_nonneg_nonneg; [|done].
  unfold Qcdiv. apply Qcmult_nonneg_nonneg; [apply Qc_abs_nonneg|].
  apply Qclt_le_weak, Qcinv_pos. unfold Qc_abs. destruct (decide _) as [Hneg|]; [|done].
  destruct (Qclt_not_le _ _ Hneg). by apply Qclt_le_weak.
Qed.

Lemma score_bps i j acc :
  score i j acc = if decide (acc.1 < bps i j)%Qc then (bps i j, Some (i.1 +:+ "~" +:+ j.1)) else acc.
Proof. reflexivity. Qed.

(** The inner loop: the running maximum, with the pair that set it. *)
Lemma inner_loop_max i rest acc :
  let r := foldl (λ a j, score i j a) acc rest in
  (acc.1 ≤ r.1)%Qc
  ∧ Forall (λ j, (bps i j ≤ r.1)%Qc) rest
  ∧ (r = acc ∨ ∃ j, j ∈ rest ∧ r = (bps i j, Some (i.1 +:+ "~" +:+ j.1))).
Proof.
  revert acc. induction rest as [|j rest IH]; intros acc; simpl.
  - split; [apply Qcle_refl|]. split; [constructor|by left].
  - destruct (IH (score i j acc)) as (Hle & Hall & Hlast). rewrite score_bps in *.
    destruct (decide (acc.1 < bps i j)%Qc) as [Hlt|Hge]; simpl in *.
    + split; [by eapply Qcle_trans; [apply Qclt_le_weak|]|].
      split; [by constructor|]. right. destruct Hlast as [->|(j' & Hj' & ->)].
      * exists j. split; [by left|done].
      * exists j'. split; [by right|done].
    + split; [done|]. split.
      * constructor; [|done]. eapply Qcle_trans; [by apply Qcnot_lt_le|done].
      * destruct Hlast as [->|(j' & Hj' & ->)]; [by left|]. right. exists j'.
        split; [by right|done].
Qed.

Lemma elem_of_ordered_pairs_head {A} (x y : A) (rest : list A) :
  y ∈ rest → (x, y) ∈ ordered_pairs (x :: rest).
Proof.
  intros Hy. simpl. apply elem_of_app. left. apply list_elem_of_fmap. by exists y.
Qed.

(** The two loops: the maximum over all pairs [i < j]. *)
Lemma pairs_loop_max keys acc :
  let r := pairs_loop keys acc in
  (acc.1 ≤ r.1)%Qc
  ∧ Forall (λ ij : (string * Qc) * (string * Qc), (bps ij.1 ij.2 ≤ r.1)%Qc) (ordered_pairs keys)
  ∧ (r = acc
     ∨ ∃ i j, (i, j) ∈ ordered_pairs keys ∧ r = (bps i j, Some (i.1 +:+ "~" +:+ j.1))).
Proof.
  revert acc. induction keys as [|i rest IH]; intros acc; simpl.
  - split; [apply Qcle_refl|]. split; [constructor|by left].
  - destruct (inner_loop_max i rest acc) as (Hle1 & Hall1 & Hlast1).
    set (acc1 := foldl (λ a j, score i j a) acc rest) in *.
    destruct (IH acc1) as (Hle2 & Hall2 & Hlast2).
    split; [by eapply Qcle_trans|]. split.
    + apply Forall_app. split; [|done]. apply Forall_fmap.
      eapply Forall_impl; [exact Hall1|]. simpl. intros j Hj. by eapply Qcle_trans.
    + destruct Hlast2 as [->|(i' & j' & Hin & ->)].
      * destruct Hlast1 as [->|(j & Hj & ->)]; [by left|]. right. exists i, j.
        split; [|done]. by apply (elem_of_ordered_pairs_head i j rest).
      * right. exists i', j'. split; [|done]. apply elem_of_app. by right.
Qed.

Lemma admitted_positive (prices : list (string * pyval)) :
  Forall (λ kq : string * Qc, (Qc_of_Z 0 < kq.2)%Qc) (admitted prices).
Proof.
  unfold admitted. induction prices as [|[k v] prices IH]; simpl; [constructor|].
  unfold positive_number at 1. simpl. destruct (as_num v) as [q|]; simpl; [|done].
  destruct (decide _); simpl; [by constructor|done].
Qed.

Lemma ordered_pairs_second {A} (l : list A) (x y : A) : (x, y) ∈ ordered_pairs l → y ∈ l.
Proof.
  induction l as [|z l IH]; simpl; [by intros ?%elem_of_nil|].
  rewrite elem_of_app, list_elem_of_fmap. intros [(y' & [= -> ->] & Hy)|Hin].
  - by right.
  - right. by apply IH.
Qed.

(** [_consensus]: the sources are the prices that are positive numbers;
    with fewer than four of them there is no consensus; with four or more,
    [worst_bps] is the largest distance [abs(p_i - p_j) / abs(p_j) *
    10000] over the pairs [i < j] of sources, it is not negative, and
    [worst_pair] names a pair that has it. *)
Theorem consensus_is_worst_pair (prices : list (string * pyval)) :
  let keys := admitted prices in
  let c := _consensus prices in
  sources c = Z.of_nat (length keys)
  ∧ (ok c = true ↔ (4 ≤ length keys)%nat)
  ∧ (ok c = false → worst_bps c = None ∧ worst_pair c = None)
  ∧ (ok c = true →
     ∃ i j,
       (i, j) ∈ ordered_pairs keys
       ∧ worst_bps c = Some (bps i j)
       ∧ worst_pair c = Some (i.1 +:+ "~" +:+ j.1)
       ∧ (Qc_of_Z 0 ≤ bps i j)%Qc
       ∧ ∀ i' j', (i', j') ∈ ordered_pairs keys → (bps i' j' ≤ bps i j)%Qc).
Proof.
  intros keys c. subst c. unfold _consensus. fold keys.
  destruct (Z.of_nat (length keys) <? Z.of_nat (length all_streams)) eqn:Hfew.
  - apply Z.ltb_lt in Hfew. simpl in Hfew. simpl.
    split; [done|]. split; [split; [done|lia]|]. split; done.
  - apply Z.ltb_ge in Hfew. simpl in Hfew.
    pose proof (pairs_loop_max keys ((- Qc_of_Z 1)%Qc, None)) as (Hle & Hall & Hlast).
    pose proof (admitted_positive prices) as Hpos. fold keys in Hpos.
    destruct (pairs_loop keys ((- Qc_of_Z 1)%Qc, None)) as [worst pair] eqn:Hloop.
    simpl in Hle, Hall. simpl.
    split; [done|]. split; [split; [lia|done]|]. split; [done|]. intros _.
    assert (Hsome : ∃ a b, (a, b) ∈ ordered_pairs keys).
    { destruct keys as [|a [|b keys']]; simpl in Hfew; try lia.
      exists a, b. apply (elem_of_ordered_pairs_head a b (b :: keys')). by left. }
    destruct Hsome as (a & b & Hab).
    assert (Hworst : (Qc_of_Z 0 ≤ worst)%Qc).
    { eapply Qcle_trans; [apply (bps_nonneg a b)|].
      - apply ordered_pairs_second in Hab.
        by apply (proj1 (Forall_forall _ _) Hpos b).
      - by apply (proj1 (Forall_forall _ _) Hall (a, b)). }
    destruct Hlast as [[= -> _]|(i & j & Hin & [= -> ->])].
    { by apply Qcle_not_lt in Hworst. }
    exists i, j. repeat split; try done.
    intros i' j' Hin'. by apply (proj1 (Forall_forall _ _) Hall (i', j')).
Qed.

Lemma put_if_set_app key (v : pyval) (prices : list (string * pyval)) :
  put_if_set key v prices = prices ++ (if is_none v then [] else [(key, v)]).
Proof. unfold put_if_set. destruct (is_none v); [by rewrite app_nil_r|done]. Qed.

Lemma admitted_app (l1 l2 : list (string * pyval)) :
  admitted (l1 ++ l2) = admitted l1 ++ admitted l2.
Proof. apply omap_app. Qed.

Lemma admitted_one key (v : pyval) :
  (length (admitted [(key, v)]) ≤ 1)%nat
  ∧ (length (admitted [(key, v)]) = 1%nat → usable v).
Proof.
  unfold admitted, usable. cbn [omap list_omap fst snd].
  destruct (positive_number v); simpl; split; try lia; eauto.
Qed.

Lemma admitted_optional key (v : pyval) :
  (length (admitted (if is_none v then [] else [(key, v)])) ≤ 1)%nat
  ∧ (length (admitted (if is_none v then [] else [(key, v)])) = 1%nat → usable v).
Proof.
  destruct (is_none v); [simpl; split; [lia|by intros [=]]|apply admitted_one].
Qed.

(** On a TICKER or ORDERBOOK event there are four places a price can come
    from, and [_consensus] wants four sources: the hypothesis is evaluated
    only when the book has both sides with a mid above zero and the last
    mark, index and last prices are all numbers above zero. *)
Theorem quiet_streams_need_all_four (p : HypothesisPolicy.t) top ev prices :
  stream ev = TICKER ∨ stream ev = ORDERBOOK →
  _collect_prices p top ev = Return prices →
  ok (_consensus prices) = true →
  is_Some (best_bid top) ∧ is_Some (best_ask top)
  ∧ usable (from_option VNum VNone (mid top))
  ∧ usable (last_mark p) ∧ usable (last_index p) ∧ usable (last_last p)
  ∧ sources (_consensus prices) = 4.
Proof.
  intros Hstream Hprices Hok.
  destruct (consensus_is_worst_pair prices) as (Hsources & Hfour & _).
  apply Hfour in Hok. rewrite Hsources. clear Hsources Hfour.
  revert Hprices. unfold _collect_prices.
  rewrite (bool_decide_false (stream ev = TRADES)),
    (bool_decide_false (stream ev = LIQUIDATIONS)) by (destruct Hstream; congruence).
  cbv zeta. cbn [orb]. rewrite !put_if_set_app. intros [= <-].
  rewrite !admitted_app, !length_app in Hok |- *.
  destruct (admitted_optional "mark" (last_mark p)) as [Hm1 Hm].
  destruct (admitted_optional "index" (last_index p)) as [Hi1 Hi].
  destruct (admitted_optional "last" (last_last p)) as [Hl1 Hl].
  destruct (best_bid top) as [bid|], (best_ask top) as [ask|];
    try (simpl in Hok; lia).
  destruct (admitted_one "lob_mid" (from_option VNum VNone (mid top))) as [Hb1 Hb].
  split; [done|]. split; [done|].
  split; [apply Hb; lia|]. split; [apply Hm; lia|]. split; [apply Hi; lia|].
  split; [apply Hl; lia|lia].
Qed.

Lemma quiet_streams_need_all_four_witness :
  is_Some (best_bid (OrderBookReplayer.snapshot HypothesisRun.flat_book))
  ∧ is_Some (best_ask (OrderBookReplayer.snapshot HypothesisRun.flat_book))
  ∧ usable (from_option VNum VNone (mid (OrderBookReplayer.snapshot HypothesisRun.flat_book)))
  ∧ usable (last_mark settled) ∧ usable (last_index settled) ∧ usable (last_last settled)
  ∧ sources (_consensus settled_prices) = 4.
Proof.
  apply (quiet_streams_need_all_four settled
           (OrderBookReplayer.snapshot HypothesisRun.flat_book) Scenario.bid_100
           settled_prices).
  - by right.
  - vm_compute. reflexivity.
  - vm_compute. reflexivity.
Defined.

End consensus_more.
